(** * A shallow embedding of the capabilities controller of [src/index.ts]

    The controller mediates JSON-RPC calls made on behalf of domains.  Its
    state is a registry object [state.domains] that maps a domain name to an
    entry object holding the list of the domain's permission records, plus
    the list of pending permissions requests.

    JavaScript objects that the source shares and mutates in place (the
    registry object and the entry objects) live in an explicit heap and are
    passed around by location; arrays, which the source only ever replaces
    or extends through their single owner, are plain values, and so are
    permission records (the one place where the source writes to a record,
    the stamping of [addPermissionsFor], is discussed there).  Every method
    of the class is a computation in a small state-and-exception monad over
    that world. *)

From stdpp Require Import gmap strings list fin_maps relations pretty.
From Stdlib Require Import ZArith.

Local Open Scope string_scope.
Local Open Scope list_scope.
Local Open Scope Z_scope.

(** ** Data model *)

(** The values a caveat can carry ([value?: any]); an absent [value] reads as
    [undefined]. *)
Inductive JsValue :=
  | JUndefined
  | JNull
  | JBool (b : bool)
  | JNum (z : Z)
  | JStr (s : string).

(** [interface RpcCapCaveat]. *)
Record RpcCapCaveat := { type : string; value : JsValue }.

(** [type IMethodRequest]. *)
Record IMethodRequest := { request_caveats : option (list RpcCapCaveat) }.

(** [interface RpcCapPermission]: every field is optional in the source. *)
Record RpcCapPermission := {
  method : option string;
  perm_id : option string;
  date : option Z;
  granter : option string;
  caveats : option (list RpcCapCaveat)
}.

(** [interface RpcCapDomainEntry]. *)
Record RpcCapDomainEntry := { permissions : option (list RpcCapPermission) }.

(** [interface IRequestedPermissions]: a map from method names to method
    requests. *)
Abbreviation IRequestedPermissions := (gmap string IMethodRequest).

(** [interface IUserApprovalMetadata]; the source tests [!metadata.id], so
    the identifier may be missing. *)
Record IUserApprovalMetadata := {
  metadata_id : option string;
  origin : string;
  siteTitle : option string
}.

(** [interface IPermissionsRequest].  [options] is [req.params[0]], which the
    source does not validate: [None] stands for a first parameter that is
    not a map of requested permissions. *)
Record IPermissionsRequest := {
  request_origin : string;
  metadata : IUserApprovalMetadata;
  options : option IRequestedPermissions
}.

(** The parameter lists the handlers destructure.  The source types them as
    [any[]] and validates nothing; the shapes below are those the handlers
    read. *)
Inductive JsonRpcParams :=
  | ParamsOther
  | ParamsRequest (requested : IRequestedPermissions)
  | ParamsGrant (grantee : string) (requestedPerms : list RpcCapPermission)
  | ParamsRevoke (assignedDomain : string)
                 (requestedPerms : list (string + RpcCapPermission)).

Record JsonRpcRequest := {
  req_method : string;
  params : JsonRpcParams;
  req_metadata : option IUserApprovalMetadata
}.

(** Error objects: JSON-RPC errors carry a code, thrown JavaScript errors
    only a message. *)
Record JsonRpcError := {
  code : option Z;
  message : string;
  data : option JsonRpcRequest
}.

(** What [res.result] can hold. *)
Inductive ResultValue :=
  | RValue (v : JsValue)
  | RPermissions (ps : list RpcCapPermission).

Record JsonRpcResponse := {
  result : option ResultValue;
  error : option JsonRpcError
}.

(** The observable actions of one request, in order: assignments to
    [res.result] and [res.error], calls of the [end] and [next] callbacks
    and invocations of a registered handler. *)
Inductive Event :=
  | EvSetResult (v : ResultValue)
  | EvSetError (e : JsonRpcError)
  | EvEnd (e : option JsonRpcError)
  | EvNext
  | EvHandler (name : string).

Global Instance JsValue_eq_dec : EqDecision JsValue.
Proof. solve_decision. Defined.
Global Instance RpcCapCaveat_eq_dec : EqDecision RpcCapCaveat.
Proof. solve_decision. Defined.
Global Instance IMethodRequest_eq_dec : EqDecision IMethodRequest.
Proof. solve_decision. Defined.
Global Instance RpcCapPermission_eq_dec : EqDecision RpcCapPermission.
Proof. solve_decision. Defined.
Global Instance RpcCapDomainEntry_eq_dec : EqDecision RpcCapDomainEntry.
Proof. solve_decision. Defined.
Global Instance IUserApprovalMetadata_eq_dec : EqDecision IUserApprovalMetadata.
Proof. solve_decision. Defined.
Global Instance IPermissionsRequest_eq_dec : EqDecision IPermissionsRequest.
Proof. solve_decision. Defined.
Global Instance JsonRpcParams_eq_dec : EqDecision JsonRpcParams.
Proof. solve_decision. Defined.
Global Instance JsonRpcRequest_eq_dec : EqDecision JsonRpcRequest.
Proof. solve_decision. Defined.
Global Instance JsonRpcError_eq_dec : EqDecision JsonRpcError.
Proof. solve_decision. Defined.
Global Instance ResultValue_eq_dec : EqDecision ResultValue.
Proof. solve_decision. Defined.
Global Instance JsonRpcResponse_eq_dec : EqDecision JsonRpcResponse.
Proof. solve_decision. Defined.
Global Instance Event_eq_dec : EqDecision Event.
Proof. solve_decision. Defined.

(** ** The world: heap, controller state, external sources, current request *)

Definition loc := nat.

Record World := {
  (** heap of registry objects ([RpcCapDomainRegistry]) *)
  registries : gmap loc (gmap string loc);
  (** heap of entry objects ([RpcCapDomainEntry]) *)
  entries : gmap loc RpcCapDomainEntry;
  (** [this.state.domains]: a reference to a registry object, or unset *)
  state_domains : option loc;
  (** [this.state.permissionsRequests] *)
  state_permissionsRequests : option (list IPermissionsRequest);
  (** how many identifiers [uuid()] has handed out *)
  uuid_count : nat;
  (** what [Date.now()] reads *)
  clock : Z;
  (** the response object of the request being handled *)
  res : JsonRpcResponse;
  (** the actions performed so far for that request *)
  log : list Event
}.

(** ** The monad of the controller's methods *)

(** A method returns, throws a JavaScript error, or (for the resolver's
    [while] loop only) exhausts the step budget it was run with. *)
Inductive outcome (A : Type) :=
  | Ret (a : A)
  | Throw (e : JsonRpcError)
  | Diverge.
Arguments Ret {A} a.
Arguments Throw {A} e.
Arguments Diverge {A}.

Definition M (A : Type) : Type := World → outcome A * World.

Definition ret {A} (a : A) : M A := fun w => (Ret a, w).

Definition bind {A B} (m : M A) (k : A → M B) : M B :=
  fun w =>
    match m w with
    | (Ret a, w') => k a w'
    | (Throw e, w') => (Throw e, w')
    | (Diverge, w') => (Diverge, w')
    end.

Definition throw {A} (e : JsonRpcError) : M A := fun w => (Throw e, w).

Definition diverge {A} : M A := fun w => (Diverge, w).

(** [try { m } catch (err) { h err }] *)
Definition try_catch {A} (m : M A) (h : JsonRpcError → M A) : M A :=
  fun w =>
    match m w with
    | (Throw e, w') => h e w'
    | r => r
    end.

Definition gets {A} (f : World → A) : M A := fun w => (Ret (f w), w).

Definition modify (f : World → World) : M unit := fun w => (Ret tt, f w).

Declare Scope ctl_scope.
Delimit Scope ctl_scope with ctl.
Notation "'let*' x ':=' m 'in' k" := (bind m (fun x => k))
  (at level 10, x name, m at level 100, k at level 200) : ctl_scope.
Notation "m ;;; k" := (bind m (fun _ => k))
  (at level 100, right associativity) : ctl_scope.
Local Open Scope ctl_scope.

(** [for (x of xs) { f x }] and [xs.forEach(f)]: the body runs for every
    element, in order. *)
Fixpoint for_each {A} (f : A → M unit) (xs : list A) : M unit :=
  match xs with
  | [] => ret tt
  | x :: xs' => f x ;;; for_each f xs'
  end.

(** The error thrown when a property of [undefined] is read. *)
Definition TypeError (what : string) : JsonRpcError :=
  {| code := None; message := "TypeError: " +:+ what; data := None |}.

(** ** World accessors *)

Definition set_registries (r : gmap loc (gmap string loc)) (w : World) : World :=
  {| registries := r; entries := entries w; state_domains := state_domains w;
     state_permissionsRequests := state_permissionsRequests w;
     uuid_count := uuid_count w; clock := clock w; res := res w; log := log w |}.

Definition set_entries (e : gmap loc RpcCapDomainEntry) (w : World) : World :=
  {| registries := registries w; entries := e; state_domains := state_domains w;
     state_permissionsRequests := state_permissionsRequests w;
     uuid_count := uuid_count w; clock := clock w; res := res w; log := log w |}.

Definition set_state_domains (d : option loc) (w : World) : World :=
  {| registries := registries w; entries := entries w; state_domains := d;
     state_permissionsRequests := state_permissionsRequests w;
     uuid_count := uuid_count w; clock := clock w; res := res w; log := log w |}.

Definition set_state_permissionsRequests (r : option (list IPermissionsRequest))
    (w : World) : World :=
  {| registries := registries w; entries := entries w;
     state_domains := state_domains w; state_permissionsRequests := r;
     uuid_count := uuid_count w; clock := clock w; res := res w; log := log w |}.

Definition set_uuid_count (n : nat) (w : World) : World :=
  {| registries := registries w; entries := entries w;
     state_domains := state_domains w;
     state_permissionsRequests := state_permissionsRequests w;
     uuid_count := n; clock := clock w; res := res w; log := log w |}.

Definition set_res (r : JsonRpcResponse) (w : World) : World :=
  {| registries := registries w; entries := entries w;
     state_domains := state_domains w;
     state_permissionsRequests := state_permissionsRequests w;
     uuid_count := uuid_count w; clock := clock w; res := r; log := log w |}.

Definition set_log (l : list Event) (w : World) : World :=
  {| registries := registries w; entries := entries w;
     state_domains := state_domains w;
     state_permissionsRequests := state_permissionsRequests w;
     uuid_count := uuid_count w; clock := clock w; res := res w; log := l |}.

(** Reading through a reference.  A reference held by the program always
    points to an allocated object; the default is the empty object. *)
Definition read_registry (l : loc) (w : World) : gmap string loc :=
  default ∅ (registries w !! l).

Definition read_entry (l : loc) (w : World) : RpcCapDomainEntry :=
  default {| permissions := None |} (entries w !! l).

(** Object literals allocate at a location not in use. *)
Definition new_registry (r : gmap string loc) : M loc :=
  fun w =>
    let l := fresh (dom (registries w)) in
    (Ret l, set_registries (<[l := r]> (registries w)) w).

Definition new_entry (e : RpcCapDomainEntry) : M loc :=
  fun w =>
    let l := fresh (dom (entries w)) in
    (Ret l, set_entries (<[l := e]> (entries w)) w).

(** [object[key] = value] on a plain object given by its own properties.
    The name ["__proto__"] is the prototype accessor of such an object unless
    the object has an own property of that name (as an object read from a
    snapshot may): assigning an object to it replaces the prototype and
    creates no property.  The prototype is not part of the model: the
    controller reads [domains[domain]] only after it found [domain] among
    [Object.keys(domains)], or right after the assignment, where the read
    yields the value just assigned in either case. *)
Definition object_put {V} (key : string) (value : V) (o : gmap string V)
    : gmap string V :=
  if bool_decide (key = "__proto__") && bool_decide (o !! key = None) then o
  else <[key := value]> o.

(** [domains[domain] = entry] on the registry object at [l]. *)
Definition registry_put (l : loc) (domain : string) (entry : loc) : M unit :=
  modify (fun w =>
    set_registries
      (<[l := object_put domain entry (read_registry l w)]> (registries w)) w).

(** [entry.permissions = ps] on the entry object at [l]. *)
Definition entry_set_permissions (l : loc) (ps : list RpcCapPermission) : M unit :=
  modify (fun w =>
    set_entries (<[l := {| permissions := Some ps |}]> (entries w)) w).

(** ** External sources *)

(** The [n]-th identifier handed out by [uuid()]. *)
Definition uuid_at (n : nat) : string := "uuid-" +:+ pretty n.

Definition uuid : M string :=
  fun w => (Ret (uuid_at (uuid_count w)), set_uuid_count (S (uuid_count w)) w).

(** [Date.now()]. *)
Definition Date_now : M Z := gets clock.

(** ** Callbacks and the response object *)

Definition emit (e : Event) : M unit :=
  modify (fun w => set_log (log w ++ [e]) w).

(** [res.result = v] *)
Definition set_result (v : ResultValue) : M unit :=
  modify (fun w => set_res {| result := Some v; error := error (res w) |} w) ;;;
  emit (EvSetResult v).

(** [res.error = e] *)
Definition set_error (e : JsonRpcError) : M unit :=
  modify (fun w => set_res {| result := result (res w); error := Some e |} w) ;;;
  emit (EvSetError e).

(** [end(e)] and [end()] *)
Definition end_ (e : option JsonRpcError) : M unit := emit (EvEnd e).

(** [next()] *)
Definition next : M unit := emit EvNext.

(** ** Configuration *)

(** [interface JsonRpcMiddleware]: a registered handler acts on the response
    object and the callbacks of the request being handled. *)
Definition JsonRpcMiddleware : Type := JsonRpcRequest → M unit.

(** [interface RestrictedMethodEntry]; [entry_method] is [None] when the
    [method] field does not hold a function. *)
Record RestrictedMethodEntry := {
  description : string;
  entry_method : option JsonRpcMiddleware
}.

(** How the promise returned by [requestUserApproval] settles. *)
Inductive ApprovalOutcome :=
  | Resolved (approved : IRequestedPermissions)
  | Rejected (reason : JsonRpcError).

(** [interface CapabilitiesConfig], after the constructor's defaults. *)
Record CapabilitiesConfig := {
  safeMethods : list string;
  restrictedMethods : gmap string RestrictedMethodEntry;
  methodPrefix : string;
  requestUserApproval : IPermissionsRequest → ApprovalOutcome
}.

(** ** Constants *)

Definition unauthorized (request : option JsonRpcRequest) : JsonRpcError :=
  {| message := "Unauthorized to perform action. Try requesting permission first using the `requestPermissions` method. More info available at https://github.com/MetaMask/json-rpc-capabilities-middleware";
     code := Some 1;
     data := request |}.

Definition METHOD_NOT_FOUND : JsonRpcError :=
  {| code := Some (-32601); message := "Method not found"; data := None |}.

Definition USER_REJECTED_ERROR : JsonRpcError :=
  {| code := Some 5; message := "User rejected the request."; data := None |}.

(** ** JavaScript primitives *)

(** Truthiness of an optional string: [undefined] and the empty string are
    falsy. *)
Definition truthy (o : option string) : bool :=
  match o with
  | Some s => negb (String.eqb s "")
  | None => false
  end.

(** Calling an array method on a value that may be [undefined]. *)
Definition array_of {A} (what : string) (o : option (list A)) : M (list A) :=
  match o with
  | Some l => ret l
  | None => throw (TypeError what)
  end.

(** The property key a value is coerced to when it indexes an object. *)
Definition property_key (o : option string) : string := default "undefined" o.

(** The names every object literal inherits from [Object.prototype]; reading
    one of them on [{}] yields a truthy value. *)
Definition Object_prototype_keys : list string :=
  [ "constructor"; "__defineGetter__"; "__defineSetter__"; "hasOwnProperty";
    "__lookupGetter__"; "__lookupSetter__"; "isPrototypeOf";
    "propertyIsEnumerable"; "toString"; "valueOf"; "__proto__";
    "toLocaleString" ].

(** The natural key test both [addPermissionsFor] and [removePermissionsFor]
    use: [a.method === b.method && a.granter === b.granter]. *)
Definition same_key (a b : RpcCapPermission) : Prop :=
  method a = method b ∧ granter a = granter b.

Global Instance same_key_dec a b : Decision (same_key a b).
Proof. unfold same_key. apply _. Defined.

(** ** The controller ([class CapabilitiesController]) *)

Section Controller.

(** The configuration the controller was constructed with. *)
Variable config : CapabilitiesConfig.

(** The number of iterations granted to the resolver's [while] loop. *)
Variable fuel : nat.

(** [getPermissionsForDomain]: reads [state.domains]; [None] is an entry
    whose [permissions] field is [undefined]. *)
Definition permissionsForDomain (w : World) (domain : string)
    : option (list RpcCapPermission) :=
  match state_domains w with
  | None => Some []
  | Some domains =>
      match read_registry domains w !! domain with
      | Some entry => permissions (read_entry entry w)
      | None => Some []
      end
  end.

Definition getPermissionsForDomain (domain : string)
    : M (option (list RpcCapPermission)) :=
  gets (fun w => permissionsForDomain w domain).

(** [const methodFilter = (p) => p.method === method] *)
Definition methodFilter (m : option string) (p : RpcCapPermission) : Prop :=
  method p = m.

Global Instance methodFilter_dec m p : Decision (methodFilter m p).
Proof. unfold methodFilter. apply _. Defined.

(** [this.getPermissionsForDomain(d).filter(methodFilter)] *)
Definition methodPermissions (m : option string) (d : string)
    : M (list RpcCapPermission) :=
  let* ps := getPermissionsForDomain d in
  let* ps := array_of "filter" ps in
  ret (filter (methodFilter m) ps).

(** The [while (permissions.length > 0)] loop of [getPermission]; one unit
    of [n] is spent per iteration. *)
Fixpoint getPermission_loop (n : nat) (m : option string)
    (perms : list RpcCapPermission) : M (option RpcCapPermission) :=
  match perms with
  | [] => ret None
  | perm :: _ =>
      match n with
      | O => diverge
      | S n' =>
          if truthy (granter perm) then
            let* perms' := methodPermissions m (default "" (granter perm)) in
            getPermission_loop n' m perms'
          else ret (Some perm)
      end
  end.

Definition getPermission (domain : string) (m : option string)
    : M (option RpcCapPermission) :=
  let* perms := methodPermissions m domain in
  getPermission_loop fuel m perms.

(** The filter of [getPermissionUnTraversed]. *)
Definition unTraversedFilter (domain : string) (m : option string)
    (g : option string) (p : RpcCapPermission) : Prop :=
  method p = m ∧
  ((granter p = None ∧ g = Some domain) ∨
   (granter p ≠ None ∧ granter p = g)).

Global Instance unTraversedFilter_dec domain m g p :
  Decision (unTraversedFilter domain m g p).
Proof. unfold unTraversedFilter. apply _. Defined.

Definition getPermissionUnTraversed (domain : string) (m : option string)
    (g : option string) : M (option RpcCapPermission) :=
  let* ps := getPermissionsForDomain domain in
  let* ps := array_of "filter" ps in
  ret (head (filter (unTraversedFilter domain m g) ps)).

Definition getPermissionsRequests : M (list IPermissionsRequest) :=
  gets (fun w => default [] (state_permissionsRequests w)).

Definition setPermissionsRequests (rs : list IPermissionsRequest) : M unit :=
  modify (set_state_permissionsRequests (Some rs)).

Definition removePermissionsRequest (requestId : option string) : M unit :=
  let* reqs := getPermissionsRequests in
  setPermissionsRequests
    (filter (fun oldReq => metadata_id (metadata oldReq) ≠ requestId) reqs).

(** [getDomains]: the registry object of the state or, when the state has
    none, a new empty object. *)
Definition getDomains : M loc :=
  let* domains := gets state_domains in
  match domains with
  | Some l => ret l
  | None => new_registry ∅
  end.

Definition getDomainSettings (domain : string) : M loc :=
  let* domains := getDomains in
  let* reg := gets (read_registry domains) in
  match reg !! domain with
  | Some entry => ret entry
  | None =>
      let* entry := new_entry {| permissions := Some [] |} in
      registry_put domains domain entry ;;;
      ret entry
  end.

Definition setDomain (domain : string) (domainSettings : loc) : M unit :=
  let* domains := getDomains in
  registry_put domains domain domainSettings ;;;
  modify (set_state_domains (Some domains)).

(** [if (!perm.id) { perm.id = uuid(); perm.date = Date.now(); }] *)
Definition ensure_id (perm : RpcCapPermission) : M RpcCapPermission :=
  if truthy (perm_id perm) then ret perm
  else
    let* i := uuid in
    let* d := Date_now in
    ret {| method := method perm; perm_id := Some i; date := Some d;
           granter := granter perm; caveats := caveats perm |}.

(** [domain.permissions.push(perm)] on the entry object at [l]. *)
Definition entry_push (l : loc) (perm : RpcCapPermission) : M unit :=
  let* ps := gets (fun w => permissions (read_entry l w)) in
  let* ps := array_of "push" ps in
  entry_set_permissions l (ps ++ [perm]).

(** Permission records are values here, and [newPermissions] lists the
    elements of the array as separate objects.  A record that carries an
    [id] is stored as it is, also when the same object occurs twice in the
    array.  A record without [id] is stamped at each occurrence; the source
    stamps the object itself, so an object without [id] that occurs twice in
    the array, or that another list also refers to, is outside what this
    definition describes.  The statements about stamping below take
    permissions with pairwise distinct natural keys (hence separate
    objects) and speak of the list of the domain only, or take permissions
    that all carry an [id]. *)
Definition addPermissionsFor (domainName : string)
    (newPermissions : list RpcCapPermission) : M unit :=
  let* domain := getDomainSettings domainName in
  let* old := gets (fun w => permissions (read_entry domain w)) in
  let* old := array_of "filter" old in
  entry_set_permissions domain
    (filter (fun oldPerm => ¬ Exists (same_key oldPerm) newPermissions) old) ;;;
  for_each (fun perm =>
              let* perm' := ensure_id perm in
              entry_push domain perm') newPermissions ;;;
  setDomain domainName domain.

Definition removePermissionsFor (domainName : string)
    (permissionsToRemove : list RpcCapPermission) : M unit :=
  let* domain := getDomainSettings domainName in
  let* old := gets (fun w => permissions (read_entry domain w)) in
  let* old := array_of "reduce" old in
  entry_set_permissions domain
    (filter (fun perm => ¬ Exists (fun r => same_key r perm) permissionsToRemove)
            old) ;;;
  setDomain domainName domain.

(** What [res.result] holds after [res.result = permissions]. *)
Definition permissions_result (o : option (list RpcCapPermission)) : ResultValue :=
  match o with
  | Some ps => RPermissions ps
  | None => RValue JUndefined
  end.

(** The body of the [for (let method in approved)] loop. *)
Definition new_root_permission (g : option string)
    (entry : string * IMethodRequest) : M RpcCapPermission :=
  let* i := uuid in
  let* d := Date_now in
  ret {| method := Some entry.1; caveats := request_caveats entry.2;
         perm_id := Some i; date := Some d;
         granter := Some (if truthy g then default "" g else "user") |}.

Fixpoint map_M {A B} (f : A → M B) (xs : list A) : M (list B) :=
  match xs with
  | [] => ret []
  | x :: xs' =>
      let* y := f x in
      let* ys := map_M f xs' in
      ret (y :: ys)
  end.

(** The source enumerates the keys of [approved] with [for ... in]
    (insertion order for names that are not array indices).  A map does not
    record that order: the records are built here in the order of the keys
    of the map, so the order of the new records among themselves, and which
    identifier goes to which of them, need not be that of the source.  What
    is stated about them below does not depend on either. *)
Definition grantNewPermissions (domain : string)
    (approved : IRequestedPermissions) (g : option string) : M unit :=
  let* perms := map_M (new_root_permission g) (map_to_list approved) in
  addPermissionsFor domain perms ;;;
  let* ps := getPermissionsForDomain domain in
  set_result (permissions_result ps) ;;;
  end_ None.

Definition getPermissionsMiddleware (domain : string) (req : JsonRpcRequest)
    : M unit :=
  let* ps := getPermissionsForDomain domain in
  set_result (permissions_result ps) ;;;
  end_ None.

(** *** [requestPermissionsMiddleware]

    The handler runs in two parts: the synchronous part registers the
    pending request and calls the approver; the callbacks attached to the
    approver's promise run when it settles. *)

Definition requestPermissions_begin (domain : string) (req : JsonRpcRequest)
    : M IPermissionsRequest :=
  let md := default {| metadata_id := None; origin := domain;
                       siteTitle := Some domain |} (req_metadata req) in
  let* md :=
    (if truthy (metadata_id md) then ret md
     else
       let* i := uuid in
       ret {| metadata_id := Some i; origin := origin md;
              siteTitle := siteTitle md |}) in
  let perms := match params req with
               | ParamsRequest r => Some r
               | _ => None
               end in
  let* requests := getPermissionsRequests in
  let permissionsRequest :=
    {| request_origin := domain; metadata := md; options := perms |} in
  setPermissionsRequests (requests ++ [permissionsRequest]) ;;;
  ret permissionsRequest.

(** [.then((approved) => { ... }).catch((reason) => { ... })]: a rejected
    promise and an error thrown by the [then] callback both reach the
    [catch] callback. *)
Definition requestPermissions_settle (domain : string)
    (permissionsRequest : IPermissionsRequest) (o : ApprovalOutcome) : M unit :=
  try_catch
    (match o with
     | Rejected reason => throw reason
     | Resolved approved =>
         if bool_decide (length (map_to_list approved) = 0%nat) then
           set_error USER_REJECTED_ERROR ;;;
           end_ (Some USER_REJECTED_ERROR)
         else
           removePermissionsRequest (metadata_id (metadata permissionsRequest)) ;;;
           grantNewPermissions domain approved None
     end)
    (fun reason => set_error reason ;;; end_ (Some reason)).

(** The whole flow when nothing else runs before the approver answers. *)
Definition requestPermissionsMiddleware (domain : string) (req : JsonRpcRequest)
    : M unit :=
  let* permissionsRequest := requestPermissions_begin domain req in
  requestPermissions_settle domain permissionsRequest
    (requestUserApproval config permissionsRequest).

(** *** [grantPermissionsMiddleware] *)

(** [requestedPerms.filter(p => { if (!methodNames[p.method]) { ... } })]:
    [seen] lists the names for which [methodNames[name]] is truthy. *)
Fixpoint dedupe_by_method (seen : list string) (ps : list RpcCapPermission)
    : list RpcCapPermission :=
  match ps with
  | [] => []
  | p :: ps' =>
      let k := property_key (method p) in
      if bool_decide (k ∈ seen) then dedupe_by_method seen ps'
      else p :: dedupe_by_method (k :: seen) ps'
  end.

Fixpoint fold_M {A S} (f : S → A → M S) (s : S) (xs : list A) : M S :=
  match xs with
  | [] => ret s
  | x :: xs' =>
      let* s' := f s x in
      fold_M f s' xs'
  end.

(** The callback of [requestedPerms.forEach]; the pair carries the local
    variables [newlyGranted] and [ended].  Its [return] leaves the
    callback only: [forEach] goes on with the next element. *)
Definition grant_step (granter_ : string) (req : JsonRpcRequest)
    (vars : list RpcCapPermission * bool) (reqPerm : RpcCapPermission)
    : M (list RpcCapPermission * bool) :=
  let methodName := method reqPerm in
  let* perm := getPermission granter_ methodName in
  match perm with
  | Some perm =>
      let* d := Date_now in
      let* i := uuid in
      let newPerm := {| date := Some d; granter := Some granter_;
                        perm_id := Some i; method := methodName;
                        caveats := caveats perm |} in
      ret (vars.1 ++ [newPerm], vars.2)
  | None =>
      set_error (unauthorized (Some req)) ;;;
      let* e := gets (fun w => error (res w)) in
      end_ e ;;;
      ret (vars.1, true)
  end.

Definition grantPermissionsMiddleware (granter_ : string) (req : JsonRpcRequest)
    : M unit :=
  match params req with
  | ParamsGrant grantee requestedPerms =>
      let requestedPerms := dedupe_by_method Object_prototype_keys requestedPerms in
      let* vars := fold_M (grant_step granter_ req) ([], false) requestedPerms in
      let '(newlyGranted, ended) := vars in
      if ended then ret tt
      else
        addPermissionsFor grantee newlyGranted ;;;
        set_result (RPermissions newlyGranted) ;;;
        end_ None
  | _ => throw (TypeError "filter")
  end.

(** *** [revokePermissionsMiddleware] *)

Definition revoke_step (domain : string) (assignedDomain : string)
    (req : JsonRpcRequest) (vars : list RpcCapPermission * bool)
    (reqPerm : string + RpcCapPermission) : M (list RpcCapPermission * bool) :=
  let methodName := match reqPerm with
                    | inl s => Some s
                    | inr p => method p
                    end in
  let* perm := getPermissionUnTraversed assignedDomain methodName (Some domain) in
  let unauthorized_ :=
    set_error (unauthorized (Some req)) ;;;
    let* e := gets (fun w => error (res w)) in
    end_ e ;;;
    ret (vars.1, true) in
  match perm with
  | Some perm =>
      if (truthy (granter perm) && bool_decide (granter perm = Some domain))
         || bool_decide (assignedDomain = domain)
      then ret (vars.1 ++ [perm], vars.2)
      else unauthorized_
  | None => unauthorized_
  end.

Definition revokePermissionsMiddleware (domain : string) (req : JsonRpcRequest)
    : M unit :=
  match params req with
  | ParamsRevoke assignedDomain requestedPerms =>
      let* vars := fold_M (revoke_step domain assignedDomain req) ([], false)
                          requestedPerms in
      let '(newlyRevoked, ended) := vars in
      if ended then ret tt
      else
        removePermissionsFor assignedDomain newlyRevoked ;;;
        set_result (RPermissions newlyRevoked) ;;;
        end_ None
  | _ => throw (TypeError "forEach")
  end.

(** *** [executeMethod] and [providerMiddlewareFunction] *)

(** [this.restrictedMethods[methodName].method(req, res, next, end)] *)
Definition invoke (methodName : string) (handler : JsonRpcMiddleware)
    (req : JsonRpcRequest) : M unit :=
  emit (EvHandler methodName) ;;;
  handler req.

(** The registered handler of a method, when the method is a key of
    [restrictedMethods] and its [method] field is a function. *)
Definition callable_handler (methodName : string) : option JsonRpcMiddleware :=
  e ← restrictedMethods config !! methodName; entry_method e.

Definition executeMethod (domain : string) (req : JsonRpcRequest) : M unit :=
  let methodName := req_method req in
  let* permission := getPermission domain (Some methodName) in
  match callable_handler methodName with
  | Some handler =>
      let* cavs := match permission with
                   | Some p => ret (caveats p)
                   | None => throw (TypeError "caveats")
                   end in
      match cavs with
      | Some cs =>
          let statics := filter (fun c => type c = "static") cs in
          match last statics with
          | Some c => set_result (RValue (value c)) ;;; end_ None
          | None => invoke methodName handler req
          end
      | None => invoke methodName handler req
      end
  | None =>
      set_error METHOD_NOT_FOUND ;;;
      end_ (Some METHOD_NOT_FOUND)
  end.

(** [this.internalMethods]: the four meta methods under the prefix. *)
Definition internalMethods (methodName : string)
    : option (string → JsonRpcRequest → M unit) :=
  if bool_decide (methodName = methodPrefix config +:+ "getPermissions")
  then Some getPermissionsMiddleware
  else if bool_decide (methodName = methodPrefix config +:+ "requestPermissions")
  then Some requestPermissionsMiddleware
  else if bool_decide (methodName = methodPrefix config +:+ "grantPermissions")
  then Some grantPermissionsMiddleware
  else if bool_decide (methodName = methodPrefix config +:+ "revokePermissions")
  then Some revokePermissionsMiddleware
  else None.

Definition providerMiddlewareFunction (domain : string) (req : JsonRpcRequest)
    : M unit :=
  let methodName := req_method req in
  if bool_decide (methodName ∈ safeMethods config) then next
  else
    match internalMethods methodName with
    | Some handler => handler domain req
    | None =>
        let* resolved :=
          try_catch
            (let* permission := getPermission domain (Some methodName) in
             ret (Some permission))
            (fun err =>
               set_error {| message := message err; code := Some 1;
                            data := None |} ;;;
               let* e := gets (fun w => error (res w)) in
               end_ e ;;;
               ret None) in
        match resolved with
        | None => ret tt
        | Some None =>
            set_error (unauthorized (Some req)) ;;;
            let* e := gets (fun w => error (res w)) in
            end_ e
        | Some (Some _) => executeMethod domain req
        end
    end.

End Controller.

(** A request starts with a response object of its own and an empty list of
    actions. *)
Definition new_request (w : World) : World :=
  set_log [] (set_res {| result := None; error := None |} w).

(** The state a controller starts in when no snapshot is loaded:
    [permissionsRequests] is the empty list and [domains] is unset. *)
Definition initial_world : World :=
  {| registries := ∅; entries := ∅; state_domains := None;
     state_permissionsRequests := Some []; uuid_count := 0; clock := 1000;
     res := {| result := None; error := None |}; log := [] |}.

(** [serialize().domains]: the registry object of the state with every
    reference followed. *)
Definition serialize_domains (w : World) : option (gmap string RpcCapDomainEntry) :=
  (fun l => (fun e => read_entry e w) <$> read_registry l w) <$> state_domains w.

(** ** Scenario fixtures *)

Definition make_request (m : string) (p : JsonRpcParams) : JsonRpcRequest :=
  {| req_method := m; params := p; req_metadata := None |}.

(** The handler of scenario S1: [res.result = "ok"; end()]. *)
Definition ok_handler : JsonRpcMiddleware :=
  fun _ => set_result (RValue (JStr "ok")) ;;; end_ None.

(** The configuration of scenario S1: one restricted method ["write"] and an
    approver that grants it. *)
Definition S1_config : CapabilitiesConfig :=
  {| safeMethods := [];
     restrictedMethods :=
       {[ "write" := {| description := "write"; entry_method := Some ok_handler |} ]};
     methodPrefix := "";
     requestUserApproval :=
       fun _ => Resolved {[ "write" := {| request_caveats := None |} ]} |}.

(** The same configuration with an approver that returns the empty map, and
    with one whose promise rejects. *)
Definition S6_config : CapabilitiesConfig :=
  {| safeMethods := []; restrictedMethods := restrictedMethods S1_config;
     methodPrefix := ""; requestUserApproval := fun _ => Resolved ∅ |}.

Definition failing_approver_config : CapabilitiesConfig :=
  {| safeMethods := []; restrictedMethods := restrictedMethods S1_config;
     methodPrefix := "";
     requestUserApproval :=
       fun _ => Rejected {| code := None; message := "closed"; data := None |} |}.

Definition write_request : IRequestedPermissions :=
  {[ "write" := {| request_caveats := None |} ]}.

(** A permission record with the given natural key and identifier. *)
Definition permission_of (m : string) (g : option string) (i : string)
    : RpcCapPermission :=
  {| method := Some m; perm_id := Some i; date := Some 1; granter := g;
     caveats := None |}.

(** A permission-shaped object carrying only [method]. *)
Definition method_only (m : string) : RpcCapPermission :=
  {| method := Some m; perm_id := None; date := None; granter := None;
     caveats := None |}.

(** A world whose state holds the given domains, each with its list of
    permissions: entry objects at locations [0, 1, ...], the registry object
    at location [0] of the registry heap. *)
Definition world_of (ds : list (string * list RpcCapPermission)) : World :=
  {| registries := {[ 0%nat := list_to_map (zip (ds.*1) (seq 0 (length ds))) ]};
     entries := list_to_map (zip (seq 0 (length ds))
                                 ((fun d => {| permissions := Some d.2 |}) <$> ds));
     state_domains := Some 0%nat;
     state_permissionsRequests := Some [];
     uuid_count := 0; clock := 1000;
     res := {| result := None; error := None |}; log := [] |}.

Definition is_end (e : Event) : bool :=
  match e with EvEnd _ => true | _ => false end.

Definition is_response_write (e : Event) : bool :=
  match e with EvSetResult _ | EvSetError _ => true | _ => false end.

Definition is_handler_call (e : Event) : bool :=
  match e with EvHandler _ => true | _ => false end.

(** The number of [end] calls among the actions of a request. *)
Definition end_calls (l : list Event) : nat := length (List.filter is_end l).

(** The number of assignments to [res.result] or [res.error]. *)
Definition response_writes (l : list Event) : nat :=
  length (List.filter is_response_write l).

(** The number of handler invocations. *)
Definition handler_calls (l : list Event) : nat :=
  length (List.filter is_handler_call l).

(** ** Specification vocabulary and scenario states *)

(** The world after ["siteA"] has called [requestPermissions] for ["write"]
    and the approver has granted it. *)
Definition S1_after_grant : World :=
  (providerMiddlewareFunction S1_config 1 "siteA"
     (make_request "requestPermissions" (ParamsRequest write_request))
     initial_world).2.

(** The record [grantNewPermissions] created in that flow. *)
Definition S1_permission : RpcCapPermission :=
  {| method := Some "write"; perm_id := Some "uuid-1"; date := Some 1000;
     granter := Some "user"; caveats := None |}.

(** ["siteA"] holding the root permission that an approved request creates. *)
Definition user_granted_world : World :=
  world_of [("siteA", [permission_of "write" (Some "user") "id-1"])].

(** ["siteA"] holding a permission whose [granter] field is absent. *)
Definition granterless_world : World :=
  world_of [("siteA", [permission_of "write" None "id-1"])].

(** ["siteA"] holds nothing and tries to delegate two methods. *)
Definition grant_two_unheld : JsonRpcRequest :=
  make_request "grantPermissions"
    (ParamsGrant "siteB" [method_only "read"; method_only "write"]).

(** ["siteA"] tries to revoke two methods ["siteB"] does not hold. *)
Definition revoke_two_unheld : JsonRpcRequest :=
  make_request "revokePermissions" (ParamsRevoke "siteB" [inl "read"; inl "write"]).

Definition S6_request : JsonRpcRequest :=
  make_request "requestPermissions" (ParamsRequest write_request).

(** The pending request that [requestPermissionsMiddleware] registers for
    [S6_request] in the initial world. *)
Definition S6_pending : IPermissionsRequest :=
  {| request_origin := "siteA";
     metadata := {| metadata_id := Some "uuid-0"; origin := "siteA";
                    siteTitle := Some "siteA" |};
     options := Some write_request |}.

Definition is_static (c : RpcCapCaveat) : Prop := type c = "static".

(** Scenario S3: ["siteA"] holds ["read"] with a static caveat of value 42. *)
Definition S3_config : CapabilitiesConfig :=
  {| safeMethods := [];
     restrictedMethods :=
       {[ "read" := {| description := "read"; entry_method := Some ok_handler |} ]};
     methodPrefix := ""; requestUserApproval := fun _ => Resolved ∅ |}.

Definition S3_permission : RpcCapPermission :=
  {| method := Some "read"; perm_id := Some "id-1"; date := Some 1;
     granter := None;
     caveats := Some [ {| type := "static"; value := JNum 7 |};
                       {| type := "filter"; value := JNull |};
                       {| type := "static"; value := JNum 42 |} ] |}.

Definition S3_world : World := world_of [("siteA", [S3_permission])].

(** Every entry reference stored in the registry of the state points to an
    allocated entry object. *)
Definition heap_closed (w : World) : Prop :=
  ∀ l, state_domains w = Some l →
       map_Forall (fun _ e => e ∈ dom (entries w)) (read_registry l w).

(** The entry object a new domain starts with: [{ permissions: [] }]. *)
Definition empty_entry : RpcCapDomainEntry := {| permissions := Some [] |}.




(** The natural key of a permission record. *)
Definition natural_key (p : RpcCapPermission) : option string * option string :=
  (method p, granter p).

(** What [ensure_id] makes of a record when [uuid()] has handed out [n]
    identifiers and the clock reads [now]. *)
Definition stamp1 (n : nat) (now : Z) (p : RpcCapPermission)
    : RpcCapPermission * nat :=
  if truthy (perm_id p) then (p, n)
  else ({| method := method p; perm_id := Some (uuid_at n); date := Some now;
           granter := granter p; caveats := caveats p |}, S n).

Fixpoint stamp (n : nat) (now : Z) (ps : list RpcCapPermission)
    : list RpcCapPermission * nat :=
  match ps with
  | [] => ([], n)
  | p :: ps' =>
      let '(p', n1) := stamp1 n now p in
      let '(ps'', n2) := stamp n1 now ps' in
      (p' :: ps'', n2)
  end.

(** The records of a list that carry a given natural key. *)
Definition records_with_key (k : option string * option string)
    (ps : list RpcCapPermission) : list RpcCapPermission :=
  filter (fun p => natural_key p = k) ps.

Definition user_write_1 : RpcCapPermission := permission_of "write" (Some "user") "id-1".
Definition user_write_2 : RpcCapPermission := permission_of "write" (Some "user") "id-2".

Definition other_write : RpcCapPermission := permission_of "write" (Some "siteB") "id-0".

(** ["siteA"] already holds ["write"] from ["user"] and from ["siteB"]. *)
Definition siteA_world : World :=
  world_of [("siteA", [user_write_1; other_write])].

(** The granter-chain relation for a method: [d] holds a permission for the
    method whose granter is the domain [g]. *)
Definition granter_edge (w : World) (m : option string) (d g : string) : Prop :=
  ∃ ps p, permissionsForDomain w d = Some ps ∧ p ∈ ps ∧
          method p = m ∧ granter p = Some g ∧ g ≠ "".

(** No domain reaches itself along granter links. *)
Definition acyclic (w : World) (m : option string) : Prop :=
  ∀ d, ¬ tc (granter_edge w m) d d.

(** The domains that are keys of [state.domains]. *)
Definition registered_domains (w : World) : gset string :=
  match state_domains w with
  | Some l => dom (read_registry l w)
  | None => ∅
  end.

(** The names under which an assignment [domains[d] = entry] stores the
    entry in the registry of the state: every name but ["__proto__"], and
    that one too when the registry already has it as a key of its own. *)
Definition assignable (w : World) (d : string) : Prop :=
  d ≠ "__proto__" ∨ d ∈ registered_domains w.

Global Instance assignable_dec w d : Decision (assignable w d).
Proof. unfold assignable. apply _. Defined.

(** Scenario S4 with the root marked the way the resolver reads it:
    ["siteA"] holds a root permission for ["write"] and has delegated it to
    ["siteB"]. *)
Definition S4_world : World :=
  world_of [("siteA", [permission_of "write" None "id-1"]);
            ("siteB", [permission_of "write" (Some "siteA") "id-2"])].

(** Two domains that name each other as granter of ["write"]. *)
Definition cyclic_world : World :=
  world_of [("siteA", [permission_of "write" (Some "siteB") "id-1"]);
            ("siteB", [permission_of "write" (Some "siteA") "id-2"])].

(** ** Further vocabulary and scenario states *)

(** The response object after [res.error = e]. *)
Definition with_error (e : JsonRpcError) (w : World) : World :=
  set_res {| result := result (res w); error := Some e |} w.

(** The world after the actions [es] were added to those of the request. *)
Definition with_actions (es : list Event) (w : World) : World :=
  set_log (log w ++ es) w.

(** A configuration with one safe method, one restricted method with a
    handler, one restricted name whose [method] field is not a function, and
    a prefix for the meta methods. *)
Definition sample_config : CapabilitiesConfig :=
  {| safeMethods := ["eth_blockNumber"; "wallet_getPermissions"];
     restrictedMethods :=
       {[ "write" := {| description := "write"; entry_method := Some ok_handler |};
          "broken" := {| description := "broken"; entry_method := None |} ]};
     methodPrefix := "wallet_";
     requestUserApproval := fun _ => Resolved write_request |}.

(** A state in which the entry of ["siteA"] has no [permissions] field. *)
Definition undefined_permissions_world : World :=
  {| registries := {[ 0%nat := {[ "siteA" := 0%nat ]} ]};
     entries := {[ 0%nat := {| permissions := None |} ]};
     state_domains := Some 0%nat;
     state_permissionsRequests := Some [];
     uuid_count := 0; clock := 1000;
     res := {| result := None; error := None |}; log := [] |}.

(** The domains of the state with their entries; empty when
    [state.domains] is unset. *)
Definition domains_view (w : World) : gmap string RpcCapDomainEntry :=
  default ∅ (serialize_domains w).

(** No entry object is stored under two domain names. *)
Definition registry_unshared (w : World) : Prop :=
  ∀ l d1 d2 e, state_domains w = Some l →
    read_registry l w !! d1 = Some e → read_registry l w !! d2 = Some e →
    d1 = d2.

(** A well-formed heap: the registry of the state refers to allocated entry
    objects, each under one name. *)
Definition heap_wf (w : World) : Prop := heap_closed w ∧ registry_unshared w.

(** [w'] differs from [w] at most in the entry object at [e] and in the
    identifier counter. *)
Definition touches_only (e : loc) (w w' : World) : Prop :=
  registries w' = registries w ∧
  state_domains w' = state_domains w ∧
  (∀ e', e' ≠ e → entries w' !! e' = entries w !! e') ∧
  (is_Some (entries w !! e) → is_Some (entries w' !! e)) ∧
  state_permissionsRequests w' = state_permissionsRequests w ∧
  clock w' = clock w ∧ res w' = res w ∧ log w' = log w.

(** [w'] holds the same domains, entries and pending requests as [w]. *)
Definition same_store (w w' : World) : Prop :=
  registries w' = registries w ∧ entries w' = entries w ∧
  state_domains w' = state_domains w ∧
  state_permissionsRequests w' = state_permissionsRequests w.

(** The records of [assigned] that a caller may stage for revocation: those
    it granted and, when it revokes from itself, those without granter. *)
Definition revocable (caller assigned : string) (P : RpcCapPermission) : Prop :=
  granter P = Some caller ∨ (assigned = caller ∧ granter P = None).

Global Instance revocable_dec caller assigned P :
  Decision (revocable caller assigned P).
Proof. unfold revocable. apply _. Defined.

(** A record as [grantPermissions] issues it for caller [g] in state [w]:
    granted by [g], with an identifier, for a method for which the resolver
    returns a permission to [g], and with the caveats of that permission. *)
Definition delegated (fuel : nat) (g : string) (w : World)
    (P : RpcCapPermission) : Prop :=
  granter P = Some g ∧ truthy (perm_id P) = true ∧
  ∃ root, (getPermission fuel g (method P) w).1 = Ret (Some root) ∧
          caveats P = caveats root.

(** The records the [for (let method in approved)] loop of
    [grantNewPermissions] builds when [uuid()] has handed out [n]
    identifiers and the clock reads [now]. *)
Fixpoint root_records (root : string) (n : nat) (now : Z)
    (approved : list (string * IMethodRequest)) : list RpcCapPermission :=
  match approved with
  | [] => []
  | (m, r) :: approved' =>
      {| method := Some m; caveats := request_caveats r;
         perm_id := Some (uuid_at n); date := Some now;
         granter := Some root |}
      :: root_records root (S n) now approved'
  end.

(** The link the resolver follows from a domain: the granter of the first
    permission the domain holds for the method, when that granter is
    truthy.  The other permissions of the domain are never looked at. *)
Definition followed_edge (w : World) (m : option string) (d g : string) : Prop :=
  ∃ ps p rest, permissionsForDomain w d = Some ps ∧
               filter (methodFilter m) ps = p :: rest ∧
               granter p = Some g ∧ g ≠ "".

(** No domain reaches itself along the links the resolver follows. *)
Definition walk_acyclic (w : World) (m : option string) : Prop :=
  ∀ d, ¬ tc (followed_edge w m) d d.

(** ["siteA"] holds a root permission for ["write"], has delegated it to
    ["siteB"] and was granted it back by ["siteB"]. *)
Definition grant_back_world : World :=
  world_of [("siteA", [permission_of "write" None "id-1";
                       permission_of "write" (Some "siteB") "id-3"]);
            ("siteB", [permission_of "write" (Some "siteA") "id-2"])].







(** A record as [grantPermissionsMiddleware] builds it. *)
Definition delegation (m : option string) (g : string) (i : string) (now : Z)
    (cs : option (list RpcCapCaveat)) : RpcCapPermission :=
  {| date := Some now; granter := Some g; perm_id := Some i; method := m;
     caveats := cs |}.

(** The actions of a refused entry of [grantPermissions] or
    [revokePermissions]: [res.error = unauthorized(req)] and
    [end(res.error)]. *)
Definition refusal (req : JsonRpcRequest) : list Event :=
  [EvSetError (unauthorized (Some req));
   EvEnd (Some (unauthorized (Some req)))].

(** What one turn of the [forEach] loop of [revokePermissionsMiddleware]
    stages for an entry when the assigned domain holds the list [ps]: the
    first record for the entry's method that the caller granted (or, when
    the caller revokes from itself, that has no granter); nothing when there
    is no such record or the authorisation test fails. *)
Definition revoke_lookup (caller assigned : string)
    (ps : list RpcCapPermission) (x : string + RpcCapPermission)
    : option RpcCapPermission :=
  let m := match x with inl s => Some s | inr p => method p end in
  match head (filter (unTraversedFilter assigned m (Some caller)) ps) with
  | Some P =>
      if (truthy (granter P) && bool_decide (granter P = Some caller))
         || bool_decide (assigned = caller)
      then Some P else None
  | None => None
  end.

(** The permission the resolver returns to the granter for the method of a
    requested entry, if it returns one. *)
Definition grant_lookup (fuel : nat) (g : string) (w : World)
    (rp : RpcCapPermission) : option RpcCapPermission :=
  match (getPermission fuel g (method rp) w).1 with
  | Ret (Some root) => Some root
  | _ => None
  end.

(** The records the [forEach] loop of [grantPermissionsMiddleware] stages
    for the entries [reqs] when [uuid()] has handed out [n] identifiers and
    the clock reads [now]: one record for every entry whose method resolves
    for the granter, in order, with the caveats of the resolved permission. *)
Fixpoint delegated_records (fuel : nat) (g : string) (w : World) (n : nat)
    (now : Z) (reqs : list RpcCapPermission) : list RpcCapPermission :=
  match reqs with
  | [] => []
  | rp :: rest =>
      match grant_lookup fuel g w rp with
      | Some root =>
          delegation (method rp) g (uuid_at n) now (caveats root)
          :: delegated_records fuel g w (S n) now rest
      | None => delegated_records fuel g w n now rest
      end
  end.

(** Runs the primitive actions of the monad in the goal. *)
Ltac run_M :=
  cbv [bind ret gets modify set_error set_result end_ next emit throw try_catch];
  cbn.

(** * Properties *)

(** ** Grant, then call (scenario S1) *)

(** C1 (the code departs from the claim).  In scenario S1 the approved flow
    stores the record with granter ["user"] for ["siteA"] and answers with
    it, but the resolver does not stop at that record: it treats ["user"] as
    one more domain to visit, finds that domain without permissions and
    returns nothing.  The following call of ["write"] by ["siteA"] is then
    answered with the unauthorized error (code 1); the handler is never
    invoked and [res.result] is never set to ["ok"]. *)
Theorem S1_granted_call_is_unauthorized (fuel : nat) :
  result (res S1_after_grant) = Some (RPermissions [S1_permission]) ∧
  permissionsForDomain S1_after_grant "siteA" = Some [S1_permission] ∧
  (getPermission (S fuel) "siteA" (Some "write") S1_after_grant).1 = Ret None ∧
  let call := make_request "write" ParamsOther in
  let w2 := (providerMiddlewareFunction S1_config (S fuel) "siteA" call
               (new_request S1_after_grant)).2 in
  res w2 = {| result := None; error := Some (unauthorized (Some call)) |} ∧
  log w2 = [EvSetError (unauthorized (Some call));
            EvEnd (Some (unauthorized (Some call)))].
Proof. destruct fuel; repeat split; vm_compute; reflexivity. Qed.

(** ** Looking a permission up without following granters *)

(** C5 (the code departs from the claim).  Asked for the permission of
    ["siteA"] for ["write"] with the domain itself as granter,
    [getPermissionUnTraversed] does not return the record whose granter is
    ["user"]: it returns nothing.  What it matches in that case is a record
    whose [granter] field is absent. *)
Theorem getPermissionUnTraversed_misses_user_root :
  (getPermissionUnTraversed "siteA" (Some "write") (Some "siteA")
     user_granted_world).1 = Ret None ∧
  (getPermissionUnTraversed "siteA" (Some "write") (Some "siteA")
     granterless_world).1 = Ret (Some (permission_of "write" None "id-1")).
Proof. split; vm_compute; reflexivity. Qed.

(** ** One request, one answer *)

(** C2 (the code departs from the claim).  With two entries that do not
    resolve, the [forEach] callbacks of [grantPermissionsMiddleware] and of
    [revokePermissionsMiddleware] both run for the second entry after the
    first has failed: [res.error] is assigned twice and [end] is called
    twice for the one request. *)
Theorem failing_entries_end_twice (fuel : nat) :
  let wg := (grantPermissionsMiddleware fuel "siteA" grant_two_unheld
               initial_world).2 in
  let wr := (revokePermissionsMiddleware "siteA" revoke_two_unheld
               initial_world).2 in
  log wg = [EvSetError (unauthorized (Some grant_two_unheld));
            EvEnd (Some (unauthorized (Some grant_two_unheld)));
            EvSetError (unauthorized (Some grant_two_unheld));
            EvEnd (Some (unauthorized (Some grant_two_unheld)))] ∧
  end_calls (log wg) = 2%nat ∧ response_writes (log wg) = 2%nat ∧
  log wr = [EvSetError (unauthorized (Some revoke_two_unheld));
            EvEnd (Some (unauthorized (Some revoke_two_unheld)));
            EvSetError (unauthorized (Some revoke_two_unheld));
            EvEnd (Some (unauthorized (Some revoke_two_unheld)))] ∧
  end_calls (log wr) = 2%nat ∧ response_writes (log wr) = 2%nat.
Proof. destruct fuel; repeat split; vm_compute; reflexivity. Qed.

(** ** Pending requests and rejection *)

(** C4 (the code departs from the claim).  When the approver answers with
    the empty map (scenario S6) the request ends with the user-rejected
    error (code 5), and when the approver's promise rejects it ends with the
    rejection reason; in both cases the pending request is still in
    [state.permissionsRequests] afterwards.  After an approval it is gone. *)
Theorem rejected_request_stays_pending :
  let rejected := (requestPermissionsMiddleware S6_config "siteA" S6_request
                     initial_world).2 in
  let failed := (requestPermissionsMiddleware failing_approver_config "siteA"
                   S6_request initial_world).2 in
  let approved := (requestPermissionsMiddleware S1_config "siteA" S6_request
                     initial_world).2 in
  error (res rejected) = Some USER_REJECTED_ERROR ∧
  log rejected = [EvSetError USER_REJECTED_ERROR; EvEnd (Some USER_REJECTED_ERROR)] ∧
  state_permissionsRequests rejected = Some [S6_pending] ∧
  end_calls (log failed) = 1%nat ∧
  state_permissionsRequests failed = Some [S6_pending] ∧
  state_permissionsRequests approved = Some [].
Proof. repeat split; vm_compute; reflexivity. Qed.

(** ** The resolver reads and never writes *)

Lemma methodPermissions_world m d w : (methodPermissions m d w).2 = w.
Proof.
  unfold methodPermissions, getPermissionsForDomain, gets, bind.
  destruct (permissionsForDomain w d); reflexivity.
Qed.

Lemma getPermission_loop_world n m perms w :
  (getPermission_loop n m perms w).2 = w.
Proof.
  revert perms w. induction n as [|n IH]; intros [|perm perms] w; try reflexivity.
  simpl. destruct (truthy (granter perm)); [|reflexivity].
  unfold bind. pose proof (methodPermissions_world m (default "" (granter perm)) w) as Hw.
  destruct (methodPermissions m (default "" (granter perm)) w) as [[ps|e|] w1];
    simpl in Hw; subst w1; [apply IH | reflexivity | reflexivity].
Qed.

Lemma getPermission_world fuel d m w : (getPermission fuel d m w).2 = w.
Proof.
  unfold getPermission, bind.
  pose proof (methodPermissions_world m d w) as Hw.
  destruct (methodPermissions m d w) as [[ps|e|] w1]; simpl in Hw; subst w1;
    [apply getPermission_loop_world | reflexivity | reflexivity].
Qed.

Lemma getPermission_eq fuel d m w r :
  (getPermission fuel d m w).1 = r → getPermission fuel d m w = (r, w).
Proof.
  intros <-. rewrite <- (getPermission_world fuel d m w) at 3.
  destruct (getPermission fuel d m w); reflexivity.
Qed.

Lemma handler_calls_app l1 l2 :
  handler_calls (l1 ++ l2) = (handler_calls l1 + handler_calls l2)%nat.
Proof. unfold handler_calls. rewrite List.filter_app, length_app. reflexivity. Qed.

Lemma end_calls_app l1 l2 :
  end_calls (l1 ++ l2) = (end_calls l1 + end_calls l2)%nat.
Proof. unfold end_calls. rewrite List.filter_app, length_app. reflexivity. Qed.

(** ** The executor *)

(** C8.  When [executeMethod] runs for a method registered with a callable
    handler and the resolver returns a permission whose caveats include one
    of type ["static"], it assigns the value of the last such caveat to
    [res.result], calls [end()] once and does not invoke the handler. *)
Theorem executeMethod_static_caveat
    (config : CapabilitiesConfig) (fuel : nat) (domain : string)
    (req : JsonRpcRequest) (w : World) (P : RpcCapPermission)
    (handler : JsonRpcMiddleware) (cs : list RpcCapCaveat) :
  (getPermission fuel domain (Some (req_method req)) w).1 = Ret (Some P) →
  callable_handler config (req_method req) = Some handler →
  caveats P = Some cs →
  Exists is_static cs →
  ∃ c, last (filter is_static cs) = Some c ∧
       let r := executeMethod config fuel domain req w in
       r.1 = Ret tt ∧
       res r.2 = {| result := Some (RValue (value c)); error := error (res w) |} ∧
       log r.2 = log w ++ [EvSetResult (RValue (value c)); EvEnd None] ∧
       handler_calls (log r.2) = handler_calls (log w) ∧
       end_calls (log r.2) = S (end_calls (log w)).
Proof.
  intros Hperm Hhandler Hcs Hstatic.
  destruct (last (filter is_static cs)) as [c|] eqn:Hlast.
  - exists c. split; [reflexivity|].
    unfold executeMethod, bind.
    rewrite (getPermission_eq _ _ _ _ _ Hperm), Hhandler. simpl.
    rewrite Hcs. unfold is_static in Hlast. rewrite Hlast. simpl.
    repeat split.
    + rewrite <- app_assoc. reflexivity.
    + rewrite <- app_assoc, handler_calls_app. cbn. lia.
    + rewrite <- app_assoc, end_calls_app. cbn. lia.
  - exfalso. apply last_None in Hlast.
    apply Exists_exists in Hstatic as (c & Hin & Hc).
    assert (c ∈ filter is_static cs) as Hc' by (apply list_elem_of_filter; auto).
    rewrite Hlast in Hc'. inversion Hc'.
Qed.

Lemma executeMethod_static_caveat_witness :
  ∃ c, last (filter is_static (default [] (caveats S3_permission))) = Some c ∧
       let r := executeMethod S3_config 1 "siteA" (make_request "read" ParamsOther)
                  S3_world in
       r.1 = Ret tt ∧
       res r.2 = {| result := Some (RValue (value c));
                    error := error (res S3_world) |} ∧
       log r.2 = log S3_world ++ [EvSetResult (RValue (value c)); EvEnd None] ∧
       handler_calls (log r.2) = handler_calls (log S3_world) ∧
       end_calls (log r.2) = S (end_calls (log S3_world)).
Proof.
  apply (executeMethod_static_caveat S3_config 1 "siteA"
           (make_request "read" ParamsOther) S3_world S3_permission ok_handler).
  - vm_compute. reflexivity.
  - vm_compute. reflexivity.
  - reflexivity.
  - apply Exists_cons_hd. reflexivity.
Defined.

(** C10.  [executeMethod] resolves the permission again by itself.  When the
    method is registered with a callable handler and no permission resolves
    for the calling domain, it reads [caveats] of [undefined]: a [TypeError]
    is thrown, [res] is left as it was and neither [end] nor the handler is
    called. *)
Theorem executeMethod_without_permission
    (config : CapabilitiesConfig) (fuel : nat) (domain : string)
    (req : JsonRpcRequest) (w : World) (handler : JsonRpcMiddleware) :
  (getPermission fuel domain (Some (req_method req)) w).1 = Ret None →
  callable_handler config (req_method req) = Some handler →
  executeMethod config fuel domain req w = (Throw (TypeError "caveats"), w).
Proof.
  intros Hperm Hhandler. unfold executeMethod, bind.
  rewrite (getPermission_eq _ _ _ _ _ Hperm), Hhandler. reflexivity.
Qed.

Lemma executeMethod_without_permission_witness :
  executeMethod S3_config 1 "siteB" (make_request "read" ParamsOther) S3_world
    = (Throw (TypeError "caveats"), S3_world).
Proof.
  apply (executeMethod_without_permission S3_config 1 "siteB"
           (make_request "read" ParamsOther) S3_world ok_handler).
  - vm_compute. reflexivity.
  - vm_compute. reflexivity.
Defined.

(** ** Reading the settings of a domain *)


(** *** Reading through the heap after an update *)

Lemma read_entry_ext w w' e : entries w = entries w' → read_entry e w = read_entry e w'.
Proof. unfold read_entry. intros ->. reflexivity. Qed.

Lemma read_registry_ext w w' l :
  registries w = registries w' → read_registry l w = read_registry l w'.
Proof. unfold read_registry. intros ->. reflexivity. Qed.

Lemma read_registry_at w l r rs :
  registries w = <[l := r]> rs → read_registry l w = r.
Proof. unfold read_registry. intros ->. rewrite lookup_insert_eq. reflexivity. Qed.

Lemma read_registry_set w l r rs :
  read_registry l (set_registries (<[l := r]> rs) w) = r.
Proof. apply (read_registry_at _ _ _ rs). reflexivity. Qed.

Lemma read_registry_set_state_domains w l o :
  read_registry l (set_state_domains o w) = read_registry l w.
Proof. reflexivity. Qed.

Lemma read_entry_at w l e es :
  entries w = <[l := e]> es → read_entry l w = e.
Proof. unfold read_entry. intros ->. rewrite lookup_insert_eq. reflexivity. Qed.


(** *** Assignment to a property of a registry object *)

Lemma object_put_insert {V} d (v : V) (o : gmap string V) :
  d ≠ "__proto__" ∨ is_Some (o !! d) → object_put d v o = <[d := v]> o.
Proof.
  intros H. unfold object_put.
  destruct (bool_decide_reflect (d = "__proto__")) as [->|]; [|reflexivity].
  destruct H as [H|[x Hx]]; [done|]. rewrite Hx. reflexivity.
Qed.

Lemma object_put_prototype {V} d (v : V) (o : gmap string V) :
  d = "__proto__" → o !! d = None → object_put d v o = o.
Proof.
  intros -> Ho. unfold object_put. rewrite Ho. reflexivity.
Qed.

Lemma object_put_lookup_ne {V} d k (v : V) (o : gmap string V) :
  k ≠ d → object_put d v o !! k = o !! k.
Proof.
  intros Hk. unfold object_put.
  destruct (_ && _); [reflexivity|]. apply lookup_insert_ne. done.
Qed.



Lemma object_put_empty {V} d (v : V) :
  object_put d v (∅ : gmap string V)
  = if decide (d = "__proto__") then ∅ else {[d := v]}.
Proof.
  unfold object_put. rewrite lookup_empty.
  destruct (decide (d = "__proto__")) as [->|Hd].
  - reflexivity.
  - rewrite bool_decide_eq_false_2 by done. cbn. apply insert_empty.
Qed.

Lemma registered_domains_lookup w d :
  d ∈ registered_domains w ↔
  ∃ l, state_domains w = Some l ∧ is_Some (read_registry l w !! d).
Proof.
  unfold registered_domains. destruct (state_domains w) as [l|].
  - rewrite elem_of_dom. split; [eauto|]. intros (l' & E & H). congruence.
  - rewrite elem_of_empty. split; [done|]. intros (l' & E & _). discriminate.
Qed.

Lemma registered_domains_ext w w' :
  registries w' = registries w → state_domains w' = state_domains w →
  registered_domains w' = registered_domains w.
Proof.
  intros H1 H2. unfold registered_domains, read_registry. rewrite H1, H2.
  reflexivity.
Qed.

Lemma assignable_ext w w' d :
  registries w' = registries w → state_domains w' = state_domains w →
  assignable w' d ↔ assignable w d.
Proof.
  intros H1 H2. unfold assignable.
  rewrite (registered_domains_ext w w' H1 H2). reflexivity.
Qed.

(** A name that is not assignable is ["__proto__"] and no key of the
    registry; its list reads as the empty list. *)
Lemma not_assignable w d :
  ¬ assignable w d →
  d = "__proto__" ∧
  ∀ l, state_domains w = Some l → read_registry l w !! d = None.
Proof.
  intros H. split.
  - destruct (decide (d = "__proto__")); [done|]. exfalso. apply H. by left.
  - intros l Hl. destruct (read_registry l w !! d) eqn:E; [|done].
    exfalso. apply H. right. apply registered_domains_lookup. eauto.
Qed.

Lemma not_assignable_empty w d :
  ¬ assignable w d → permissionsForDomain w d = Some [].
Proof.
  intros H. destruct (not_assignable w d H) as [_ Hn].
  unfold permissionsForDomain. destruct (state_domains w) as [l|]; [|done].
  rewrite (Hn l eq_refl). reflexivity.
Qed.

(** *** The three cases of [getDomainSettings] *)

Lemma getDomainSettings_present d w l e :
  state_domains w = Some l → read_registry l w !! d = Some e →
  getDomainSettings d w = (Ret e, w).
Proof.
  intros Hl Hd. unfold getDomainSettings, getDomains, bind, gets.
  rewrite Hl. simpl. rewrite Hd. reflexivity.
Qed.

Lemma getDomainSettings_absent_set d w l :
  state_domains w = Some l → read_registry l w !! d = None →
  let e := fresh (dom (entries w)) in
  getDomainSettings d w =
    (Ret e,
     set_registries
       (<[l := object_put d e (read_registry l w)]> (registries w))
       (set_entries (<[e := empty_entry]> (entries w)) w)).
Proof.
  intros Hl Hd. unfold getDomainSettings, getDomains, bind, gets.
  rewrite Hl. simpl. rewrite Hd. reflexivity.
Qed.

Lemma getDomainSettings_unset d w :
  state_domains w = None →
  let l := fresh (dom (registries w)) in
  let e := fresh (dom (entries w)) in
  getDomainSettings d w =
    (Ret e,
     set_registries (<[l := object_put d e ∅]> (<[l := ∅]> (registries w)))
       (set_entries (<[e := empty_entry]> (entries w)) w)).
Proof.
  intros Hl. unfold getDomainSettings, getDomains, bind, gets.
  rewrite Hl. simpl. unfold read_registry at 1. simpl. rewrite lookup_insert_eq.
  simpl. rewrite lookup_empty. unfold registry_put, modify, bind, new_entry. simpl.
  unfold read_registry. simpl. rewrite lookup_insert_eq. simpl.
  reflexivity.
Qed.

(** *** The two cases of [setDomain] *)

Lemma setDomain_set d e w l :
  state_domains w = Some l →
  setDomain d e w =
    (Ret tt,
     set_state_domains (Some l)
       (set_registries
          (<[l := object_put d e (read_registry l w)]> (registries w)) w)).
Proof.
  intros Hl. unfold setDomain, getDomains, bind, gets. rewrite Hl. reflexivity.
Qed.

Lemma setDomain_unset d e w :
  state_domains w = None →
  let l := fresh (dom (registries w)) in
  setDomain d e w =
    (Ret tt,
     set_state_domains (Some l)
       (set_registries (<[l := object_put d e ∅]> (<[l := ∅]> (registries w))) w)).
Proof.
  intros Hl. unfold setDomain, getDomains, bind, gets. rewrite Hl. simpl.
  unfold registry_put, modify, bind. simpl.
  unfold read_registry. simpl. rewrite lookup_insert_eq. simpl.
  reflexivity.
Qed.



(** ** Adding and removing permissions *)

Lemma same_key_natural_key a b : same_key a b ↔ natural_key a = natural_key b.
Proof.
  unfold same_key, natural_key. split.
  - intros [-> ->]. reflexivity.
  - intros H. injection H as -> ->. done.
Qed.

Lemma stamp1_key n now p : natural_key (stamp1 n now p).1 = natural_key p.
Proof. unfold stamp1. destruct (truthy (perm_id p)); reflexivity. Qed.

Lemma stamp_keys n now ps :
  natural_key <$> (stamp n now ps).1 = natural_key <$> ps.
Proof.
  revert n. induction ps as [|p ps IH]; intros n; [reflexivity|].
  simpl. pose proof (stamp1_key n now p) as Hk.
  destruct (stamp1 n now p) as [p' n1]. specialize (IH n1).
  destruct (stamp n1 now ps) as [ps'' n2].
  change (natural_key p' :: (natural_key <$> ps'') = natural_key p :: (natural_key <$> ps)).
  f_equal; assumption.
Qed.

Lemma stamp_with_ids n now ps :
  Forall (fun p => truthy (perm_id p) = true) ps → stamp n now ps = (ps, n).
Proof.
  induction 1 as [|p ps Hp _ IH]; [reflexivity|].
  simpl. unfold stamp1. rewrite Hp, IH. reflexivity.
Qed.

(** *** The entry object of a domain *)

Lemma getDomainSettings_view d w :
  ∃ e w0, getDomainSettings d w = (Ret e, w0) ∧
          permissions (read_entry e w0) = permissionsForDomain w d ∧
          uuid_count w0 = uuid_count w ∧ clock w0 = clock w.
Proof.
  unfold permissionsForDomain.
  destruct (state_domains w) as [l|] eqn:Hl.
  - destruct (read_registry l w !! d) as [e|] eqn:Hd.
    + exists e, w. rewrite (getDomainSettings_present d w l e Hl Hd). done.
    + eexists _, _. rewrite (getDomainSettings_absent_set d w l Hl Hd).
      split; [reflexivity|]. split; [|done].
      erewrite read_entry_at by reflexivity. reflexivity.
  - eexists _, _. rewrite (getDomainSettings_unset d w Hl).
    split; [reflexivity|]. split; [|done].
    erewrite read_entry_at by reflexivity. reflexivity.
Qed.

(** [getDomainSettings] does not change whether the name is assignable. *)
Lemma getDomainSettings_assignable d w :
  assignable (getDomainSettings d w).2 d ↔ assignable w d.
Proof.
  unfold assignable.
  destruct (state_domains w) as [l|] eqn:Hl.
  - destruct (read_registry l w !! d) as [e|] eqn:Hd.
    + rewrite (getDomainSettings_present d w l e Hl Hd). reflexivity.
    + rewrite (getDomainSettings_absent_set d w l Hl Hd). cbn [snd].
      rewrite !registered_domains_lookup.
      split; (intros [H|(l' & E & H)]; [by left|]).
      * cbn in E. rewrite Hl in E. injection E as <-.
        rewrite read_registry_set in H.
        destruct (decide (d = "__proto__")) as [Hp|Hp]; [|by left].
        rewrite (object_put_prototype d _ _ Hp Hd), Hd in H.
        destruct H; discriminate.
      * rewrite Hl in E. injection E as <-.
        rewrite Hd in H. destruct H; discriminate.
  - rewrite (getDomainSettings_unset d w Hl). cbn [snd].
    rewrite !registered_domains_lookup.
    split; (intros [H|(l' & E & H)]; [by left|]).
    + cbn in E. rewrite Hl in E. discriminate.
    + rewrite Hl in E. discriminate.
Qed.

Lemma setDomain_view d e w :
  (setDomain d e w).1 = Ret tt ∧
  permissionsForDomain (setDomain d e w).2 d
  = if decide (assignable w d) then permissions (read_entry e w) else Some [].
Proof.
  unfold permissionsForDomain.
  destruct (state_domains w) as [l|] eqn:Hl.
  - rewrite (setDomain_set d e w l Hl). simpl. split; [reflexivity|].
    rewrite read_registry_set_state_domains, read_registry_set.
    destruct (decide (assignable w d)) as [Ha|Ha].
    + rewrite object_put_insert, lookup_insert_eq; [reflexivity|].
      destruct Ha as [Ha|Ha]; [by left|right].
      apply registered_domains_lookup in Ha as (l' & E & H). congruence.
    + destruct (not_assignable w d Ha) as [Hp Hn].
      rewrite (object_put_prototype d _ _ Hp (Hn l Hl)), (Hn l Hl). reflexivity.
  - rewrite (setDomain_unset d e w Hl). simpl. split; [reflexivity|].
    rewrite read_registry_set_state_domains, read_registry_set.
    rewrite object_put_empty.
    destruct (decide (assignable w d)) as [Ha|Ha].
    + destruct Ha as [Ha|Ha].
      * rewrite decide_False by done. rewrite lookup_singleton_eq. reflexivity.
      * apply registered_domains_lookup in Ha as (l' & E & _). congruence.
    + destruct (not_assignable w d Ha) as [Hp _].
      rewrite decide_True by done. rewrite lookup_empty. reflexivity.
Qed.

Lemma entry_set_permissions_view l ps w :
  let r := entry_set_permissions l ps w in
  r.1 = Ret tt ∧ permissions (read_entry l r.2) = Some ps ∧
  uuid_count r.2 = uuid_count w ∧ clock r.2 = clock w.
Proof.
  unfold entry_set_permissions, modify. simpl. split; [reflexivity|].
  split; [|done]. erewrite read_entry_at by reflexivity. reflexivity.
Qed.

Lemma bind_ret_eq {A B} (m : M A) (k : A → M B) w a w1 :
  m w = (Ret a, w1) → bind m k w = k a w1.
Proof. unfold bind. intros ->. reflexivity. Qed.

Lemma outcome_eq {A} (r : outcome A * World) a :
  r.1 = Ret a → r = (Ret a, r.2).
Proof. destruct r. simpl. intros ->. reflexivity. Qed.

(** One turn of the [for (let perm of newPermissions)] loop of
    [addPermissionsFor]. *)
Lemma push_step_view l p w cur :
  permissions (read_entry l w) = Some cur →
  let r := (let* perm' := ensure_id p in entry_push l perm') w in
  r.1 = Ret tt ∧
  permissions (read_entry l r.2)
    = Some (cur ++ [(stamp1 (uuid_count w) (clock w) p).1]) ∧
  uuid_count r.2 = (stamp1 (uuid_count w) (clock w) p).2 ∧
  clock r.2 = clock w.
Proof.
  intros Hcur. unfold ensure_id, stamp1, entry_push, bind, gets, uuid, Date_now.
  destruct (truthy (perm_id p)); simpl.
  - rewrite Hcur. simpl. split; [reflexivity|]. split; [|done].
    erewrite read_entry_at by reflexivity. reflexivity.
  - change (read_entry l (set_uuid_count (S (uuid_count w)) w))
      with (read_entry l w).
    rewrite Hcur. simpl.
    split; [reflexivity|]. split; [|done].
    erewrite read_entry_at by reflexivity. reflexivity.
Qed.

Lemma push_loop_view l news : ∀ w cur,
  permissions (read_entry l w) = Some cur →
  let r := for_each (fun perm => let* perm' := ensure_id perm in
                                 entry_push l perm') news w in
  r.1 = Ret tt ∧
  permissions (read_entry l r.2)
    = Some (cur ++ (stamp (uuid_count w) (clock w) news).1) ∧
  uuid_count r.2 = (stamp (uuid_count w) (clock w) news).2 ∧
  clock r.2 = clock w.
Proof.
  induction news as [|p news IH]; intros w cur Hcur.
  - simpl. rewrite app_nil_r. done.
  - destruct (push_step_view l p w cur Hcur) as (S1 & S2 & S3 & S4).
    cbn [for_each]. cbv zeta.
    rewrite (bind_ret_eq _ _ _ _ _ (outcome_eq _ _ S1)).
    destruct (IH _ _ S2) as (H1 & H2 & H3 & H4).
    rewrite S3, S4 in H2, H3. rewrite S4 in H4.
    cbn [stamp].
    destruct (stamp1 (uuid_count w) (clock w) p) as [p' n1].
    simpl in H2, H3.
    destruct (stamp n1 (clock w) news) as [ps'' n2] eqn:Hst.
    simpl in *. rewrite <- app_assoc in H2. done.
Qed.

(** *** What the steps on an entry object leave alone *)

Lemma touches_only_refl e w : touches_only e w w.
Proof. unfold touches_only. done. Qed.

Lemma touches_only_trans e w1 w2 w3 :
  touches_only e w1 w2 → touches_only e w2 w3 → touches_only e w1 w3.
Proof.
  unfold touches_only. intros (A1&A2&A3&A4&A5&A6&A7&A8) (B1&B2&B3&B4&B5&B6&B7&B8).
  repeat split; try congruence.
  - intros e' He. rewrite B3, A3; done.
  - auto.
Qed.

Lemma touches_only_bind {A B} e (m : M A) (k : A → M B) w :
  touches_only e w (m w).2 →
  (∀ a w', touches_only e w' (k a w').2) →
  touches_only e w (bind m k w).2.
Proof.
  intros Hm Hk. unfold bind. destruct (m w) as [[a|err|] w1]; cbn in *; auto.
  eapply touches_only_trans; eauto.
Qed.

Lemma entry_set_permissions_touches e ps w :
  touches_only e w (entry_set_permissions e ps w).2.
Proof.
  unfold touches_only, entry_set_permissions, modify. cbn.
  repeat split; try done.
  - intros e' He. rewrite lookup_insert_ne; done.
  - intros _. rewrite lookup_insert_eq. eauto.
Qed.

Lemma push_step_touches e p w :
  touches_only e w ((let* perm' := ensure_id p in entry_push e perm') w).2.
Proof.
  apply touches_only_bind.
  - unfold ensure_id. destruct (truthy (perm_id p)); [apply touches_only_refl|].
    unfold touches_only, bind, uuid, Date_now, gets. cbn. done.
  - intros perm' w'. unfold entry_push. apply touches_only_bind.
    + apply touches_only_refl.
    + intros o w''. apply touches_only_bind.
      * destruct o; apply touches_only_refl.
      * intros ps w3. apply entry_set_permissions_touches.
Qed.

Lemma push_loop_touches e news : ∀ w,
  touches_only e w
    (for_each (fun perm => let* perm' := ensure_id perm in entry_push e perm')
       news w).2.
Proof.
  induction news as [|p news IH]; intros w; [apply touches_only_refl|].
  cbn [for_each]. apply touches_only_bind; [apply push_step_touches|].
  intros _ w'. apply IH.
Qed.

Lemma touches_only_assignable e w w' d :
  touches_only e w w' → assignable w' d ↔ assignable w d.
Proof. intros (H1 & H2 & _). apply assignable_ext; assumption. Qed.

(** What [addPermissionsFor] leaves in the list of the domain. *)
Lemma addPermissionsFor_view d news w old :
  permissionsForDomain w d = Some old →
  let r := addPermissionsFor d news w in
  r.1 = Ret tt ∧
  permissionsForDomain r.2 d
    = Some (if decide (assignable w d)
            then filter (fun oldPerm => ¬ Exists (same_key oldPerm) news) old
                 ++ (stamp (uuid_count w) (clock w) news).1
            else []).
Proof.
  intros Hold. unfold addPermissionsFor.
  destruct (getDomainSettings_view d w) as (e & w0 & E & Hperm & Hu & Hc).
  pose proof (getDomainSettings_assignable d w) as Has. rewrite E in Has.
  cbn [snd] in Has.
  rewrite (bind_ret_eq _ _ _ _ _ E).
  erewrite (bind_ret_eq (gets _)) by reflexivity.
  rewrite Hperm, Hold.
  erewrite (bind_ret_eq (array_of _ _)) by reflexivity.
  set (kept := filter (fun oldPerm => ¬ Exists (same_key oldPerm) news) old).
  destruct (entry_set_permissions_view e kept w0) as (A1 & A2 & A3 & A4).
  rewrite (bind_ret_eq _ _ _ _ _ (outcome_eq _ _ A1)).
  destruct (push_loop_view e news _ _ A2) as (B1 & B2 & B3 & B4).
  rewrite (bind_ret_eq _ _ _ _ _ (outcome_eq _ _ B1)).
  set (w1 := (for_each _ news (entry_set_permissions e kept w0).2).2) in *.
  assert (touches_only e w0 w1) as Htouch.
  { eapply touches_only_trans;
      [apply entry_set_permissions_touches|apply push_loop_touches]. }
  destruct (setDomain_view d e w1) as (C1 & C2).
  split; [exact C1|].
  rewrite C2, B2, A3, A4, Hu, Hc.
  rewrite (decide_ext _ (assignable w d)).
  - destruct (decide (assignable w d)); reflexivity.
  - rewrite (touches_only_assignable e w0 w1 d Htouch). exact Has.
Qed.

(** What [removePermissionsFor] leaves in the list of the domain. *)
Lemma removePermissionsFor_view d rem w old :
  permissionsForDomain w d = Some old →
  let r := removePermissionsFor d rem w in
  r.1 = Ret tt ∧
  permissionsForDomain r.2 d
    = Some (filter (fun perm => ¬ Exists (fun r => same_key r perm) rem) old).
Proof.
  intros Hold. unfold removePermissionsFor.
  destruct (getDomainSettings_view d w) as (e & w0 & E & Hperm & Hu & Hc).
  pose proof (getDomainSettings_assignable d w) as Has. rewrite E in Has.
  cbn [snd] in Has.
  rewrite (bind_ret_eq _ _ _ _ _ E).
  erewrite (bind_ret_eq (gets _)) by reflexivity.
  rewrite Hperm, Hold.
  erewrite (bind_ret_eq (array_of _ _)) by reflexivity.
  set (kept := filter (fun perm => ¬ Exists (fun r => same_key r perm) rem) old).
  destruct (entry_set_permissions_view e kept w0) as (A1 & A2 & A3 & A4).
  rewrite (bind_ret_eq _ _ _ _ _ (outcome_eq _ _ A1)).
  destruct (setDomain_view d e (entry_set_permissions e kept w0).2) as (C1 & C2).
  split; [exact C1|]. rewrite C2, A2.
  destruct (decide _) as [Ha|Ha]; [reflexivity|].
  rewrite (touches_only_assignable e w0 _ d
             (entry_set_permissions_touches e kept w0)), Has in Ha.
  pose proof (not_assignable_empty w d Ha) as Hempty.
  rewrite Hold in Hempty. injection Hempty as ->. reflexivity.
Qed.

(** C3 (as stated, refuted).  Given two records with the same natural key,
    [addPermissionsFor] appends both: the list of the domain then holds two
    records for that key, not only the latter. *)
Lemma addPermissionsFor_keeps_duplicates :
  let same := (addPermissionsFor "siteA" [user_write_1; user_write_1]
                 initial_world).2 in
  let twins := (addPermissionsFor "siteA" [user_write_1; user_write_2]
                  initial_world).2 in
  natural_key user_write_1 = natural_key user_write_2 ∧
  permissionsForDomain same "siteA" = Some [user_write_1; user_write_1] ∧
  permissionsForDomain twins "siteA" = Some [user_write_1; user_write_2] ∧
  length (records_with_key (natural_key user_write_2)
            (default [] (permissionsForDomain twins "siteA"))) = 2%nat ∧
  ¬ NoDup (natural_key <$> default [] (permissionsForDomain twins "siteA")).
Proof.
  repeat split; try (vm_compute; reflexivity).
  intros H. apply (bool_decide_pack _) in H. vm_compute in H. exact H.
Qed.

Lemma filter_keeps_unique_keys (P : RpcCapPermission → Prop)
    `{!∀ p, Decision (P p)} (ps : list RpcCapPermission) :
  NoDup (natural_key <$> ps) → NoDup (natural_key <$> filter P ps).
Proof.
  intros Hnd. apply (sublist_NoDup _ _ Hnd).
  apply fmap_sublist, sublist_filter.
Qed.

(** C3 (amended).  When the list of the domain holds at most one record per
    natural key and the new permissions have pairwise distinct natural keys,
    [addPermissionsFor] leaves a list with at most one record per natural
    key.  For every domain name the registry can store (every name but
    ["__proto__"], and that one too when it already is a key of the
    registry) the list is: the old records whose key no new permission
    carries, followed by the new permissions in order, each with its own
    natural key.  Under the name ["__proto__"] otherwise nothing is stored
    and the list stays empty. *)
Theorem addPermissionsFor_unique_keys
    (d : string) (news : list RpcCapPermission) (w : World)
    (old : list RpcCapPermission) :
  permissionsForDomain w d = Some old →
  NoDup (natural_key <$> old) →
  NoDup (natural_key <$> news) →
  let r := addPermissionsFor d news w in
  let kept := filter (fun oldPerm => ¬ Exists (same_key oldPerm) news) old in
  let added := (stamp (uuid_count w) (clock w) news).1 in
  r.1 = Ret tt ∧
  permissionsForDomain r.2 d
    = Some (if decide (assignable w d) then kept ++ added else []) ∧
  (d ≠ "__proto__" → permissionsForDomain r.2 d = Some (kept ++ added)) ∧
  natural_key <$> added = natural_key <$> news ∧
  NoDup (natural_key <$> (kept ++ added)) ∧
  NoDup (natural_key <$> default [] (permissionsForDomain r.2 d)).
Proof.
  intros Hold Huold Hunew r kept added.
  destruct (addPermissionsFor_view d news w old Hold) as [H1 H2].
  fold r kept added in H1, H2.
  assert (natural_key <$> added = natural_key <$> news) as Hkeys
    by apply stamp_keys.
  assert (NoDup (natural_key <$> (kept ++ added))) as Hnd.
  { rewrite fmap_app. apply NoDup_app. split; [|split].
    - apply filter_keeps_unique_keys. exact Huold.
    - intros k Hk. rewrite Hkeys. intros Hk'.
      apply list_elem_of_fmap in Hk as (o & -> & Ho).
      apply list_elem_of_fmap in Hk' as (n & Hn & Hnin).
      apply list_elem_of_filter in Ho as [Hnot _]. apply Hnot.
      apply Exists_exists. exists n. split; [exact Hnin|].
      apply same_key_natural_key. exact Hn.
    - rewrite Hkeys. exact Hunew. }
  split; [exact H1|]. split; [exact H2|]. split.
  { intros Hne. rewrite H2. rewrite decide_True; [reflexivity|by left]. }
  split; [exact Hkeys|]. split; [exact Hnd|].
  rewrite H2. cbn. destruct (decide _); [exact Hnd|constructor].
Qed.

Lemma addPermissionsFor_unique_keys_witness :
  let news := [user_write_2; method_only "read"] in
  let r := addPermissionsFor "siteA" news siteA_world in
  let kept := filter (fun oldPerm => ¬ Exists (same_key oldPerm) news)
                [user_write_1; other_write] in
  let added := (stamp (uuid_count siteA_world) (clock siteA_world) news).1 in
  r.1 = Ret tt ∧
  permissionsForDomain r.2 "siteA"
    = Some (if decide (assignable siteA_world "siteA") then kept ++ added
            else []) ∧
  ("siteA" ≠ "__proto__" →
   permissionsForDomain r.2 "siteA" = Some (kept ++ added)) ∧
  natural_key <$> added = natural_key <$> news ∧
  NoDup (natural_key <$> (kept ++ added)) ∧
  NoDup (natural_key <$> default [] (permissionsForDomain r.2 "siteA")).
Proof.
  apply (addPermissionsFor_unique_keys "siteA"
           [user_write_2; method_only "read"] siteA_world
           [user_write_1; other_write]).
  - vm_compute. reflexivity.
  - apply (bool_decide_unpack _). vm_compute. exact I.
  - apply (bool_decide_unpack _). vm_compute. exact I.
Defined.

(** ** Adding a permission and removing it again *)

(** C6 (as stated, refuted).  When the list already holds a record with the
    natural key of [P], adding [P] and removing it again does not restore
    the list: the earlier record is gone. *)
Lemma add_then_remove_loses_prior_record :
  let w := world_of [("siteA", [user_write_1])] in
  let w1 := (addPermissionsFor "siteA" [user_write_2] w).2 in
  let w2 := (removePermissionsFor "siteA" [user_write_2] w1).2 in
  permissionsForDomain w "siteA" = Some [user_write_1] ∧
  permissionsForDomain w1 "siteA" = Some [user_write_2] ∧
  permissionsForDomain w2 "siteA" = Some [] ∧
  permissionsForDomain w2 "siteA" ≠ permissionsForDomain w "siteA".
Proof. repeat split; try (vm_compute; reflexivity). vm_compute. discriminate. Qed.

Lemma filter_all {A} (P : A → Prop) `{!∀ x, Decision (P x)} (l : list A) :
  Forall P l → filter P l = l.
Proof.
  induction 1 as [|x xs Hx _ IH]; [reflexivity|].
  rewrite filter_cons_True by exact Hx. f_equal. exact IH.
Qed.

(** C6 (amended).  [addPermissionsFor d [P]] followed by
    [removePermissionsFor d [P]] leaves in the list of [d] the earlier
    records whose natural key differs from the key of [P], in order; when no
    earlier record carries that key, the list is the one before the two
    calls. *)
Theorem add_then_remove_restores
    (d : string) (P : RpcCapPermission) (w : World)
    (old : list RpcCapPermission) :
  permissionsForDomain w d = Some old →
  let a := addPermissionsFor d [P] w in
  let r := removePermissionsFor d [P] a.2 in
  a.1 = Ret tt ∧ r.1 = Ret tt ∧
  permissionsForDomain r.2 d
    = Some (filter (fun q => natural_key q ≠ natural_key P) old) ∧
  (Forall (fun q => natural_key q ≠ natural_key P) old →
   permissionsForDomain r.2 d = Some old).
Proof.
  intros Hold a r.
  destruct (addPermissionsFor_view d [P] w old Hold) as [A1 A2].
  destruct (removePermissionsFor_view d [P] a.2 _ A2) as [R1 R2].
  assert (permissionsForDomain r.2 d
          = Some (filter (fun q => natural_key q ≠ natural_key P) old)) as Hres.
  { unfold r. rewrite R2. f_equal.
    destruct (decide (assignable w d)) as [Ha|Ha].
    - rewrite filter_app.
      cbn [stamp]. pose proof (stamp1_key (uuid_count w) (clock w) P) as Hk.
      destruct (stamp1 (uuid_count w) (clock w) P) as [P' n1]. simpl in Hk. simpl.
      rewrite (filter_cons_False _ P'), filter_nil, app_nil_r.
      + rewrite list_filter_filter. apply list_filter_iff. intros q.
        rewrite !Exists_cons, !Exists_nil, !same_key_natural_key.
        split.
        * intros [_ Hq] Heq. apply Hq. left. exact Heq.
        * intros Hne. split; intros [Heq|[]]; apply Hne; congruence.
      + intros Hno. apply Hno. apply Exists_cons_hd.
        apply same_key_natural_key. symmetry. exact Hk.
    - pose proof (not_assignable_empty w d Ha) as Hempty.
      rewrite Hold in Hempty. injection Hempty as ->. reflexivity. }
  split; [exact A1|]. split; [exact R1|]. split; [exact Hres|].
  intros Hall. rewrite Hres. f_equal. apply filter_all. exact Hall.
Qed.

Lemma add_then_remove_restores_witness :
  let a := addPermissionsFor "siteA" [method_only "read"] siteA_world in
  let r := removePermissionsFor "siteA" [method_only "read"] a.2 in
  a.1 = Ret tt ∧ r.1 = Ret tt ∧
  permissionsForDomain r.2 "siteA"
    = Some (filter (fun q => natural_key q ≠ natural_key (method_only "read"))
              [user_write_1; other_write]) ∧
  (Forall (fun q => natural_key q ≠ natural_key (method_only "read"))
     [user_write_1; other_write] →
   permissionsForDomain r.2 "siteA" = Some [user_write_1; other_write]).
Proof.
  apply (add_then_remove_restores "siteA" (method_only "read") siteA_world
           [user_write_1; other_write]).
  vm_compute. reflexivity.
Defined.

(** ** Termination of the resolver *)

Lemma getPermission_loop_nil n m w : getPermission_loop n m [] w = (Ret None, w).
Proof. destruct n; reflexivity. Qed.

Lemma methodPermissions_cases m d w :
  (∃ ps, permissionsForDomain w d = Some ps ∧
         methodPermissions m d w = (Ret (filter (methodFilter m) ps), w)) ∨
  (∃ e, methodPermissions m d w = (Throw e, w)).
Proof.
  unfold methodPermissions, getPermissionsForDomain, gets, bind.
  destruct (permissionsForDomain w d) as [ps|]; simpl; eauto.
Qed.


Lemma methodPermissions_followed m d w p ps g :
  methodPermissions m d w = (Ret (p :: ps), w) →
  granter p = Some g → g ≠ "" → followed_edge w m d g.
Proof.
  intros Hperms Hg Hne.
  destruct (methodPermissions_cases m d w) as [(all & Hall & E)|[e E]];
    rewrite E in Hperms; [|discriminate].
  injection Hperms as Hfilter.
  exists all, p, ps. done.
Qed.

Lemma followed_edge_granter_edge w m d g :
  followed_edge w m d g → granter_edge w m d g.
Proof.
  intros (ps & p & rest & Hps & Hfilter & Hg & Hne).
  assert (p ∈ filter (methodFilter m) ps) as Hp
    by (rewrite Hfilter; apply list_elem_of_here).
  apply list_elem_of_filter in Hp as [Hm Hin].
  exists ps, p. done.
Qed.

Lemma methodPermissions_edge m d w p ps g :
  methodPermissions m d w = (Ret (p :: ps), w) →
  granter p = Some g → g ≠ "" → granter_edge w m d g.
Proof.
  intros Hperms Hg Hne. apply followed_edge_granter_edge.
  exact (methodPermissions_followed m d w p ps g Hperms Hg Hne).
Qed.

(** A state without cycles among all granter links has none among the links
    the resolver follows. *)
Lemma acyclic_walk_acyclic w m : acyclic w m → walk_acyclic w m.
Proof.
  intros Hacyclic d Hd. apply (Hacyclic d).
  assert (∀ x y, tc (followed_edge w m) x y → tc (granter_edge w m) x y) as Hsub.
  { intros x y Hxy. induction Hxy as [x y H|x y z H _ IH].
    - apply tc_once, followed_edge_granter_edge, H.
    - eapply tc_l; [apply followed_edge_granter_edge, H|exact IH]. }
  apply Hsub, Hd.
Qed.

Lemma truthy_Some o : truthy o = true → ∃ g, o = Some g ∧ g ≠ "".
Proof.
  destruct o as [g|]; [|discriminate]. simpl. intros H. exists g. split; [done|].
  intros ->. discriminate.
Qed.


(** Two domains whose first permissions for the method name each other as
    granter: every budget of the loop is used up. *)
Lemma getPermission_two_cycle w m a b psa pa ra psb pb rb :
  permissionsForDomain w a = Some psa →
  filter (methodFilter m) psa = pa :: ra → granter pa = Some b → b ≠ "" →
  permissionsForDomain w b = Some psb →
  filter (methodFilter m) psb = pb :: rb → granter pb = Some a → a ≠ "" →
  ∀ fuel, (getPermission fuel a m w).1 = Diverge.
Proof.
  intros Ha Hfa Hga Hb0 Hb Hfb Hgb Ha0 fuel.
  assert (methodPermissions m a w = (Ret (pa :: ra), w)) as Ea.
  { unfold methodPermissions, getPermissionsForDomain, gets, bind.
    rewrite Ha. cbn. rewrite Hfa. reflexivity. }
  assert (methodPermissions m b w = (Ret (pb :: rb), w)) as Eb.
  { unfold methodPermissions, getPermissionsForDomain, gets, bind.
    rewrite Hb. cbn. rewrite Hfb. reflexivity. }
  assert (truthy (Some a) = true ∧ truthy (Some b) = true) as [Hta Htb].
  { split; cbn; apply negb_true_iff, String.eqb_neq; assumption. }
  unfold getPermission, bind. rewrite Ea.
  assert (∀ n, (getPermission_loop n m (pa :: ra) w).1 = Diverge ∧
               (getPermission_loop n m (pb :: rb) w).1 = Diverge) as H;
    [|apply H].
  induction n as [|n [IHa IHb]]; [split; reflexivity|].
  split; cbn [getPermission_loop].
  - rewrite Hga, Htb. change (default "" (Some b)) with b.
    unfold bind. rewrite Eb. exact IHb.
  - rewrite Hgb, Hta. change (default "" (Some a)) with a.
    unfold bind. rewrite Ea. exact IHa.
Qed.




(** In [grant_back_world] the two domains name each other as granter, yet
    the resolver never follows the link from ["siteA"]. *)
Lemma grant_back_world_not_acyclic : ¬ acyclic grant_back_world (Some "write").
Proof.
  intros Hacyclic. apply (Hacyclic "siteA").
  eapply tc_l; [|apply tc_once].
  - exists [permission_of "write" None "id-1";
            permission_of "write" (Some "siteB") "id-3"],
           (permission_of "write" (Some "siteB") "id-3").
    split; [vm_compute; reflexivity|].
    split; [apply list_elem_of_further, list_elem_of_here|done].
  - exists [permission_of "write" (Some "siteA") "id-2"],
           (permission_of "write" (Some "siteA") "id-2").
    split; [vm_compute; reflexivity|].
    split; [apply list_elem_of_here|done].
Qed.


(** Without the hypothesis the loop does not end: on a two-domain cycle every
    budget is used up. *)
Lemma getPermission_cycle_diverges (fuel : nat) :
  (getPermission fuel "siteA" (Some "write") cyclic_world).1 = Diverge.
Proof.
  eapply (getPermission_two_cycle cyclic_world (Some "write") "siteA" "siteB");
    [vm_compute; reflexivity|reflexivity|reflexivity|discriminate
    |vm_compute; reflexivity|reflexivity|reflexivity|discriminate].
Qed.

(** ** What the resolver can return *)

(** Whatever record the loop returns has a falsy granter: a record whose
    granter is ["user"] is never the answer. *)
Lemma getPermission_loop_returns_root n m : ∀ perms w P,
  (getPermission_loop n m perms w).1 = Ret (Some P) → truthy (granter P) = false.
Proof.
  induction n as [|n IH]; intros [|perm perms] w P; try discriminate.
  simpl. destruct (truthy (granter perm)) eqn:Ht.
  - unfold bind.
    destruct (methodPermissions_cases m (default "" (granter perm)) w)
      as [(all & _ & E)|[e E]]; rewrite E; [apply IH | discriminate].
  - simpl. intros [= <-]. exact Ht.
Qed.

Lemma getPermission_returns_root fuel d m w P :
  (getPermission fuel d m w).1 = Ret (Some P) → truthy (granter P) = false.
Proof.
  unfold getPermission, bind.
  destruct (methodPermissions_cases m d w) as [(all & _ & E)|[e E]]; rewrite E;
    [apply getPermission_loop_returns_root | discriminate].
Qed.

(** ** Rejections leave the list of pending requests alone *)

Lemma requestPermissions_begin_registers domain req w :
  let r := requestPermissions_begin domain req w in
  ∃ pr, r.1 = Ret pr ∧
        state_permissionsRequests r.2
          = Some (default [] (state_permissionsRequests w) ++ [pr]) ∧
        request_origin pr = domain.
Proof.
  unfold requestPermissions_begin, bind, getPermissionsRequests,
    setPermissionsRequests, gets, modify, uuid.
  destruct (truthy (metadata_id _)); simpl; eexists; done.
Qed.

Lemma requestPermissions_settle_rejected domain pr o w :
  o = Resolved ∅ ∨ (∃ reason, o = Rejected reason) →
  let r := requestPermissions_settle domain pr o w in
  r.1 = Ret tt ∧
  state_permissionsRequests r.2 = state_permissionsRequests w ∧
  end_calls (log r.2) = S (end_calls (log w)).
Proof.
  intros [->|[reason ->]]; unfold requestPermissions_settle, try_catch;
    rewrite ?map_to_list_empty; simpl;
    (split; [reflexivity|]); (split; [reflexivity|]);
    rewrite <- app_assoc, end_calls_app; cbn; lia.
Qed.

(** ** One [end] per failing entry *)

Lemma response_writes_app l1 l2 :
  response_writes (l1 ++ l2) = (response_writes l1 + response_writes l2)%nat.
Proof. unfold response_writes. rewrite List.filter_app, length_app. reflexivity. Qed.

(** The failing branch of both [forEach] callbacks. *)
Lemma unauthorized_branch req (vars : list RpcCapPermission * bool) w :
  let r := (set_error (unauthorized (Some req)) ;;;
            let* e := gets (fun w => error (res w)) in
            end_ e ;;;
            ret (vars.1, true)) w in
  r.1 = Ret (vars.1, true) ∧
  log r.2 = log w ++ [EvSetError (unauthorized (Some req));
                      EvEnd (Some (unauthorized (Some req)))] ∧
  (∀ d, permissionsForDomain r.2 d = permissionsForDomain w d).
Proof.
  simpl. split; [reflexivity|]. split; [|reflexivity].
  rewrite <- app_assoc. reflexivity.
Qed.

Lemma getPermission_without_permissions fuel d m w :
  permissionsForDomain w d = Some [] →
  getPermission fuel d m w = (Ret None, w).
Proof.
  intros H. unfold getPermission, methodPermissions, getPermissionsForDomain,
    gets, bind. rewrite H. simpl. apply getPermission_loop_nil.
Qed.

Lemma getPermissionUnTraversed_without_permissions d m g w :
  permissionsForDomain w d = Some [] →
  getPermissionUnTraversed d m g w = (Ret None, w).
Proof.
  intros H. unfold getPermissionUnTraversed, getPermissionsForDomain, gets, bind.
  rewrite H. reflexivity.
Qed.

Lemma grant_step_fails fuel g req vars reqPerm w :
  permissionsForDomain w g = Some [] →
  let r := grant_step fuel g req vars reqPerm w in
  r.1 = Ret (vars.1, true) ∧
  log r.2 = log w ++ [EvSetError (unauthorized (Some req));
                      EvEnd (Some (unauthorized (Some req)))] ∧
  permissionsForDomain r.2 g = Some [].
Proof.
  intros H. unfold grant_step.
  rewrite (bind_ret_eq _ _ _ _ _ (getPermission_without_permissions fuel g _ w H)).
  destruct (unauthorized_branch req vars w) as (H1 & H2 & H3).
  split; [exact H1|]. split; [exact H2|]. rewrite H3. exact H.
Qed.

Lemma revoke_step_fails domain a req vars reqPerm w :
  permissionsForDomain w a = Some [] →
  let r := revoke_step domain a req vars reqPerm w in
  r.1 = Ret (vars.1, true) ∧
  log r.2 = log w ++ [EvSetError (unauthorized (Some req));
                      EvEnd (Some (unauthorized (Some req)))] ∧
  permissionsForDomain r.2 a = Some [].
Proof.
  intros H. unfold revoke_step.
  rewrite (bind_ret_eq _ _ _ _ _
             (getPermissionUnTraversed_without_permissions a _ (Some domain) w H)).
  destruct (unauthorized_branch req vars w) as (H1 & H2 & H3).
  split; [exact H1|]. split; [exact H2|]. rewrite H3. exact H.
Qed.

(** A [forEach] whose callback fails on every element calls [end] and
    assigns [res.error] once per element. *)
Lemma fold_failing_steps {A}
    (step : list RpcCapPermission * bool → A → M (list RpcCapPermission * bool))
    (req : JsonRpcRequest) (d : string) :
  (∀ vars x w, permissionsForDomain w d = Some [] →
     (step vars x w).1 = Ret (vars.1, true) ∧
     log (step vars x w).2
       = log w ++ [EvSetError (unauthorized (Some req));
                   EvEnd (Some (unauthorized (Some req)))] ∧
     permissionsForDomain (step vars x w).2 d = Some []) →
  ∀ xs vars w, permissionsForDomain w d = Some [] →
    let r := fold_M step vars xs w in
    r.1 = Ret (vars.1, if xs is [] then vars.2 else true) ∧
    end_calls (log r.2) = (end_calls (log w) + length xs)%nat ∧
    response_writes (log r.2) = (response_writes (log w) + length xs)%nat.
Proof.
  intros Hstep. induction xs as [|x xs IH]; intros vars w Hw.
  - simpl. destruct vars. repeat split; lia.
  - destruct (Hstep vars x w Hw) as (S1 & S2 & S3).
    cbn [fold_M]. rewrite (bind_ret_eq _ _ _ _ _ (outcome_eq _ _ S1)).
    destruct (IH (vars.1, true) _ S3) as (H1 & H2 & H3).
    rewrite S2, end_calls_app in H2. rewrite S2, response_writes_app in H3.
    cbn in H2, H3. split; [|split; cbn [length]; lia].
    rewrite H1. simpl. destruct xs; reflexivity.
Qed.

(** When the caller of [grantPermissions] holds no permission at all, [end]
    is called once for every requested method that survives deduplication. *)
Lemma grantPermissionsMiddleware_ends_per_entry fuel g req grantee reqs w :
  params req = ParamsGrant grantee reqs →
  permissionsForDomain w g = Some [] →
  dedupe_by_method Object_prototype_keys reqs ≠ [] →
  let r := grantPermissionsMiddleware fuel g req w in
  r.1 = Ret tt ∧
  end_calls (log r.2)
    = (end_calls (log w) + length (dedupe_by_method Object_prototype_keys reqs))%nat.
Proof.
  intros Hparams Hw Hne. unfold grantPermissionsMiddleware. rewrite Hparams.
  destruct (fold_failing_steps (grant_step fuel g req) req g
              (fun vars x w => grant_step_fails fuel g req vars x w)
              (dedupe_by_method Object_prototype_keys reqs) ([], false) w Hw)
    as (H1 & H2 & _).
  rewrite (bind_ret_eq _ _ _ _ _ (outcome_eq _ _ H1)).
  destruct (dedupe_by_method Object_prototype_keys reqs); [done|].
  simpl. split; [reflexivity|exact H2].
Qed.

(** When the assigned domain holds no permission at all, [end] is called
    once for every entry of the [revokePermissions] request. *)
Lemma revokePermissionsMiddleware_ends_per_entry domain req a reqs w :
  params req = ParamsRevoke a reqs →
  permissionsForDomain w a = Some [] →
  reqs ≠ [] →
  let r := revokePermissionsMiddleware domain req w in
  r.1 = Ret tt ∧
  end_calls (log r.2) = (end_calls (log w) + length reqs)%nat.
Proof.
  intros Hparams Hw Hne. unfold revokePermissionsMiddleware. rewrite Hparams.
  destruct (fold_failing_steps (revoke_step domain a req) req a
              (fun vars x w => revoke_step_fails domain a req vars x w)
              reqs ([], false) w Hw)
    as (H1 & H2 & _).
  rewrite (bind_ret_eq _ _ _ _ _ (outcome_eq _ _ H1)).
  destruct reqs; [done|].
  simpl. split; [reflexivity|exact H2].
Qed.

(** * Further properties of the router and the executor *)

(** X1.  A request whose method is listed in [safeMethods] is handed on with
    [next()] and nothing else happens: [end] is not called, the response
    object and the state stay as they were.  The list is consulted first, so
    this also holds for a name that is a meta method or a restricted
    method. *)
Theorem safe_method_passes_through
    (config : CapabilitiesConfig) (fuel : nat) (domain : string)
    (req : JsonRpcRequest) (w : World) :
  req_method req ∈ safeMethods config →
  providerMiddlewareFunction config fuel domain req w
    = (Ret tt, with_actions [EvNext] w).
Proof.
  intros Hsafe. unfold providerMiddlewareFunction.
  rewrite bool_decide_eq_true_2 by exact Hsafe. reflexivity.
Qed.

Lemma safe_method_passes_through_witness :
  providerMiddlewareFunction sample_config 0 "siteA"
    (make_request "wallet_getPermissions" ParamsOther) initial_world
    = (Ret tt, with_actions [EvNext] initial_world).
Proof.
  apply (safe_method_passes_through sample_config 0 "siteA"
           (make_request "wallet_getPermissions" ParamsOther) initial_world).
  apply (bool_decide_unpack _). vm_compute. exact I.
Defined.

(** X2.  A request for a method that is neither safe nor a meta method, for
    which the resolver returns nothing, is answered with the unauthorized
    error carrying the request: [res.error] is set once, [end] is called
    once with that error, no handler runs and the state is untouched. *)
Theorem unresolved_call_is_unauthorized
    (config : CapabilitiesConfig) (fuel : nat) (domain : string)
    (req : JsonRpcRequest) (w : World) :
  req_method req ∉ safeMethods config →
  internalMethods config fuel (req_method req) = None →
  (getPermission fuel domain (Some (req_method req)) w).1 = Ret None →
  providerMiddlewareFunction config fuel domain req w
    = (Ret tt,
       with_actions [EvSetError (unauthorized (Some req));
                     EvEnd (Some (unauthorized (Some req)))]
         (with_error (unauthorized (Some req)) w)).
Proof.
  intros Hsafe Hmeta Hperm. unfold providerMiddlewareFunction.
  rewrite bool_decide_eq_false_2 by exact Hsafe. rewrite Hmeta.
  unfold bind at 1, try_catch, bind at 1.
  rewrite (getPermission_eq _ _ _ _ _ Hperm). run_M.
  unfold with_actions, with_error. cbn. rewrite <- app_assoc. reflexivity.
Qed.

Lemma unresolved_call_is_unauthorized_witness :
  providerMiddlewareFunction sample_config 3 "siteB"
    (make_request "write" ParamsOther) siteA_world
    = (Ret tt,
       with_actions
         [EvSetError (unauthorized (Some (make_request "write" ParamsOther)));
          EvEnd (Some (unauthorized (Some (make_request "write" ParamsOther))))]
         (with_error (unauthorized (Some (make_request "write" ParamsOther)))
            siteA_world)).
Proof.
  apply (unresolved_call_is_unauthorized sample_config 3 "siteB"
           (make_request "write" ParamsOther) siteA_world).
  - intros H. apply (bool_decide_pack _) in H. vm_compute in H. exact H.
  - vm_compute. reflexivity.
  - vm_compute. reflexivity.
Defined.

(** X3.  When the resolver throws (an entry without [permissions] makes
    [.filter] fail), the router catches the error: [res.error] becomes an
    error with code 1 and the thrown message, [end] is called once with it,
    and nothing is thrown out of the middleware. *)
Theorem resolver_error_is_reported
    (config : CapabilitiesConfig) (fuel : nat) (domain : string)
    (req : JsonRpcRequest) (w : World) (err : JsonRpcError) :
  req_method req ∉ safeMethods config →
  internalMethods config fuel (req_method req) = None →
  (getPermission fuel domain (Some (req_method req)) w).1 = Throw err →
  let e := {| message := message err; code := Some 1; data := None |} in
  providerMiddlewareFunction config fuel domain req w
    = (Ret tt, with_actions [EvSetError e; EvEnd (Some e)] (with_error e w)).
Proof.
  intros Hsafe Hmeta Hperm. unfold providerMiddlewareFunction.
  rewrite bool_decide_eq_false_2 by exact Hsafe. rewrite Hmeta.
  unfold bind at 1, try_catch, bind at 1.
  rewrite (getPermission_eq _ _ _ _ _ Hperm). run_M.
  unfold with_actions, with_error. cbn. rewrite <- app_assoc. reflexivity.
Qed.

Lemma resolver_error_is_reported_witness :
  let e := {| message := message (TypeError "filter"); code := Some 1;
              data := None |} in
  providerMiddlewareFunction sample_config 3 "siteA"
    (make_request "write" ParamsOther) undefined_permissions_world
    = (Ret tt,
       with_actions [EvSetError e; EvEnd (Some e)]
         (with_error e undefined_permissions_world)).
Proof.
  apply (resolver_error_is_reported sample_config 3 "siteA"
           (make_request "write" ParamsOther) undefined_permissions_world
           (TypeError "filter")).
  - intros H. apply (bool_decide_pack _) in H. vm_compute in H. exact H.
  - vm_compute. reflexivity.
  - vm_compute. reflexivity.
Defined.

(** X4.  A request for a restricted method whose permission resolves and
    carries no caveat of type ["static"] reaches the registered handler: the
    router does nothing but invoke it, once, on the response object and the
    state as they were. *)
Theorem resolved_call_reaches_handler
    (config : CapabilitiesConfig) (fuel : nat) (domain : string)
    (req : JsonRpcRequest) (w : World) (P : RpcCapPermission)
    (handler : JsonRpcMiddleware) :
  req_method req ∉ safeMethods config →
  internalMethods config fuel (req_method req) = None →
  (getPermission fuel domain (Some (req_method req)) w).1 = Ret (Some P) →
  callable_handler config (req_method req) = Some handler →
  filter is_static (default [] (caveats P)) = [] →
  providerMiddlewareFunction config fuel domain req w
    = handler req (with_actions [EvHandler (req_method req)] w).
Proof.
  intros Hsafe Hmeta Hperm Hhandler Hstatic. unfold providerMiddlewareFunction.
  rewrite bool_decide_eq_false_2 by exact Hsafe. rewrite Hmeta.
  unfold bind at 1, try_catch, bind at 1.
  rewrite (getPermission_eq _ _ _ _ _ Hperm). cbn.
  unfold executeMethod, bind at 1.
  rewrite (getPermission_eq _ _ _ _ _ Hperm), Hhandler. cbn.
  unfold is_static in Hstatic.
  destruct (caveats P) as [cs|]; cbn in *; [rewrite Hstatic; cbn|]; reflexivity.
Qed.

Lemma resolved_call_reaches_handler_witness :
  providerMiddlewareFunction sample_config 3 "siteB"
    (make_request "write" ParamsOther) S4_world
    = ok_handler (make_request "write" ParamsOther)
        (with_actions [EvHandler "write"] S4_world).
Proof.
  apply (resolved_call_reaches_handler sample_config 3 "siteB"
           (make_request "write" ParamsOther) S4_world
           (permission_of "write" None "id-1") ok_handler).
  - intros H. apply (bool_decide_pack _) in H. vm_compute in H. exact H.
  - vm_compute. reflexivity.
  - vm_compute. reflexivity.
  - vm_compute. reflexivity.
  - reflexivity.
Defined.

(** X5.  When the requested method is not a key of [restrictedMethods], or
    its [method] field is not a function, [executeMethod] answers with
    [METHOD_NOT_FOUND] (code -32601): [res.error] is set, [end] is called
    once with that error and no handler runs.  This holds whether or not a
    permission resolves. *)
Theorem executeMethod_method_not_found
    (config : CapabilitiesConfig) (fuel : nat) (domain : string)
    (req : JsonRpcRequest) (w : World) (o : option RpcCapPermission) :
  (getPermission fuel domain (Some (req_method req)) w).1 = Ret o →
  callable_handler config (req_method req) = None →
  executeMethod config fuel domain req w
    = (Ret tt,
       with_actions [EvSetError METHOD_NOT_FOUND; EvEnd (Some METHOD_NOT_FOUND)]
         (with_error METHOD_NOT_FOUND w)).
Proof.
  intros Hperm Hhandler. unfold executeMethod, bind at 1.
  rewrite (getPermission_eq _ _ _ _ _ Hperm), Hhandler. run_M.
  unfold with_actions, with_error. cbn. rewrite <- app_assoc. reflexivity.
Qed.

Lemma executeMethod_method_not_found_witness :
  executeMethod sample_config 3 "siteA" (make_request "broken" ParamsOther)
    siteA_world
  = (Ret tt,
     with_actions [EvSetError METHOD_NOT_FOUND; EvEnd (Some METHOD_NOT_FOUND)]
       (with_error METHOD_NOT_FOUND siteA_world)).
Proof.
  apply (executeMethod_method_not_found sample_config 3 "siteA"
           (make_request "broken" ParamsOther) siteA_world None).
  - vm_compute. reflexivity.
  - vm_compute. reflexivity.
Defined.

(** X6.  Under any prefix the four meta methods are served by their own
    handlers, before any permission is resolved: a request that is not safe
    and is named [prefix + "getPermissions"], [... "requestPermissions"],
    [... "grantPermissions"] or [... "revokePermissions"] is answered by the
    matching middleware, also when a restricted method has the same name. *)
Theorem meta_methods_are_dispatched
    (config : CapabilitiesConfig) (fuel : nat) (domain : string)
    (req : JsonRpcRequest) (w : World) :
  req_method req ∉ safeMethods config →
  (req_method req = methodPrefix config +:+ "getPermissions" →
   providerMiddlewareFunction config fuel domain req w
     = getPermissionsMiddleware domain req w) ∧
  (req_method req = methodPrefix config +:+ "requestPermissions" →
   providerMiddlewareFunction config fuel domain req w
     = requestPermissionsMiddleware config domain req w) ∧
  (req_method req = methodPrefix config +:+ "grantPermissions" →
   providerMiddlewareFunction config fuel domain req w
     = grantPermissionsMiddleware fuel domain req w) ∧
  (req_method req = methodPrefix config +:+ "revokePermissions" →
   providerMiddlewareFunction config fuel domain req w
     = revokePermissionsMiddleware domain req w).
Proof.
  intros Hsafe. unfold providerMiddlewareFunction, internalMethods.
  rewrite bool_decide_eq_false_2 by exact Hsafe.
  repeat split; intros ->;
    repeat (first
      [ rewrite bool_decide_eq_true_2 by reflexivity
      | rewrite bool_decide_eq_false_2
          by (intros Heq; apply (inj (String.app _)) in Heq; discriminate Heq) ]);
    reflexivity.
Qed.

Lemma meta_methods_are_dispatched_witness :
  let req := make_request "wallet_revokePermissions"
               (ParamsRevoke "siteA" [inl "write"]) in
  (req_method req = methodPrefix sample_config +:+ "getPermissions" →
   providerMiddlewareFunction sample_config 3 "siteA" req siteA_world
     = getPermissionsMiddleware "siteA" req siteA_world) ∧
  (req_method req = methodPrefix sample_config +:+ "requestPermissions" →
   providerMiddlewareFunction sample_config 3 "siteA" req siteA_world
     = requestPermissionsMiddleware sample_config "siteA" req siteA_world) ∧
  (req_method req = methodPrefix sample_config +:+ "grantPermissions" →
   providerMiddlewareFunction sample_config 3 "siteA" req siteA_world
     = grantPermissionsMiddleware 3 "siteA" req siteA_world) ∧
  (req_method req = methodPrefix sample_config +:+ "revokePermissions" →
   providerMiddlewareFunction sample_config 3 "siteA" req siteA_world
     = revokePermissionsMiddleware "siteA" req siteA_world).
Proof.
  apply (meta_methods_are_dispatched sample_config 3 "siteA"
           (make_request "wallet_revokePermissions"
              (ParamsRevoke "siteA" [inl "write"])) siteA_world).
  intros H. apply (bool_decide_pack _) in H. vm_compute in H. exact H.
Defined.

(** * Further properties of the resolver *)

(** X7.  The resolver only reads: whatever their outcome, [getPermission]
    and [getPermissionUnTraversed] leave the state, the response object and
    the actions of the request as they were. *)
Theorem resolver_never_writes
    (fuel : nat) (d : string) (m g : option string) (w : World) :
  (getPermission fuel d m w).2 = w ∧ (getPermissionUnTraversed d m g w).2 = w.
Proof.
  split; [apply getPermission_world|].
  unfold getPermissionUnTraversed, getPermissionsForDomain, gets, bind.
  destruct (permissionsForDomain w d); reflexivity.
Qed.

Lemma getPermission_loop_more_fuel n m : ∀ perms w k,
  (getPermission_loop n m perms w).1 ≠ Diverge →
  getPermission_loop (n + k) m perms w = getPermission_loop n m perms w.
Proof.
  induction n as [|n IH]; intros [|perm perms] w k Hn.
  - rewrite !getPermission_loop_nil. reflexivity.
  - exfalso. apply Hn. reflexivity.
  - rewrite !getPermission_loop_nil. reflexivity.
  - cbn [getPermission_loop Nat.add] in *.
    destruct (truthy (granter perm)); [|reflexivity].
    unfold bind in *.
    destruct (methodPermissions m (default "" (granter perm)) w) as [[ps|e|] w1];
      try reflexivity.
    apply IH. exact Hn.
Qed.

(** Once the walk of [getPermission] has come to an end within a number of
    iterations, allowing more iterations gives the same answer. *)
Lemma getPermission_more_fuel
    (n n' : nat) (d : string) (m : option string) (w : World) :
  (getPermission n d m w).1 ≠ Diverge →
  (n ≤ n')%nat →
  getPermission n' d m w = getPermission n d m w.
Proof.
  intros Hn Hle. replace n' with (n + (n' - n))%nat by lia.
  unfold getPermission, bind in *.
  destruct (methodPermissions m d w) as [[ps|e|] w1]; try reflexivity.
  apply getPermission_loop_more_fuel. exact Hn.
Qed.

Lemma getPermission_step
    (n : nat) (d : string) (m : option string) (w : World)
    (ps rest : list RpcCapPermission) (p : RpcCapPermission) :
  permissionsForDomain w d = Some ps →
  filter (methodFilter m) ps = p :: rest →
  getPermission (S n) d m w
    = if truthy (granter p)
      then getPermission n (default "" (granter p)) m w
      else (Ret (Some p), w).
Proof.
  intros Hps Hfilter.
  unfold getPermission at 1, methodPermissions, getPermissionsForDomain, gets.
  unfold bind at 1 2 3. rewrite Hps. cbn [array_of ret]. rewrite Hfilter.
  cbn [getPermission_loop]. destruct (truthy (granter p)); reflexivity.
Qed.

(** X8.  One hop of the resolver.  When the first permission of [d] for the
    method names a granter, [getPermission] answers for [d] what it answers
    for that granter with one iteration less; when it names none, that
    permission is the answer.  Later permissions of [d] for the method are
    never looked at. *)
Theorem getPermission_first_permission_decides
    (n : nat) (d : string) (m : option string) (w : World)
    (ps rest : list RpcCapPermission) (p : RpcCapPermission) :
  permissionsForDomain w d = Some ps →
  filter (methodFilter m) ps = p :: rest →
  getPermission (S n) d m w
    = if truthy (granter p)
      then getPermission n (default "" (granter p)) m w
      else (Ret (Some p), w).
Proof. apply getPermission_step. Qed.

Lemma getPermission_first_permission_decides_witness :
  getPermission 3 "siteB" (Some "write") S4_world
    = if truthy (granter (permission_of "write" (Some "siteA") "id-2"))
      then getPermission 2
             (default "" (granter (permission_of "write" (Some "siteA") "id-2")))
             (Some "write") S4_world
      else (Ret (Some (permission_of "write" (Some "siteA") "id-2")), S4_world).
Proof.
  apply (getPermission_first_permission_decides 2 "siteB" (Some "write") S4_world
           [permission_of "write" (Some "siteA") "id-2"] []).
  - vm_compute. reflexivity.
  - vm_compute. reflexivity.
Defined.

Lemma truthy_nonempty g : g ≠ "" → truthy (Some g) = true.
Proof. intros Hne. cbn. destruct (String.eqb_spec g ""); done. Qed.

Lemma getPermission_without_method n d m w ps :
  permissionsForDomain w d = Some ps →
  filter (methodFilter m) ps = [] →
  getPermission n d m w = (Ret None, w).
Proof.
  intros Hps Hnone.
  unfold getPermission, methodPermissions, getPermissionsForDomain, gets.
  unfold bind at 1 2 3. rewrite Hps. cbn [array_of ret]. rewrite Hnone.
  apply getPermission_loop_nil.
Qed.

(** X9.  A delegation whose granter holds nothing for the method resolves
    to nothing: when the first permission of [d] for the method names a
    granter that has no permission for it (revoked, or never registered),
    [getPermission] returns no permission for [d]. *)
Theorem orphaned_delegation_resolves_to_nothing
    (n : nat) (d g : string) (m : option string) (w : World)
    (ps gs rest : list RpcCapPermission) (p : RpcCapPermission) :
  permissionsForDomain w d = Some ps →
  filter (methodFilter m) ps = p :: rest →
  granter p = Some g → g ≠ "" →
  permissionsForDomain w g = Some gs →
  filter (methodFilter m) gs = [] →
  getPermission (S n) d m w = (Ret None, w).
Proof.
  intros Hps Hfilter Hg Hne Hgs Hnone.
  rewrite (getPermission_step n d m w ps rest p Hps Hfilter).
  rewrite Hg, (truthy_nonempty g Hne). change (default "" (Some g)) with g.
  exact (getPermission_without_method n g m w gs Hgs Hnone).
Qed.

(** ["siteB"] holds a delegation from ["siteA"], which holds nothing. *)
Lemma orphaned_delegation_resolves_to_nothing_witness :
  getPermission 1 "siteB" (Some "write")
    (world_of [("siteA", []);
               ("siteB", [permission_of "write" (Some "siteA") "id-2"])])
  = (Ret None,
     world_of [("siteA", []);
               ("siteB", [permission_of "write" (Some "siteA") "id-2"])]).
Proof.
  apply (orphaned_delegation_resolves_to_nothing 0 "siteB" "siteA" (Some "write")
           _ [permission_of "write" (Some "siteA") "id-2"] [] []
           (permission_of "write" (Some "siteA") "id-2")).
  - vm_compute. reflexivity.
  - vm_compute. reflexivity.
  - reflexivity.
  - discriminate.
  - vm_compute. reflexivity.
  - reflexivity.
Defined.

Lemma getPermission_loop_sound n m w : ∀ d perms P,
  methodPermissions m d w = (Ret perms, w) →
  (getPermission_loop n m perms w).1 = Ret (Some P) →
  ∃ d' ps, rtc (granter_edge w m) d d' ∧
           permissionsForDomain w d' = Some ps ∧
           head (filter (methodFilter m) ps) = Some P.
Proof.
  induction n as [|n IH]; intros d [|perm perms] P Hperms; try discriminate.
  cbn [getPermission_loop]. destruct (truthy (granter perm)) eqn:Ht.
  - apply truthy_Some in Ht as (g & Hg & Hne). rewrite Hg.
    change (default "" (Some g)) with g.
    pose proof (methodPermissions_edge m d w perm perms g Hperms Hg Hne) as Hedge.
    unfold bind.
    destruct (methodPermissions_cases m g w) as [(all & Hall & E)|[e E]];
      rewrite E; [|discriminate].
    intros HP. destruct (IH g _ P E HP) as (d' & ps & Hrtc & Hps & Hhead).
    exists d', ps. split; [eapply rtc_l; eauto|done].
  - cbn. intros [= <-].
    destruct (methodPermissions_cases m d w) as [(all & Hall & E)|[e E]];
      rewrite E in Hperms; [|discriminate].
    injection Hperms as Hfilter.
    exists d, all. split; [apply rtc_refl|]. rewrite Hfilter. done.
Qed.

(** X10.  What [getPermission] returns is a root of the chain it walked:
    the returned record is for the requested method, names no granter, and
    is the first permission for the method of a domain reached from the
    caller by following granters. *)
Theorem getPermission_returns_chain_root
    (fuel : nat) (d : string) (m : option string) (w : World)
    (P : RpcCapPermission) :
  (getPermission fuel d m w).1 = Ret (Some P) →
  method P = m ∧ truthy (granter P) = false ∧
  ∃ d' ps, rtc (granter_edge w m) d d' ∧
           permissionsForDomain w d' = Some ps ∧
           head (filter (methodFilter m) ps) = Some P.
Proof.
  intros HP.
  assert (∃ d' ps, rtc (granter_edge w m) d d' ∧
                   permissionsForDomain w d' = Some ps ∧
                   head (filter (methodFilter m) ps) = Some P) as Hchain.
  { revert HP. unfold getPermission, bind.
    destruct (methodPermissions_cases m d w) as [(all & Hall & E)|[e E]];
      rewrite E; [|discriminate].
    apply getPermission_loop_sound. exact E. }
  split; [|split; [exact (getPermission_returns_root fuel d m w P HP)|exact Hchain]].
  destruct Hchain as (d' & ps & _ & _ & Hhead).
  apply head_Some_elem_of, list_elem_of_filter in Hhead as [Hm _]. exact Hm.
Qed.

Lemma getPermission_returns_chain_root_witness :
  method (permission_of "write" None "id-1") = Some "write" ∧
  truthy (granter (permission_of "write" None "id-1")) = false ∧
  ∃ d' ps, rtc (granter_edge S4_world (Some "write")) "siteB" d' ∧
           permissionsForDomain S4_world d' = Some ps ∧
           head (filter (methodFilter (Some "write")) ps)
             = Some (permission_of "write" None "id-1").
Proof.
  apply (getPermission_returns_chain_root 3 "siteB" (Some "write") S4_world
           (permission_of "write" None "id-1")).
  vm_compute. reflexivity.
Defined.

(** X11.  What [getPermissionUnTraversed] finds is a permission of the
    domain itself, for the requested method, whose granter is the one asked
    for, or is absent when the domain is asked for as its own granter.
    Called without a granter it finds nothing. *)
Theorem getPermissionUnTraversed_result
    (d : string) (m g : option string) (w : World) (P : RpcCapPermission) :
  (getPermissionUnTraversed d m g w).1 = Ret (Some P) →
  (∃ ps, permissionsForDomain w d = Some ps ∧ P ∈ ps) ∧
  method P = m ∧
  g ≠ None ∧
  (granter P = g ∨ (granter P = None ∧ g = Some d)).
Proof.
  unfold getPermissionUnTraversed, getPermissionsForDomain, gets, bind.
  destruct (permissionsForDomain w d) as [ps|]; [|discriminate].
  cbn. intros [= Hhead].
  apply head_Some_elem_of, list_elem_of_filter in Hhead as [(Hm & Hg) Hin].
  split; [eauto|]. split; [exact Hm|].
  destruct Hg as [[Hnone ->]|[Hsome Heq]].
  - split; [discriminate|]. right. done.
  - split; [congruence|]. left. exact Heq.
Qed.

Lemma getPermissionUnTraversed_result_witness :
  (∃ ps, permissionsForDomain siteA_world "siteA" = Some ps ∧ other_write ∈ ps) ∧
  method other_write = Some "write" ∧
  Some "siteB" ≠ None ∧
  (granter other_write = Some "siteB" ∨
   (granter other_write = None ∧ Some "siteB" = Some "siteA")).
Proof.
  apply (getPermissionUnTraversed_result "siteA" (Some "write") (Some "siteB")
           siteA_world other_write).
  vm_compute. reflexivity.
Defined.

(** * Further properties of the permission store *)

Lemma permissionsForDomain_view w d :
  permissionsForDomain w d
  = match domains_view w !! d with
    | Some entry => permissions entry
    | None => Some []
    end.
Proof.
  unfold permissionsForDomain, domains_view, serialize_domains.
  destruct (state_domains w) as [l|]; cbn; [|rewrite lookup_empty; reflexivity].
  rewrite lookup_fmap. destruct (read_registry l w !! d); reflexivity.
Qed.

(** The injectivity of a registry, from a list without duplicates. *)
Lemma registry_unshared_of_NoDup w :
  (∀ l, state_domains w = Some l →
        NoDup (map_to_list (read_registry l w)).*2) →
  registry_unshared w.
Proof.
  intros Hnd l d1 d2 e Hl H1 H2. specialize (Hnd l Hl).
  apply elem_of_map_to_list in H1, H2.
  assert (∀ (xs : list (string * loc)) x y,
            NoDup xs.*2 → x ∈ xs → y ∈ xs → x.2 = y.2 → x = y) as Hinj.
  { induction xs as [|z xs IHxs]; intros x y Hxs Hx Hy Heq; [inversion Hx|].
    cbn in Hxs. apply NoDup_cons in Hxs as [Hz Hxs].
    apply elem_of_cons in Hx as [->|Hx];
      apply elem_of_cons in Hy as [->|Hy]; auto.
    - exfalso. apply Hz. rewrite Heq. apply list_elem_of_fmap. eauto.
    - exfalso. apply Hz. rewrite <- Heq. apply list_elem_of_fmap. eauto. }
  specialize (Hinj _ _ _ Hnd H1 H2 eq_refl). congruence.
Qed.

(** The state after [getDomainSettings d], some change to the returned entry
    object alone, and [setDomain d], for a name the registry stores: the
    domain holds the entry as changed, every other domain is as before, and
    the heap is well formed again. *)
Lemma entry_update_view_assignable d w e w0 w1 :
  heap_wf w →
  assignable w d →
  getDomainSettings d w = (Ret e, w0) →
  touches_only e w0 w1 →
  let r := setDomain d e w1 in
  r.1 = Ret tt ∧
  domains_view r.2 = <[d := read_entry e w1]> (domains_view w) ∧
  heap_wf r.2 ∧
  state_permissionsRequests r.2 = state_permissionsRequests w ∧
  res r.2 = res w ∧ log r.2 = log w ∧ clock r.2 = clock w ∧
  uuid_count r.2 = uuid_count w1.
Proof.
  intros [Hclosed Hunshared] Ha Hget (T1 & T2 & T3 & T4 & T5 & T6 & T7 & T8).
  destruct (state_domains w) as [l|] eqn:Hl.
  - (* [state.domains] is set *)
    assert (state_domains w1 = Some l ∧ read_registry l w1 !! d = Some e ∧
            (∀ k, k ≠ d → read_registry l w1 !! k = read_registry l w !! k) ∧
            (∀ k e', k ≠ d → read_registry l w !! k = Some e' →
                     read_entry e' w1 = read_entry e' w ∧ e' ≠ e ∧
                     e' ∈ dom (entries w1)) ∧
            e ∈ dom (entries w1) ∧
            state_permissionsRequests w0 = state_permissionsRequests w ∧
            res w0 = res w ∧ log w0 = log w ∧ clock w0 = clock w)
      as (S1 & S2 & S3 & S4 & S5 & S6 & S7 & S8 & S9).
    { destruct (read_registry l w !! d) as [e0|] eqn:Hd.
      - rewrite (getDomainSettings_present d w l e0 Hl Hd) in Hget.
        injection Hget as <- <-.
        assert (∀ k e', k ≠ d → read_registry l w !! k = Some e' → e' ≠ e0) as Hne.
        { intros k e' Hk He' ->. apply Hk. exact (Hunshared l k d e0 Hl He' Hd). }
        split; [congruence|].
        unfold read_registry in *. rewrite T1.
        split; [exact Hd|]. split; [done|]. split.
        { intros k e' Hk He'. pose proof (Hne k e' Hk He') as Hne'.
          split; [unfold read_entry; rewrite T3; done|]. split; [done|].
          apply elem_of_dom. rewrite T3 by done. apply elem_of_dom.
          exact (Hclosed l Hl k e' He'). }
        split; [|done]. apply elem_of_dom, T4, elem_of_dom.
        exact (Hclosed l Hl d e0 Hd).
      - assert (d ≠ "__proto__") as Hp.
        { destruct Ha as [Ha|Ha]; [exact Ha|].
          apply registered_domains_lookup in Ha as (l' & E & [x Hx]).
          congruence. }
        rewrite (getDomainSettings_absent_set d w l Hl Hd) in Hget.
        rewrite object_put_insert in Hget by (by left).
        injection Hget as <- <-. cbn in T1, T2, T3, T4, T5, T6, T7, T8.
        assert (∀ k e', read_registry l w !! k = Some e' →
                        e' ≠ fresh (dom (entries w))) as Hne.
        { intros k e' He' Heq.
          apply (is_fresh (dom (entries w))). rewrite <- Heq.
          exact (Hclosed l Hl k e' He'). }
        split; [congruence|].
        unfold read_registry in *. rewrite T1, lookup_insert_eq. cbn.
        split; [apply lookup_insert_eq|].
        split; [intros k Hk; rewrite lookup_insert_ne; done|]. split.
        { intros k e' Hk He'. pose proof (Hne k e' He') as Hne'.
          split; [|split; [done|]].
          - unfold read_entry. rewrite T3 by done.
            rewrite lookup_insert_ne; done.
          - apply elem_of_dom. rewrite T3 by done.
            rewrite lookup_insert_ne by done. apply elem_of_dom.
            exact (Hclosed l Hl k e' He'). }
        split; [|done]. apply elem_of_dom, T4. rewrite lookup_insert_eq. eauto. }
    rewrite (setDomain_set d e w1 l S1).
    rewrite (object_put_insert d e (read_registry l w1)) by (right; eauto).
    cbn.
    split; [reflexivity|].
    assert (domains_view
              (set_state_domains (Some l)
                 (set_registries
                    (<[l:=<[d:=e]> (read_registry l w1)]> (registries w1)) w1))
            = <[d := read_entry e w1]> (domains_view w)) as Hview.
    { unfold domains_view, serialize_domains. cbn. rewrite Hl. cbn.
      rewrite read_registry_set_state_domains, read_registry_set.
      apply map_eq. intros k. rewrite lookup_fmap.
      destruct (decide (k = d)) as [->|Hk].
      - rewrite !lookup_insert_eq. reflexivity.
      - rewrite !lookup_insert_ne by done. rewrite lookup_fmap, (S3 k Hk).
        destruct (read_registry l w !! k) as [e'|] eqn:He'; [|reflexivity].
        cbn. f_equal. exact (proj1 (S4 k e' Hk He')). }
    split; [exact Hview|]. split; [|repeat split; congruence].
    split.
    + intros l' Hl'. cbn in Hl'. injection Hl' as <-.
      rewrite read_registry_set_state_domains, read_registry_set.
      intros k e' Hk. cbn.
      destruct (decide (k = d)) as [->|Hkd].
      * rewrite lookup_insert_eq in Hk. injection Hk as <-. exact S5.
      * rewrite lookup_insert_ne in Hk by done. rewrite (S3 k Hkd) in Hk.
        exact (proj2 (proj2 (S4 k e' Hkd Hk))).
    + intros l' d1 d2 e' Hl'. cbn in Hl'. injection Hl' as <-.
      rewrite read_registry_set_state_domains, read_registry_set.
      intros H1 H2.
      destruct (decide (d1 = d)) as [->|Hd1]; destruct (decide (d2 = d)) as [->|Hd2];
        [reflexivity| | |].
      * rewrite lookup_insert_eq in H1. injection H1 as <-.
        rewrite lookup_insert_ne, (S3 d2 Hd2) in H2 by done.
        destruct (S4 d2 e Hd2 H2) as (_ & Hne & _). done.
      * rewrite lookup_insert_eq in H2. injection H2 as <-.
        rewrite lookup_insert_ne, (S3 d1 Hd1) in H1 by done.
        destruct (S4 d1 e Hd1 H1) as (_ & Hne & _). done.
      * rewrite lookup_insert_ne, (S3 d1 Hd1) in H1 by done.
        rewrite lookup_insert_ne, (S3 d2 Hd2) in H2 by done.
        exact (Hunshared l d1 d2 e' Hl H1 H2).
  - (* [state.domains] is unset *)
    assert (d ≠ "__proto__") as Hp.
    { destruct Ha as [Ha|Ha]; [exact Ha|].
      apply registered_domains_lookup in Ha as (l' & E & _). congruence. }
    rewrite (getDomainSettings_unset d w Hl) in Hget.
    injection Hget as <- <-. cbn in T1, T2, T3, T4, T5, T6, T7, T8.
    assert (state_domains w1 = None) as Hl1 by congruence.
    rewrite (setDomain_unset d _ w1 Hl1).
    rewrite object_put_insert, insert_empty by (by left). cbn.
    split; [reflexivity|]. split.
    { unfold domains_view, serialize_domains. cbn. rewrite Hl. cbn.
      rewrite read_registry_set_state_domains, read_registry_set.
      rewrite map_fmap_singleton, insert_empty. reflexivity. }
    split; [|repeat split; congruence].
    split.
    + intros l' Hl'. cbn in Hl'. injection Hl' as <-.
      rewrite read_registry_set_state_domains, read_registry_set.
      intros k e' Hk. apply lookup_singleton_Some in Hk as [-> <-]. cbn.
      apply elem_of_dom, T4. rewrite lookup_insert_eq. eauto.
    + intros l' d1 d2 e' Hl'. cbn in Hl'. injection Hl' as <-.
      rewrite read_registry_set_state_domains, read_registry_set.
      intros H1 H2. apply lookup_singleton_Some in H1 as [-> _].
      apply lookup_singleton_Some in H2 as [-> _]. reflexivity.
Qed.

(** The same steps under the name ["__proto__"] when the registry has no
    such key: the assignments replace the prototype of the registry object,
    no domain appears and every domain reads as before. *)
Lemma entry_update_view_prototype d w e w0 w1 :
  heap_wf w →
  ¬ assignable w d →
  getDomainSettings d w = (Ret e, w0) →
  touches_only e w0 w1 →
  let r := setDomain d e w1 in
  r.1 = Ret tt ∧
  domains_view r.2 = domains_view w ∧
  heap_wf r.2 ∧
  state_permissionsRequests r.2 = state_permissionsRequests w ∧
  res r.2 = res w ∧ log r.2 = log w ∧ clock r.2 = clock w ∧
  uuid_count r.2 = uuid_count w1.
Proof.
  intros [Hclosed Hunshared] Ha Hget (T1 & T2 & T3 & T4 & T5 & T6 & T7 & T8).
  destruct (not_assignable w d Ha) as [Hp Hn].
  destruct (state_domains w) as [l|] eqn:Hl.
  - pose proof (Hn l eq_refl) as Hd.
    rewrite (getDomainSettings_absent_set d w l Hl Hd) in Hget.
    rewrite (object_put_prototype d _ _ Hp Hd) in Hget.
    injection Hget as <- <-. cbn in T1, T2, T3, T4, T5, T6, T7, T8.
    assert (state_domains w1 = Some l) as S1 by congruence.
    assert (read_registry l w1 = read_registry l w) as S2.
    { unfold read_registry at 1. rewrite T1, lookup_insert_eq. reflexivity. }
    assert (∀ k e', read_registry l w !! k = Some e' →
                    read_entry e' w1 = read_entry e' w ∧
                    e' ∈ dom (entries w1)) as S4.
    { intros k e' He'.
      assert (e' ≠ fresh (dom (entries w))) as Hne.
      { intros Heq. apply (is_fresh (dom (entries w))). rewrite <- Heq.
        exact (Hclosed l Hl k e' He'). }
      split.
      - unfold read_entry. rewrite T3 by done.
        rewrite lookup_insert_ne; done.
      - apply elem_of_dom. rewrite T3 by done.
        rewrite lookup_insert_ne by done. apply elem_of_dom.
        exact (Hclosed l Hl k e' He'). }
    rewrite (setDomain_set d _ w1 l S1). rewrite S2.
    rewrite (object_put_prototype d _ _ Hp Hd). cbn.
    split; [reflexivity|]. split.
    { unfold domains_view, serialize_domains. cbn. rewrite Hl. cbn.
      rewrite read_registry_set_state_domains, read_registry_set.
      apply map_fmap_ext. intros k e' He'. exact (proj1 (S4 k e' He')). }
    split; [|repeat split; congruence].
    split.
    + intros l' Hl'. cbn in Hl'. injection Hl' as <-.
      rewrite read_registry_set_state_domains, read_registry_set.
      intros k e' Hk. cbn. exact (proj2 (S4 k e' Hk)).
    + intros l' d1 d2 e' Hl'. cbn in Hl'. injection Hl' as <-.
      rewrite read_registry_set_state_domains, read_registry_set.
      intros H1 H2. exact (Hunshared l d1 d2 e' Hl H1 H2).
  - rewrite (getDomainSettings_unset d w Hl) in Hget.
    injection Hget as <- <-. cbn in T1, T2, T3, T4, T5, T6, T7, T8.
    assert (state_domains w1 = None) as Hl1 by congruence.
    rewrite (setDomain_unset d _ w1 Hl1).
    rewrite (object_put_prototype d _ ∅ Hp (lookup_empty _)). cbn.
    split; [reflexivity|]. split.
    { unfold domains_view, serialize_domains. cbn. rewrite Hl. cbn.
      rewrite read_registry_set_state_domains, read_registry_set.
      apply fmap_empty. }
    split; [|repeat split; congruence].
    split.
    + intros l' Hl'. cbn in Hl'. injection Hl' as <-.
      rewrite read_registry_set_state_domains, read_registry_set.
      intros k e' Hk. rewrite lookup_empty in Hk. discriminate.
    + intros l' d1 d2 e' Hl'. cbn in Hl'. injection Hl' as <-.
      rewrite read_registry_set_state_domains, read_registry_set.
      intros H1 H2. rewrite lookup_empty in H1. discriminate.
Qed.

Lemma assignable_view w d :
  assignable w d ↔ d ≠ "__proto__" ∨ is_Some (domains_view w !! d).
Proof.
  unfold assignable. rewrite registered_domains_lookup.
  unfold domains_view, serialize_domains.
  destruct (state_domains w) as [l|]; cbn.
  - rewrite lookup_fmap, fmap_is_Some. split.
    + intros [H|(l' & E & H)]; [by left|right]. congruence.
    + intros [H|H]; [by left|right]. eauto.
  - rewrite lookup_empty. split.
    + intros [H|(l' & E & H)]; [by left|discriminate].
    + intros [H|[x Hx]]; [by left|discriminate].
Qed.

(** Both cases, with the assignment read on the registry of the state. *)
Lemma entry_update_view d w e w0 w1 :
  heap_wf w →
  getDomainSettings d w = (Ret e, w0) →
  touches_only e w0 w1 →
  let r := setDomain d e w1 in
  r.1 = Ret tt ∧
  domains_view r.2 = object_put d (read_entry e w1) (domains_view w) ∧
  heap_wf r.2 ∧
  state_permissionsRequests r.2 = state_permissionsRequests w ∧
  res r.2 = res w ∧ log r.2 = log w ∧ clock r.2 = clock w ∧
  uuid_count r.2 = uuid_count w1.
Proof.
  intros Hwf Hget Htouch.
  destruct (decide (assignable w d)) as [Ha|Ha].
  - rewrite object_put_insert by (apply assignable_view; exact Ha).
    exact (entry_update_view_assignable d w e w0 w1 Hwf Ha Hget Htouch).
  - rewrite object_put_prototype.
    + exact (entry_update_view_prototype d w e w0 w1 Hwf Ha Hget Htouch).
    + exact (proj1 (not_assignable w d Ha)).
    + destruct (domains_view w !! d) eqn:E; [|reflexivity].
      exfalso. apply Ha, assignable_view. right. eauto.
Qed.

Lemma entry_of_permissions (en : RpcCapDomainEntry) ps :
  permissions en = Some ps → en = {| permissions := Some ps |}.
Proof. destruct en. cbn. intros ->. reflexivity. Qed.

Lemma permissionsForDomain_frame w w' d d' en :
  domains_view w' = object_put d en (domains_view w) →
  d' ≠ d → permissionsForDomain w' d' = permissionsForDomain w d'.
Proof.
  intros Hview Hne. rewrite !permissionsForDomain_view, Hview.
  rewrite object_put_lookup_ne by done. reflexivity.
Qed.

Lemma permissionsForDomain_put w w' d ps :
  domains_view w' = object_put d {| permissions := Some ps |} (domains_view w) →
  permissionsForDomain w' d
  = Some (if decide (assignable w d) then ps else []).
Proof.
  intros Hview. rewrite permissionsForDomain_view, Hview.
  destruct (decide (assignable w d)) as [Ha|Ha].
  - rewrite object_put_insert by (apply assignable_view; exact Ha).
    rewrite lookup_insert_eq. reflexivity.
  - assert (domains_view w !! d = None) as Hd.
    { destruct (domains_view w !! d) eqn:E; [|reflexivity].
      exfalso. apply Ha, assignable_view. right. eauto. }
    rewrite object_put_prototype, Hd;
      [reflexivity|exact (proj1 (not_assignable w d Ha))|exact Hd].
Qed.

Lemma addPermissionsFor_spec
    (d : string) (news : list RpcCapPermission) (w : World)
    (old : list RpcCapPermission) :
  heap_wf w →
  permissionsForDomain w d = Some old →
  let r := addPermissionsFor d news w in
  let kept := filter (fun oldPerm => ¬ Exists (same_key oldPerm) news) old in
  let added := (stamp (uuid_count w) (clock w) news).1 in
  r.1 = Ret tt ∧
  domains_view r.2
    = object_put d {| permissions := Some (kept ++ added) |} (domains_view w) ∧
  (∀ d', d' ≠ d → permissionsForDomain r.2 d' = permissionsForDomain w d') ∧
  heap_wf r.2 ∧
  state_permissionsRequests r.2 = state_permissionsRequests w ∧
  res r.2 = res w ∧ log r.2 = log w.
Proof.
  intros Hwf Hold r kept added. subst r. unfold addPermissionsFor.
  destruct (getDomainSettings_view d w) as (e & w0 & E & Hperm & Hu & Hc).
  rewrite (bind_ret_eq _ _ _ _ _ E).
  erewrite (bind_ret_eq (gets _)) by reflexivity.
  rewrite Hperm, Hold.
  erewrite (bind_ret_eq (array_of _ _)) by reflexivity.
  destruct (entry_set_permissions_view e kept w0) as (A1 & A2 & A3 & A4).
  fold kept. rewrite (bind_ret_eq _ _ _ _ _ (outcome_eq _ _ A1)).
  destruct (push_loop_view e news _ _ A2) as (B1 & B2 & B3 & B4).
  rewrite (bind_ret_eq _ _ _ _ _ (outcome_eq _ _ B1)).
  rewrite A3, A4, Hu, Hc in B2. fold added in B2.
  set (w1 := (for_each _ news (entry_set_permissions e kept w0).2).2) in *.
  assert (touches_only e w0 w1) as Htouch.
  { eapply touches_only_trans;
      [apply entry_set_permissions_touches|apply push_loop_touches]. }
  destruct (entry_update_view d w e w0 w1 Hwf E Htouch)
    as (R1 & R2 & R3 & R4 & R5 & R6 & _).
  rewrite (entry_of_permissions _ _ B2) in R2.
  split; [exact R1|]. split; [exact R2|]. split; [|done].
  intros d' Hd'. exact (permissionsForDomain_frame _ _ _ _ _ R2 Hd').
Qed.

(** With records that all carry an identifier nothing is stamped. *)
Lemma addPermissionsFor_spec_ids
    (d : string) (news : list RpcCapPermission) (w : World)
    (old : list RpcCapPermission) :
  heap_wf w →
  permissionsForDomain w d = Some old →
  Forall (fun p => truthy (perm_id p) = true) news →
  let r := addPermissionsFor d news w in
  let kept := filter (fun oldPerm => ¬ Exists (same_key oldPerm) news) old in
  r.1 = Ret tt ∧
  domains_view r.2
    = object_put d {| permissions := Some (kept ++ news) |} (domains_view w) ∧
  (d ≠ "__proto__" → permissionsForDomain r.2 d = Some (kept ++ news)) ∧
  (∀ d', d' ≠ d → permissionsForDomain r.2 d' = permissionsForDomain w d') ∧
  heap_wf r.2 ∧
  state_permissionsRequests r.2 = state_permissionsRequests w ∧
  res r.2 = res w ∧ log r.2 = log w.
Proof.
  intros Hwf Hold Hids r kept. subst r.
  destruct (addPermissionsFor_spec d news w old Hwf Hold)
    as (R1 & R2 & R3 & R4).
  rewrite (stamp_with_ids _ _ _ Hids) in R2. cbn [fst] in R2.
  split; [exact R1|]. split; [exact R2|]. split; [|split; [exact R3|exact R4]].
  intros Hne. rewrite (permissionsForDomain_put _ _ _ _ R2).
  rewrite decide_True; [reflexivity|by left].
Qed.

(** X12.  On a well-formed heap, given records that all carry an identifier,
    [addPermissionsFor] changes the list of the named domain and nothing
    else in the state: the registry of the state is the earlier one after
    the assignment, under the domain name, of an entry with the old records
    whose natural key no new permission carries followed by the new
    permissions.  For every name but ["__proto__"] the domain then reads as
    that list (under ["__proto__"] the assignment replaces the prototype of
    the registry and stores nothing unless the registry has such a key);
    every other domain keeps its list, and the pending requests, the
    response object and the callbacks are not touched. *)
Theorem addPermissionsFor_updates_one_domain
    (d : string) (news : list RpcCapPermission) (w : World)
    (old : list RpcCapPermission) :
  heap_wf w →
  permissionsForDomain w d = Some old →
  Forall (fun p => truthy (perm_id p) = true) news →
  let r := addPermissionsFor d news w in
  let kept := filter (fun oldPerm => ¬ Exists (same_key oldPerm) news) old in
  r.1 = Ret tt ∧
  domains_view r.2
    = object_put d {| permissions := Some (kept ++ news) |} (domains_view w) ∧
  (d ≠ "__proto__" → permissionsForDomain r.2 d = Some (kept ++ news)) ∧
  (∀ d', d' ≠ d → permissionsForDomain r.2 d' = permissionsForDomain w d') ∧
  heap_wf r.2 ∧
  state_permissionsRequests r.2 = state_permissionsRequests w ∧
  res r.2 = res w ∧ log r.2 = log w.
Proof. apply addPermissionsFor_spec_ids. Qed.

Lemma removePermissionsFor_spec
    (d : string) (rem : list RpcCapPermission) (w : World)
    (old : list RpcCapPermission) :
  heap_wf w →
  permissionsForDomain w d = Some old →
  let r := removePermissionsFor d rem w in
  let kept := filter (fun perm => ¬ Exists (fun r => same_key r perm) rem) old in
  r.1 = Ret tt ∧
  domains_view r.2
    = object_put d {| permissions := Some kept |} (domains_view w) ∧
  permissionsForDomain r.2 d = Some kept ∧
  (∀ d', d' ≠ d → permissionsForDomain r.2 d' = permissionsForDomain w d') ∧
  heap_wf r.2 ∧
  state_permissionsRequests r.2 = state_permissionsRequests w ∧
  res r.2 = res w ∧ log r.2 = log w ∧ uuid_count r.2 = uuid_count w.
Proof.
  intros Hwf Hold r kept.
  pose proof (proj2 (removePermissionsFor_view d rem w old Hold)) as Hlist.
  fold r kept in Hlist.
  subst r. unfold removePermissionsFor in *.
  destruct (getDomainSettings_view d w) as (e & w0 & E & Hperm & Hu & Hc).
  rewrite (bind_ret_eq _ _ _ _ _ E) in *.
  erewrite (bind_ret_eq (gets _)) in * by reflexivity.
  rewrite Hperm, Hold in *.
  erewrite (bind_ret_eq (array_of _ _)) in * by reflexivity.
  destruct (entry_set_permissions_view e kept w0) as (A1 & A2 & A3 & A4).
  fold kept in Hlist |- *.
  rewrite (bind_ret_eq _ _ _ _ _ (outcome_eq _ _ A1)) in *.
  destruct (entry_update_view d w e w0 _ Hwf E
              (entry_set_permissions_touches e kept w0))
    as (R1 & R2 & R3 & R4 & R5 & R6 & R7 & R8).
  rewrite (entry_of_permissions _ _ A2) in R2.
  split; [exact R1|]. split; [exact R2|]. split; [exact Hlist|].
  split; [intros d' Hd'; exact (permissionsForDomain_frame _ _ _ _ _ R2 Hd')|].
  split; [exact R3|]. split; [exact R4|]. split; [exact R5|].
  split; [exact R6|]. etrans; [exact R8|]. etrans; [exact A3|exact Hu].
Qed.

(** X13.  On a well-formed heap [removePermissionsFor] changes the list of
    the named domain and nothing else in the state: the domain keeps, in
    order, the records whose natural key none of the given permissions
    carries; the registry of the state is the earlier one after the
    assignment of that entry under the domain name (an assignment that, for
    the name ["__proto__"] when the registry has no such key, replaces the
    prototype and adds no domain); every other domain keeps its list. *)
Theorem removePermissionsFor_updates_one_domain
    (d : string) (rem : list RpcCapPermission) (w : World)
    (old : list RpcCapPermission) :
  heap_wf w →
  permissionsForDomain w d = Some old →
  let r := removePermissionsFor d rem w in
  let kept := filter (fun perm => ¬ Exists (fun r => same_key r perm) rem) old in
  r.1 = Ret tt ∧
  domains_view r.2
    = object_put d {| permissions := Some kept |} (domains_view w) ∧
  permissionsForDomain r.2 d = Some kept ∧
  (∀ d', d' ≠ d → permissionsForDomain r.2 d' = permissionsForDomain w d') ∧
  heap_wf r.2 ∧
  state_permissionsRequests r.2 = state_permissionsRequests w ∧
  res r.2 = res w ∧ log r.2 = log w ∧ uuid_count r.2 = uuid_count w.
Proof. apply removePermissionsFor_spec. Qed.

(** Two domains, each with an entry object of its own. *)
Lemma S4_world_wf : heap_wf S4_world.
Proof.
  split.
  - intros l Hl. injection Hl as <-.
    apply (bool_decide_unpack _). vm_compute. exact I.
  - apply registry_unshared_of_NoDup. intros l Hl. injection Hl as <-.
    apply (bool_decide_unpack _). vm_compute. exact I.
Qed.

Lemma addPermissionsFor_updates_one_domain_witness :
  let news := [permission_of "read" None "id-3"] in
  let old := [permission_of "write" (Some "siteA") "id-2"] in
  let r := addPermissionsFor "siteB" news S4_world in
  let kept := filter (fun oldPerm => ¬ Exists (same_key oldPerm) news) old in
  r.1 = Ret tt ∧
  domains_view r.2
    = object_put "siteB" {| permissions := Some (kept ++ news) |}
        (domains_view S4_world) ∧
  ("siteB" ≠ "__proto__" →
   permissionsForDomain r.2 "siteB" = Some (kept ++ news)) ∧
  (∀ d', d' ≠ "siteB" →
         permissionsForDomain r.2 d' = permissionsForDomain S4_world d') ∧
  heap_wf r.2 ∧
  state_permissionsRequests r.2 = state_permissionsRequests S4_world ∧
  res r.2 = res S4_world ∧ log r.2 = log S4_world.
Proof.
  apply (addPermissionsFor_updates_one_domain "siteB"
           [permission_of "read" None "id-3"]
           S4_world [permission_of "write" (Some "siteA") "id-2"]).
  - exact S4_world_wf.
  - vm_compute. reflexivity.
  - apply (bool_decide_unpack _). vm_compute. exact I.
Defined.

Lemma removePermissionsFor_updates_one_domain_witness :
  let rem := [method_only "write"; permission_of "write" (Some "siteA") "x"] in
  let old := [permission_of "write" (Some "siteA") "id-2"] in
  let r := removePermissionsFor "siteB" rem S4_world in
  let kept := filter (fun perm => ¬ Exists (fun r => same_key r perm) rem) old in
  r.1 = Ret tt ∧
  domains_view r.2
    = object_put "siteB" {| permissions := Some kept |} (domains_view S4_world) ∧
  permissionsForDomain r.2 "siteB" = Some kept ∧
  (∀ d', d' ≠ "siteB" →
         permissionsForDomain r.2 d' = permissionsForDomain S4_world d') ∧
  heap_wf r.2 ∧
  state_permissionsRequests r.2 = state_permissionsRequests S4_world ∧
  res r.2 = res S4_world ∧ log r.2 = log S4_world ∧
  uuid_count r.2 = uuid_count S4_world.
Proof.
  apply (removePermissionsFor_updates_one_domain "siteB"
           [method_only "write"; permission_of "write" (Some "siteA") "x"]
           S4_world [permission_of "write" (Some "siteA") "id-2"]).
  - exact S4_world_wf.
  - vm_compute. reflexivity.
Defined.

(** X14.  [setDomain] followed by [getDomainSettings].  For every name the
    registry stores (every name but ["__proto__"], and that one too when the
    registry already has it as a key) this is a round trip: the entry just
    stored under the domain is the one returned for it, without any further
    change, and the domain then reads as that entry.  Under the name
    ["__proto__"] otherwise, [setDomain] replaces the prototype of the
    registry and adds no domain: the name still reads as the empty list and
    [getDomainSettings] returns a new entry, not the one passed to
    [setDomain].  In both cases every other domain reads as before. *)
Theorem setDomain_then_getDomainSettings (d : string) (e : loc) (w : World) :
  let w' := (setDomain d e w).2 in
  (assignable w d →
   getDomainSettings d w' = (Ret e, w') ∧
   permissionsForDomain w' d = permissions (read_entry e w)) ∧
  (¬ assignable w d →
   (getDomainSettings d w').1 = Ret (fresh (dom (entries w'))) ∧
   permissionsForDomain w' d = Some []) ∧
  (∀ d', d' ≠ d → permissionsForDomain w' d' = permissionsForDomain w d') ∧
  (d ≠ "__proto__" → assignable w d).
Proof.
  cbn zeta. split; [|split; [|split]].
  - intros Ha. split.
    + destruct (state_domains w) as [l|] eqn:Hl.
      * rewrite (setDomain_set d e w l Hl). cbn [snd].
        apply (getDomainSettings_present _ _ l); [reflexivity|].
        rewrite read_registry_set_state_domains, read_registry_set.
        rewrite object_put_insert; [apply lookup_insert_eq|].
        destruct Ha as [Ha|Ha]; [by left|right].
        apply registered_domains_lookup in Ha as (l' & E & H). congruence.
      * rewrite (setDomain_unset d e w Hl). cbn [snd].
        apply (getDomainSettings_present _ _ (fresh (dom (registries w))));
          [reflexivity|].
        rewrite read_registry_set_state_domains, read_registry_set.
        rewrite object_put_insert; [apply lookup_insert_eq|].
        destruct Ha as [Ha|Ha]; [by left|].
        apply registered_domains_lookup in Ha as (l' & E & H). congruence.
    + rewrite (proj2 (setDomain_view d e w)). rewrite decide_True by done.
      reflexivity.
  - intros Ha. split.
    + destruct (not_assignable w d Ha) as [Hp Hn].
      destruct (state_domains w) as [l|] eqn:Hl.
      * rewrite (setDomain_set d e w l Hl). cbn [snd].
        erewrite getDomainSettings_absent_set; [reflexivity|reflexivity|].
        rewrite read_registry_set_state_domains, read_registry_set.
        rewrite (object_put_prototype d _ _ Hp (Hn l eq_refl)).
        exact (Hn l eq_refl).
      * rewrite (setDomain_unset d e w Hl). cbn [snd].
        erewrite getDomainSettings_absent_set; [reflexivity|reflexivity|].
        rewrite read_registry_set_state_domains, read_registry_set.
        rewrite (object_put_prototype d _ ∅ Hp (lookup_empty _)).
        apply lookup_empty.
    + rewrite (proj2 (setDomain_view d e w)).
      rewrite decide_False by done. reflexivity.
  - intros d' Hd'. unfold permissionsForDomain.
    destruct (state_domains w) as [l|] eqn:Hl.
    + rewrite (setDomain_set d e w l Hl). cbn.
      rewrite read_registry_set_state_domains, read_registry_set.
      rewrite object_put_lookup_ne by done. reflexivity.
    + rewrite (setDomain_unset d e w Hl). cbn.
      rewrite read_registry_set_state_domains, read_registry_set.
      rewrite object_put_lookup_ne by done. rewrite lookup_empty. reflexivity.
  - intros Hne. by left.
Qed.

(** * Further properties of the grant and revoke handlers *)

Lemma same_store_refl w : same_store w w.
Proof. unfold same_store. done. Qed.

Lemma same_store_trans w1 w2 w3 :
  same_store w1 w2 → same_store w2 w3 → same_store w1 w3.
Proof. unfold same_store. intros (?&?&?&?) (?&?&?&?). repeat split; congruence. Qed.

Lemma same_store_permissions w w' d :
  same_store w w' → permissionsForDomain w' d = permissionsForDomain w d.
Proof.
  intros (H1 & H2 & H3 & _).
  unfold permissionsForDomain, read_registry, read_entry. rewrite H1, H2, H3.
  reflexivity.
Qed.

Lemma same_store_heap_wf w w' : same_store w w' → heap_wf w → heap_wf w'.
Proof.
  intros (H1 & H2 & H3 & _) [Hc Hu]. split.
  - intros l Hl. unfold read_registry. rewrite H1, H2. apply Hc. congruence.
  - intros l d1 d2 e Hl. unfold read_registry. rewrite H1.
    apply Hu. congruence.
Qed.

Lemma same_store_view w w' : same_store w w' → domains_view w' = domains_view w.
Proof.
  intros (H1 & H2 & H3 & _).
  unfold domains_view, serialize_domains, read_registry, read_entry.
  rewrite H1, H2, H3. reflexivity.
Qed.

Lemma response_eta (r : JsonRpcResponse) :
  r = {| result := result r; error := error r |}.
Proof. destruct r. reflexivity. Qed.

(** The failing branch of a [forEach] callback changes the response object
    and the actions only. *)
Lemma refusal_branch req (vars : list RpcCapPermission * bool) w :
  let r := (set_error (unauthorized (Some req)) ;;;
            let* e := gets (fun w => error (res w)) in
            end_ e ;;;
            ret (vars.1, true)) w in
  r.1 = Ret (vars.1, true) ∧ same_store w r.2 ∧
  uuid_count r.2 = uuid_count w ∧ clock r.2 = clock w ∧
  error (res r.2) = Some (unauthorized (Some req)) ∧
  result (res r.2) = result (res w) ∧
  log r.2 = log w ++ refusal req.
Proof.
  cbn. unfold same_store. repeat split; try done.
  rewrite <- app_assoc. reflexivity.
Qed.

Lemma refusals_cons {A} (x : A) (l : list A) req :
  mjoin (replicate (length (x :: l)) (refusal req))
  = refusal req ++ mjoin (replicate (length l) (refusal req)).
Proof. reflexivity. Qed.

(** *** [revokePermissionsMiddleware] *)

(** A staged permission is a record of the assigned domain, for the method
    of the entry, that the caller may revoke. *)
Lemma revoke_lookup_Some caller a ps x P :
  revoke_lookup caller a ps x = Some P →
  P ∈ ps ∧ revocable caller a P ∧
  method P = match x with inl s => Some s | inr p => method p end.
Proof.
  unfold revoke_lookup.
  destruct (head (filter _ ps)) as [Q|] eqn:Hhead; [|discriminate].
  destruct (_ || _); [|discriminate]. intros [= ->].
  apply head_Some_elem_of, list_elem_of_filter in Hhead as [(Hm & Hg) Hin].
  split; [exact Hin|]. split; [|exact Hm].
  unfold revocable. destruct Hg as [[Hn Heq]|[_ Heq]]; [right|left; done].
  split; congruence.
Qed.

Lemma revoke_step_exact domain a req vars x w ps :
  permissionsForDomain w a = Some ps →
  ∃ w',
    revoke_step domain a req vars x w
    = (Ret (match revoke_lookup domain a ps x with
            | Some P => (vars.1 ++ [P], vars.2)
            | None => (vars.1, true)
            end), w') ∧
    same_store w w' ∧ uuid_count w' = uuid_count w ∧ clock w' = clock w ∧
    result (res w') = result (res w) ∧
    match revoke_lookup domain a ps x with
    | Some _ => w' = w
    | None => error (res w') = Some (unauthorized (Some req)) ∧
              log w' = log w ++ refusal req
    end.
Proof.
  intros Hps. unfold revoke_step, revoke_lookup.
  set (m := match x with inl s => Some s | inr p => method p end).
  unfold getPermissionUnTraversed, getPermissionsForDomain, gets.
  unfold bind at 1 2 3. rewrite Hps. cbn [array_of ret].
  destruct (refusal_branch req vars w) as (U1 & U2 & U3 & U4 & U5 & U6 & U7).
  destruct (head (filter (unTraversedFilter a m (Some domain)) ps)) as [P|] eqn:Hhead.
  - destruct ((truthy (granter P) && bool_decide (granter P = Some domain))
              || bool_decide (a = domain)).
    + exists w. split; [reflexivity|]. split; [apply same_store_refl|]. done.
    + eexists. split; [apply outcome_eq; exact U1|]. done.
  - eexists. split; [apply outcome_eq; exact U1|]. done.
Qed.

Lemma revoke_fold_exact domain a req ps : ∀ reqs vars w,
  permissionsForDomain w a = Some ps →
  let refused := filter (fun x => revoke_lookup domain a ps x = None) reqs in
  ∃ w',
    fold_M (revoke_step domain a req) vars reqs w
    = (Ret (vars.1 ++ omap (revoke_lookup domain a ps) reqs,
            vars.2 || bool_decide (refused ≠ [])), w') ∧
    same_store w w' ∧ uuid_count w' = uuid_count w ∧ clock w' = clock w ∧
    result (res w') = result (res w) ∧
    log w' = log w ++ mjoin (replicate (length refused) (refusal req)) ∧
    (refused = [] → w' = w) ∧
    (refused ≠ [] → error (res w') = Some (unauthorized (Some req))) ∧
    (error (res w) = Some (unauthorized (Some req)) →
     error (res w') = Some (unauthorized (Some req))).
Proof.
  induction reqs as [|x reqs IH]; intros vars w Hps; cbn zeta.
  - exists w. destruct vars as [staged ended]. cbn.
    rewrite !app_nil_r, orb_false_r.
    split; [reflexivity|]. split; [apply same_store_refl|]. done.
  - destruct (revoke_step_exact domain a req vars x w ps Hps)
      as (w1 & E & Hs & Hu & Hc & Hr & Hcase).
    cbn [fold_M]. rewrite (bind_ret_eq _ _ _ _ _ E).
    assert (permissionsForDomain w1 a = Some ps) as Hps1
      by (rewrite (same_store_permissions w w1 a Hs); exact Hps).
    destruct (revoke_lookup domain a ps x) as [P|] eqn:Hx.
    + subst w1.
      destruct (IH (vars.1 ++ [P], vars.2) w Hps)
        as (w2 & E2 & Hs2 & Hu2 & Hc2 & Hr2 & Hl2 & Hnone & Hsome & Hkeep).
      cbn [fst snd] in E2.
      exists w2. rewrite E2. cbn [omap list_omap]. rewrite Hx.
      rewrite filter_cons_False by (rewrite Hx; intros ?; done).
      rewrite <- app_assoc. done.
    + destruct Hcase as [Herr Hlog].
      destruct (IH (vars.1, true) w1 Hps1)
        as (w2 & E2 & Hs2 & Hu2 & Hc2 & Hr2 & Hl2 & Hnone & Hsome & Hkeep).
      cbn [fst snd orb] in E2.
      exists w2. rewrite E2. cbn [omap list_omap]. rewrite Hx.
      rewrite filter_cons_True by exact Hx.
      rewrite bool_decide_eq_true_2 by done. rewrite orb_true_r.
      split; [reflexivity|]. split; [eapply same_store_trans; eauto|].
      split; [congruence|]. split; [congruence|]. split; [congruence|].
      split.
      { rewrite Hl2, Hlog, refusals_cons, <- app_assoc. reflexivity. }
      split; [intros ?; done|]. split; [intros _; exact (Hkeep Herr)|].
      intros _. exact (Hkeep Herr).
Qed.

Lemma revocable_same_key caller a r x :
  same_key r x → revocable caller a r → revocable caller a x.
Proof. unfold same_key, revocable. intros [_ Hg]. rewrite Hg. done. Qed.

Lemma revokePermissionsMiddleware_spec
    (domain : string) (req : JsonRpcRequest) (a : string)
    (reqs : list (string + RpcCapPermission)) (w : World)
    (ps : list RpcCapPermission) :
  heap_wf w →
  params req = ParamsRevoke a reqs →
  permissionsForDomain w a = Some ps →
  let r := revokePermissionsMiddleware domain req w in
  let staged := omap (revoke_lookup domain a ps) reqs in
  let refused := filter (fun x => revoke_lookup domain a ps x = None) reqs in
  let kept := filter (fun perm => ¬ Exists (fun r => same_key r perm) staged) ps in
  r.1 = Ret tt ∧
  Forall (fun P => P ∈ ps ∧ revocable domain a P) staged ∧
  filter (fun P => ¬ revocable domain a P) kept
    = filter (fun P => ¬ revocable domain a P) ps ∧
  (∀ d', d' ≠ a → permissionsForDomain r.2 d' = permissionsForDomain w d') ∧
  state_permissionsRequests r.2 = state_permissionsRequests w ∧
  (refused = [] →
     permissionsForDomain r.2 a = Some kept ∧
     res r.2 = {| result := Some (RPermissions staged); error := error (res w) |} ∧
     log r.2 = log w ++ [EvSetResult (RPermissions staged); EvEnd None]) ∧
  (refused ≠ [] →
     permissionsForDomain r.2 a = Some ps ∧
     domains_view r.2 = domains_view w ∧
     res r.2 = {| result := result (res w);
                  error := Some (unauthorized (Some req)) |} ∧
     log r.2 = log w ++ mjoin (replicate (length refused) (refusal req))).
Proof.
  intros Hwf Hparams Hps r staged refused kept.
  assert (Forall (fun P => P ∈ ps ∧ revocable domain a P) staged) as Hall.
  { apply Forall_forall. intros P HP. unfold staged in HP.
    apply list_elem_of_omap in HP as (x & _ & Hx).
    apply revoke_lookup_Some in Hx as (Hin & Hrev & _). done. }
  assert (filter (fun P => ¬ revocable domain a P) kept
          = filter (fun P => ¬ revocable domain a P) ps) as Hauth.
  { unfold kept. rewrite list_filter_filter. apply list_filter_iff.
    intros x. split; [intros [Hx _]; exact Hx|]. intros Hx. split; [exact Hx|].
    intros Hex. apply Hx. apply Exists_exists in Hex as (r0 & Hin & Hkey).
    rewrite Forall_forall in Hall. destruct (Hall r0 Hin) as [_ Hrev].
    exact (revocable_same_key domain a r0 x Hkey Hrev). }
  subst r. unfold revokePermissionsMiddleware. rewrite Hparams.
  destruct (revoke_fold_exact domain a req ps reqs ([], false) w Hps)
    as (w1 & E & Hs & Hu & Hc & Hres & Hlog & Hnone & Hsome & _).
  cbn [fst snd app orb] in E. fold staged refused in E, Hlog, Hnone, Hsome.
  rewrite (bind_ret_eq _ _ _ _ _ E).
  destruct (decide (refused = [])) as [Hr|Hr].
  - (* every entry was accepted *)
    rewrite bool_decide_eq_false_2 by (intros H; apply H; exact Hr).
    rewrite (Hnone Hr).
    destruct (removePermissionsFor_spec a staged w ps Hwf Hps)
      as (R1 & R2 & R2' & R3 & R4 & R5 & R6 & R7 & R8).
    rewrite (bind_ret_eq _ _ _ _ _ (outcome_eq _ _ R1)).
    set (w2 := (removePermissionsFor a staged w).2) in *.
    run_M.
    split; [reflexivity|]. split; [exact Hall|]. split; [exact Hauth|].
    split; [exact R3|]. split; [exact R5|]. split; [|intros H; done].
    intros _. split; [exact R2'|]. split; [rewrite R6; reflexivity|].
    rewrite R7, <- app_assoc. reflexivity.
  - (* some entry was refused *)
    rewrite bool_decide_eq_true_2 by exact Hr. cbn [fst snd ret].
    split; [reflexivity|]. split; [exact Hall|]. split; [exact Hauth|].
    split; [intros d' _; apply (same_store_permissions w w1 d' Hs)|].
    split; [apply Hs|]. split; [intros H; done|]. intros _.
    split; [rewrite (same_store_permissions w w1 a Hs); exact Hps|].
    split; [apply same_store_view; exact Hs|].
    split; [|exact Hlog].
    rewrite (response_eta (res w1)), Hres, (Hsome Hr). reflexivity.
Qed.

(** X15.  What [revokePermissions] takes away.  On a well-formed heap, when
    the entry of [assignedDomain] holds a permissions array, a call by
    [domain] returns normally.  Every request entry either stages the first
    record of [assignedDomain] for its method that the caller granted (or,
    when the caller revokes from itself, that has no granter), or is
    refused.  When no entry is refused, the records with the natural key of
    a staged permission are removed from the list, [res.result] lists the
    staged permissions in the order of the entries and [end()] is called
    once; every record the caller has not granted stays, in order.  When
    some entry is refused, nothing is removed, [res.error] is the
    unauthorized error and [end] is called with it once per refused entry.
    No other domain and no pending request is touched. *)
Theorem revokePermissionsMiddleware_authority
    (domain : string) (req : JsonRpcRequest) (a : string)
    (reqs : list (string + RpcCapPermission)) (w : World)
    (ps : list RpcCapPermission) :
  heap_wf w →
  params req = ParamsRevoke a reqs →
  permissionsForDomain w a = Some ps →
  let r := revokePermissionsMiddleware domain req w in
  let staged := omap (revoke_lookup domain a ps) reqs in
  let refused := filter (fun x => revoke_lookup domain a ps x = None) reqs in
  let kept := filter (fun perm => ¬ Exists (fun r => same_key r perm) staged) ps in
  r.1 = Ret tt ∧
  Forall (fun P => P ∈ ps ∧ revocable domain a P) staged ∧
  filter (fun P => ¬ revocable domain a P) kept
    = filter (fun P => ¬ revocable domain a P) ps ∧
  (∀ d', d' ≠ a → permissionsForDomain r.2 d' = permissionsForDomain w d') ∧
  state_permissionsRequests r.2 = state_permissionsRequests w ∧
  (refused = [] →
     permissionsForDomain r.2 a = Some kept ∧
     res r.2 = {| result := Some (RPermissions staged); error := error (res w) |} ∧
     log r.2 = log w ++ [EvSetResult (RPermissions staged); EvEnd None]) ∧
  (refused ≠ [] →
     permissionsForDomain r.2 a = Some ps ∧
     domains_view r.2 = domains_view w ∧
     res r.2 = {| result := result (res w);
                  error := Some (unauthorized (Some req)) |} ∧
     log r.2 = log w ++ mjoin (replicate (length refused) (refusal req))).
Proof. apply revokePermissionsMiddleware_spec. Qed.

Lemma revokePermissionsMiddleware_authority_witness :
  let reqs : list (string + RpcCapPermission) := [inl "write"] in
  let req := make_request "revokePermissions" (ParamsRevoke "siteB" reqs) in
  let ps := [permission_of "write" (Some "siteA") "id-2"] in
  let r := revokePermissionsMiddleware "siteA" req S4_world in
  let staged := omap (revoke_lookup "siteA" "siteB" ps) reqs in
  let refused := filter (fun x => revoke_lookup "siteA" "siteB" ps x = None) reqs in
  let kept := filter (fun perm => ¬ Exists (fun r => same_key r perm) staged) ps in
  r.1 = Ret tt ∧
  Forall (fun P => P ∈ ps ∧ revocable "siteA" "siteB" P) staged ∧
  filter (fun P => ¬ revocable "siteA" "siteB" P) kept
    = filter (fun P => ¬ revocable "siteA" "siteB" P) ps ∧
  (∀ d', d' ≠ "siteB" →
         permissionsForDomain r.2 d' = permissionsForDomain S4_world d') ∧
  state_permissionsRequests r.2 = state_permissionsRequests S4_world ∧
  (refused = [] →
     permissionsForDomain r.2 "siteB" = Some kept ∧
     res r.2 = {| result := Some (RPermissions staged);
                  error := error (res S4_world) |} ∧
     log r.2 = log S4_world ++ [EvSetResult (RPermissions staged); EvEnd None]) ∧
  (refused ≠ [] →
     permissionsForDomain r.2 "siteB" = Some ps ∧
     domains_view r.2 = domains_view S4_world ∧
     res r.2 = {| result := result (res S4_world);
                  error := Some (unauthorized (Some req)) |} ∧
     log r.2 = log S4_world
               ++ mjoin (replicate (length refused) (refusal req))).
Proof.
  apply (revokePermissionsMiddleware_authority "siteA"
           (make_request "revokePermissions" (ParamsRevoke "siteB" [inl "write"]))
           "siteB" [inl "write"] S4_world
           [permission_of "write" (Some "siteA") "id-2"]).
  - exact S4_world_wf.
  - reflexivity.
  - vm_compute. reflexivity.
Defined.

(** *** The resolver reads the store only *)

Lemma methodPermissions_same_store w w' m d :
  same_store w w' →
  ∃ o, methodPermissions m d w' = (o, w') ∧ methodPermissions m d w = (o, w).
Proof.
  intros Hs. unfold methodPermissions, getPermissionsForDomain, gets, bind.
  rewrite (same_store_permissions w w' d Hs).
  destruct (permissionsForDomain w d); cbn; eauto.
Qed.

Lemma getPermission_loop_same_store w w' m : same_store w w' →
  ∀ n perms,
    (getPermission_loop n m perms w').1 = (getPermission_loop n m perms w).1.
Proof.
  intros Hs. induction n as [|n IH]; intros [|perm perms]; try reflexivity.
  cbn [getPermission_loop]. destruct (truthy (granter perm)); [|reflexivity].
  unfold bind.
  destruct (methodPermissions_same_store w w' m (default "" (granter perm)) Hs)
    as (o & -> & ->).
  destruct o; [apply IH|reflexivity|reflexivity].
Qed.

(** The answer of the resolver depends on the domains and their entries
    only. *)
Lemma getPermission_same_store w w' fuel d m :
  same_store w w' → (getPermission fuel d m w').1 = (getPermission fuel d m w).1.
Proof.
  intros Hs. unfold getPermission, bind.
  destruct (methodPermissions_same_store w w' m d Hs) as (o & -> & ->).
  destruct o; [apply getPermission_loop_same_store; exact Hs|reflexivity..].
Qed.

Lemma truthy_uuid_at n : truthy (Some (uuid_at n)) = true.
Proof. reflexivity. Qed.

(** *** The duplicate filter of [grantPermissionsMiddleware] *)

Lemma dedupe_by_method_sublist : ∀ ps seen,
  dedupe_by_method seen ps `sublist_of` ps.
Proof.
  induction ps as [|p ps IH]; intros seen; cbn; [constructor|].
  case_bool_decide; [apply sublist_cons|apply sublist_skip]; apply IH.
Qed.

Lemma dedupe_by_method_keys : ∀ ps seen,
  NoDup (property_key ∘ method <$> dedupe_by_method seen ps) ∧
  ∀ p, p ∈ dedupe_by_method seen ps → property_key (method p) ∉ seen.
Proof.
  induction ps as [|p ps IH]; intros seen; cbn.
  - split; [constructor|]. intros p Hp. inversion Hp.
  - case_bool_decide as Hseen; [apply IH|].
    destruct (IH (property_key (method p) :: seen)) as [Hnd Hout].
    split.
    + cbn. apply NoDup_cons. split; [|exact Hnd].
      intros Hin. apply list_elem_of_fmap in Hin as (q & Hq & Hqin).
      apply (Hout q Hqin). cbn in Hq. rewrite <- Hq. apply list_elem_of_here.
    + intros q Hq. apply elem_of_cons in Hq as [->|Hq]; [exact Hseen|].
      intros Hin. apply (Hout q Hq). apply list_elem_of_further. exact Hin.
Qed.

(** One more entry at the end is kept exactly when its method name is new. *)
Lemma dedupe_by_method_snoc : ∀ l seen p,
  dedupe_by_method seen (l ++ [p])
  = dedupe_by_method seen l
    ++ (if decide (property_key (method p) ∈ seen ∨
                   property_key (method p) ∈ (property_key ∘ method <$> l))
        then [] else [p]).
Proof.
  induction l as [|q l IH]; intros seen p.
  - cbn. case_bool_decide as Hseen.
    + rewrite decide_True by (by left). reflexivity.
    + rewrite decide_False; [reflexivity|].
      intros [H|H]; [done|inversion H].
  - cbn [app dedupe_by_method]. case_bool_decide as Hseen.
    + rewrite IH. f_equal. apply decide_ext. cbn. rewrite elem_of_cons.
      split; [tauto|]. intros [H|[H|H]]; [by left| |by right].
      left. rewrite H. exact Hseen.
    + rewrite IH. cbn [app]. f_equal. f_equal. apply decide_ext. cbn.
      rewrite !elem_of_cons. tauto.
Qed.

(** An entry is kept exactly at the first occurrence of its method name. *)
Lemma dedupe_by_method_elem : ∀ ps seen q,
  q ∈ dedupe_by_method seen ps ↔
  (∃ l1 l2, ps = l1 ++ q :: l2 ∧ (property_key (method q) ∉ seen) ∧
            property_key (method q) ∉ (property_key ∘ method <$> l1)).
Proof.
  induction ps as [|p ps IH]; intros seen q.
  - cbn. split; [intros H; inversion H|].
    intros (l1 & l2 & H & _). destruct l1; discriminate.
  - cbn [dedupe_by_method]. case_bool_decide as Hseen.
    + rewrite IH. split.
      * intros (l1 & l2 & -> & Hs & Hl). exists (p :: l1), l2.
        split; [reflexivity|]. split; [exact Hs|]. cbn.
        rewrite elem_of_cons. intros [H|H]; [|done].
        apply Hs. rewrite H. exact Hseen.
      * intros (l1 & l2 & Hsplit & Hs & Hl). destruct l1 as [|p' l1].
        -- injection Hsplit as -> _. done.
        -- injection Hsplit as -> ->. exists l1, l2.
           split; [reflexivity|]. split; [exact Hs|].
           intros H. apply Hl. cbn. apply list_elem_of_further. exact H.
    + rewrite elem_of_cons, IH. split.
      * intros [->|(l1 & l2 & -> & Hs & Hl)].
        -- exists [], ps. split; [reflexivity|]. split; [exact Hseen|].
           intros H. inversion H.
        -- exists (p :: l1), l2. split; [reflexivity|].
           rewrite elem_of_cons in Hs. split; [tauto|]. cbn.
           rewrite elem_of_cons. tauto.
      * intros (l1 & l2 & Hsplit & Hs & Hl). destruct l1 as [|p' l1].
        -- injection Hsplit as -> _. by left.
        -- injection Hsplit as -> ->. right. exists l1, l2.
           split; [reflexivity|]. cbn in Hl. rewrite elem_of_cons in Hl.
           rewrite elem_of_cons. tauto.
Qed.

Lemma dedupe_by_method_spec (ps : list RpcCapPermission) :
  let kept := dedupe_by_method Object_prototype_keys ps in
  kept `sublist_of` ps ∧
  NoDup (method <$> kept) ∧
  (∀ p, p ∈ ps → property_key (method p) ∉ Object_prototype_keys →
        ∃ q, q ∈ kept ∧ property_key (method q) = property_key (method p)) ∧
  (∀ p, p ∈ kept → property_key (method p) ∉ Object_prototype_keys) ∧
  (∀ q, q ∈ kept ↔
        (∃ l1 l2, ps = l1 ++ q :: l2 ∧
                  (property_key (method q) ∉ Object_prototype_keys) ∧
                  property_key (method q) ∉ (property_key ∘ method <$> l1))) ∧
  (∀ l p, dedupe_by_method Object_prototype_keys (l ++ [p])
          = dedupe_by_method Object_prototype_keys l
            ++ (if decide (property_key (method p) ∈ Object_prototype_keys ∨
                           property_key (method p)
                             ∈ (property_key ∘ method <$> l))
                then [] else [p])).
Proof.
  cbn zeta. split; [apply dedupe_by_method_sublist|].
  split; [|split; [|split; [|split]]].
  - destruct (dedupe_by_method_keys ps Object_prototype_keys) as [Hnd _].
    rewrite list_fmap_compose in Hnd. exact (NoDup_fmap_1 _ _ Hnd).
  - generalize Object_prototype_keys as seen.
    induction ps as [|p0 ps IH]; intros seen p Hp Hout; [inversion Hp|].
    cbn. apply elem_of_cons in Hp as [->|Hp].
    + rewrite bool_decide_eq_false_2 by exact Hout.
      exists p0. split; [apply list_elem_of_here|reflexivity].
    + case_bool_decide as Hseen; [apply IH; assumption|].
      destruct (decide (property_key (method p) = property_key (method p0)))
        as [Heq|Hne].
      * exists p0. split; [apply list_elem_of_here|congruence].
      * destruct (IH (property_key (method p0) :: seen) p Hp) as (q & Hq & Hk).
        { intros Hin. apply elem_of_cons in Hin as [?|?]; done. }
        exists q. split; [apply list_elem_of_further; exact Hq|exact Hk].
  - apply dedupe_by_method_keys.
  - intros q. apply dedupe_by_method_elem.
  - intros l p. apply dedupe_by_method_snoc.
Qed.

(** X16.  The duplicate filter of [grantPermissions] keeps, in order, the
    first entry of every method and drops the later ones: an entry is kept
    exactly when no earlier entry of the list has its method name, and a
    list with one more entry at the end gives the same result followed by
    that entry if its method name is new.  What the filter returns has
    pairwise distinct methods.  An entry whose method is named like a member
    of [Object.prototype] is dropped as well. *)
Theorem dedupe_by_method_distinct (ps : list RpcCapPermission) :
  let kept := dedupe_by_method Object_prototype_keys ps in
  kept `sublist_of` ps ∧
  NoDup (method <$> kept) ∧
  (∀ p, p ∈ ps → property_key (method p) ∉ Object_prototype_keys →
        ∃ q, q ∈ kept ∧ property_key (method q) = property_key (method p)) ∧
  (∀ p, p ∈ kept → property_key (method p) ∉ Object_prototype_keys) ∧
  (∀ q, q ∈ kept ↔
        (∃ l1 l2, ps = l1 ++ q :: l2 ∧
                  (property_key (method q) ∉ Object_prototype_keys) ∧
                  property_key (method q) ∉ (property_key ∘ method <$> l1))) ∧
  (∀ l p, dedupe_by_method Object_prototype_keys (l ++ [p])
          = dedupe_by_method Object_prototype_keys l
            ++ (if decide (property_key (method p) ∈ Object_prototype_keys ∨
                           property_key (method p)
                             ∈ (property_key ∘ method <$> l))
                then [] else [p])).
Proof. apply dedupe_by_method_spec. Qed.

(** *** [grantPermissionsMiddleware] *)

Lemma grant_lookup_eq fuel g w rp o :
  (getPermission fuel g (method rp) w).1 = Ret o → grant_lookup fuel g w rp = o.
Proof. unfold grant_lookup. intros ->. destruct o; reflexivity. Qed.

Lemma grant_lookup_Some fuel g w rp root :
  grant_lookup fuel g w rp = Some root →
  (getPermission fuel g (method rp) w).1 = Ret (Some root).
Proof.
  unfold grant_lookup.
  destruct ((getPermission fuel g (method rp) w).1) as [[x|]|e|]; try discriminate.
  intros [= ->]. reflexivity.
Qed.

Lemma grant_step_exact fuel g req vars rp w o :
  (getPermission fuel g (method rp) w).1 = Ret o →
  ∃ w',
    grant_step fuel g req vars rp w
    = (Ret (match o with
            | Some root =>
                (vars.1 ++ [delegation (method rp) g (uuid_at (uuid_count w))
                              (clock w) (caveats root)], vars.2)
            | None => (vars.1, true)
            end), w') ∧
    same_store w w' ∧ clock w' = clock w ∧
    result (res w') = result (res w) ∧
    (error (res w) = Some (unauthorized (Some req)) →
     error (res w') = Some (unauthorized (Some req))) ∧
    match o with
    | Some _ => res w' = res w ∧ log w' = log w ∧
                uuid_count w' = S (uuid_count w)
    | None => uuid_count w' = uuid_count w ∧
              error (res w') = Some (unauthorized (Some req)) ∧
              log w' = log w ++ refusal req
    end.
Proof.
  intros Hperm. unfold grant_step.
  rewrite (bind_ret_eq _ _ _ _ _ (getPermission_eq _ _ _ _ _ Hperm)).
  destruct o as [root|].
  - run_M. unfold Date_now, uuid, gets, bind. cbn.
    eexists. split; [reflexivity|]. unfold same_store. cbn. done.
  - destruct (refusal_branch req vars w) as (U1 & U2 & U3 & U4 & U5 & U6 & U7).
    eexists. split; [apply outcome_eq; exact U1|]. done.
Qed.

Lemma grant_fold_exact fuel g req w0 : ∀ reqs vars w,
  same_store w0 w → clock w = clock w0 →
  (∀ rp, rp ∈ reqs → ∃ o, (getPermission fuel g (method rp) w0).1 = Ret o) →
  let refused := filter (fun rp => grant_lookup fuel g w0 rp = None) reqs in
  let staged := delegated_records fuel g w0 (uuid_count w) (clock w0) reqs in
  ∃ w',
    fold_M (grant_step fuel g req) vars reqs w
    = (Ret (vars.1 ++ staged, vars.2 || bool_decide (refused ≠ [])), w') ∧
    same_store w w' ∧ clock w' = clock w ∧
    result (res w') = result (res w) ∧
    log w' = log w ++ mjoin (replicate (length refused) (refusal req)) ∧
    (refused = [] → res w' = res w) ∧
    (refused ≠ [] → error (res w') = Some (unauthorized (Some req))) ∧
    (error (res w) = Some (unauthorized (Some req)) →
     error (res w') = Some (unauthorized (Some req))).
Proof.
  induction reqs as [|x reqs IH]; intros vars w Hs0 Hc0 Hres; cbn zeta.
  - exists w. destruct vars as [staged ended]. cbn.
    rewrite !app_nil_r, orb_false_r.
    split; [reflexivity|]. split; [apply same_store_refl|]. done.
  - destruct (Hres x (list_elem_of_here _ _)) as [o Ho].
    pose proof (grant_lookup_eq fuel g w0 x o Ho) as Hx.
    rewrite <- (getPermission_same_store w0 w fuel g (method x) Hs0) in Ho.
    destruct (grant_step_exact fuel g req vars x w o Ho)
      as (w1 & E & Hs & Hc & Hr & Hkeep1 & Hcase).
    cbn [fold_M]. rewrite (bind_ret_eq _ _ _ _ _ E).
    assert (∀ rp, rp ∈ reqs →
                  ∃ o, (getPermission fuel g (method rp) w0).1 = Ret o) as Hres'.
    { intros rp Hrp. apply Hres. apply list_elem_of_further. exact Hrp. }
    destruct o as [root|].
    + destruct Hcase as (Hres1 & Hlog1 & Hu1).
      destruct (IH (vars.1 ++ [delegation (method x) g (uuid_at (uuid_count w))
                                 (clock w) (caveats root)], vars.2) w1
                  (same_store_trans _ _ _ Hs0 Hs) ltac:(congruence) Hres')
        as (w2 & E2 & Hs2 & Hc2 & Hr2 & Hl2 & Hnone & Hsome & Hkeep).
      cbn [fst snd] in E2.
      exists w2. rewrite E2. cbn [delegated_records]. rewrite Hx.
      rewrite filter_cons_False by (rewrite Hx; intros ?; done).
      rewrite Hu1, Hc0, <- app_assoc.
      split; [reflexivity|]. split; [eapply same_store_trans; eauto|].
      split; [congruence|]. split; [congruence|]. split; [congruence|].
      split; [intros H; rewrite (Hnone H); exact Hres1|].
      split; [exact Hsome|]. intros He. apply Hkeep. congruence.
    + destruct Hcase as (Hu1 & Herr & Hlog).
      destruct (IH (vars.1, true) w1
                  (same_store_trans _ _ _ Hs0 Hs) ltac:(congruence) Hres')
        as (w2 & E2 & Hs2 & Hc2 & Hr2 & Hl2 & Hnone & Hsome & Hkeep).
      cbn [fst snd orb] in E2.
      exists w2. rewrite E2. cbn [delegated_records]. rewrite Hx.
      rewrite filter_cons_True by exact Hx.
      rewrite bool_decide_eq_true_2 by done. rewrite orb_true_r, Hu1.
      split; [reflexivity|]. split; [eapply same_store_trans; eauto|].
      split; [congruence|]. split; [congruence|].
      split.
      { rewrite Hl2, Hlog, refusals_cons, <- app_assoc. reflexivity. }
      split; [intros ?; done|]. split; [intros _; exact (Hkeep Herr)|].
      intros _. exact (Hkeep Herr).
Qed.

Lemma delegated_records_delegated fuel g w now : ∀ reqs n,
  Forall (delegated fuel g w) (delegated_records fuel g w n now reqs).
Proof.
  induction reqs as [|rp reqs IH]; intros n; cbn; [constructor|].
  destruct (grant_lookup fuel g w rp) as [root|] eqn:Hx; [|apply IH].
  constructor; [|apply IH].
  split; [reflexivity|]. split; [reflexivity|].
  exists root. split; [exact (grant_lookup_Some fuel g w rp root Hx)|reflexivity].
Qed.

Lemma delegated_records_methods fuel g w now : ∀ reqs n,
  method <$> delegated_records fuel g w n now reqs
  = method <$> filter (fun rp => grant_lookup fuel g w rp ≠ None) reqs.
Proof.
  induction reqs as [|rp reqs IH]; intros n; [reflexivity|].
  cbn [delegated_records].
  destruct (grant_lookup fuel g w rp) as [root|] eqn:Hx.
  - rewrite filter_cons_True by (rewrite Hx; done). cbn. f_equal. apply IH.
  - rewrite filter_cons_False by (rewrite Hx; intros H; apply H; done). apply IH.
Qed.

Lemma filter_complement_nil {A} (P : A → Prop) `{!∀ x, Decision (P x)}
    (l : list A) :
  filter P l = [] → filter (fun x => ¬ P x) l = l.
Proof.
  intros Hnone. apply filter_all. apply Forall_forall. intros x Hx HP.
  exact (filter_nil_not_elem_of _ _ x Hnone HP Hx).
Qed.

(** An upsert of records with pairwise distinct natural keys into a list
    with pairwise distinct natural keys gives such a list again. *)
Lemma upsert_keeps_keys_distinct (old news : list RpcCapPermission) :
  NoDup (natural_key <$> old) → NoDup (natural_key <$> news) →
  NoDup (natural_key <$>
           (filter (fun oldPerm => ¬ Exists (same_key oldPerm) news) old ++ news)).
Proof.
  intros Hold Hnews. rewrite fmap_app. apply NoDup_app. split; [|split].
  - apply filter_keeps_unique_keys. exact Hold.
  - intros k Hk Hk'.
    apply list_elem_of_fmap in Hk as (o & -> & Ho).
    apply list_elem_of_fmap in Hk' as (n & Hn & Hnin).
    apply list_elem_of_filter in Ho as [Hnot _]. apply Hnot.
    apply Exists_exists. exists n. split; [exact Hnin|].
    apply same_key_natural_key. exact Hn.
  - exact Hnews.
Qed.

Lemma delegated_keys_distinct fuel g w (granted : list RpcCapPermission) :
  Forall (delegated fuel g w) granted →
  NoDup (method <$> granted) → NoDup (natural_key <$> granted).
Proof.
  intros Hall Hnd.
  assert (natural_key <$> granted = (fun m => (m, Some g)) <$> (method <$> granted))
    as ->.
  { rewrite <- list_fmap_compose. apply Forall_fmap_ext_1.
    eapply Forall_impl; [exact Hall|]. intros P (Hg & _). cbn.
    unfold natural_key. rewrite Hg. reflexivity. }
  apply NoDup_fmap_2; [|exact Hnd]. intros m1 m2 Heq. congruence.
Qed.

Lemma grantPermissionsMiddleware_spec
    (fuel : nat) (g : string) (req : JsonRpcRequest) (grantee : string)
    (reqs : list RpcCapPermission) (w : World) (old : list RpcCapPermission) :
  heap_wf w →
  params req = ParamsGrant grantee reqs →
  permissionsForDomain w grantee = Some old →
  (∀ rp, rp ∈ reqs → ∃ o, (getPermission fuel g (method rp) w).1 = Ret o) →
  let r := grantPermissionsMiddleware fuel g req w in
  let asked := dedupe_by_method Object_prototype_keys reqs in
  let refused := filter (fun rp => grant_lookup fuel g w rp = None) asked in
  let granted := delegated_records fuel g w (uuid_count w) (clock w) asked in
  let kept := filter (fun oldPerm => ¬ Exists (same_key oldPerm) granted) old in
  r.1 = Ret tt ∧
  Forall (delegated fuel g w) granted ∧
  (∀ d', d' ≠ grantee → permissionsForDomain r.2 d' = permissionsForDomain w d') ∧
  state_permissionsRequests r.2 = state_permissionsRequests w ∧
  (refused = [] →
     method <$> granted = method <$> asked ∧
     domains_view r.2
       = object_put grantee {| permissions := Some (kept ++ granted) |}
           (domains_view w) ∧
     (grantee ≠ "__proto__" →
      permissionsForDomain r.2 grantee = Some (kept ++ granted)) ∧
     (NoDup (natural_key <$> old) → NoDup (natural_key <$> (kept ++ granted))) ∧
     res r.2 = {| result := Some (RPermissions granted); error := error (res w) |} ∧
     log r.2 = log w ++ [EvSetResult (RPermissions granted); EvEnd None]) ∧
  (refused ≠ [] →
     permissionsForDomain r.2 grantee = Some old ∧
     domains_view r.2 = domains_view w ∧
     res r.2 = {| result := result (res w);
                  error := Some (unauthorized (Some req)) |} ∧
     log r.2 = log w ++ mjoin (replicate (length refused) (refusal req))).
Proof.
  intros Hwf Hparams Hold Hres r asked refused granted kept.
  destruct (dedupe_by_method_spec reqs) as (Hsub & Hnd & _).
  cbn zeta in Hsub, Hnd. fold asked in Hsub, Hnd.
  pose proof (delegated_records_delegated fuel g w (clock w) asked (uuid_count w))
    as Hall. fold granted in Hall.
  subst r. unfold grantPermissionsMiddleware. rewrite Hparams. fold asked.
  destruct (grant_fold_exact fuel g req w asked ([], false) w
              (same_store_refl w) eq_refl)
    as (w1 & E & Hs & Hc & Hr & Hlog & Hnone & Hsome & _).
  { intros rp Hrp. apply Hres. eapply elem_of_sublist; eauto. }
  cbn [fst snd app orb] in E. fold granted refused in E, Hlog, Hnone, Hsome.
  rewrite (bind_ret_eq _ _ _ _ _ E).
  destruct (decide (refused = [])) as [Hrf|Hrf].
  - (* every method resolves for the granter *)
    rewrite bool_decide_eq_false_2 by (intros H; apply H; exact Hrf).
    assert (permissionsForDomain w1 grantee = Some old) as Hold1
      by (rewrite (same_store_permissions w w1 grantee Hs); exact Hold).
    destruct (addPermissionsFor_spec_ids grantee granted w1 old
                (same_store_heap_wf w w1 Hs Hwf) Hold1)
      as (R1 & R2 & R2' & R3 & R4 & R5 & R6 & R7).
    { eapply Forall_impl; [exact Hall|]. intros P (_ & Hid & _). exact Hid. }
    fold kept in R2, R2'.
    rewrite (same_store_view w w1 Hs) in R2.
    rewrite (bind_ret_eq _ _ _ _ _ (outcome_eq _ _ R1)).
    set (w2 := (addPermissionsFor grantee granted w1).2) in *.
    assert (method <$> granted = method <$> asked) as Hmeth.
    { unfold granted. rewrite delegated_records_methods. f_equal.
      apply filter_complement_nil. exact Hrf. }
    run_M.
    split; [reflexivity|]. split; [exact Hall|]. split.
    { intros d' Hd'. etrans; [exact (R3 d' Hd')|].
      apply (same_store_permissions w w1 d' Hs). }
    split; [etrans; [exact R5|apply Hs]|].
    split; [|intros H; done]. intros _.
    split; [exact Hmeth|]. split; [exact R2|]. split; [exact R2'|].
    split.
    { intros Hnold. apply upsert_keeps_keys_distinct; [exact Hnold|].
      apply (delegated_keys_distinct fuel g w granted Hall).
      rewrite Hmeth. exact Hnd. }
    split; [rewrite R6, (Hnone Hrf); reflexivity|].
    rewrite R7, Hlog, Hrf. cbn [length replicate mjoin list_join].
    rewrite app_nil_r, <- app_assoc. reflexivity.
  - (* some method does not resolve *)
    rewrite bool_decide_eq_true_2 by exact Hrf. cbn [fst snd ret].
    split; [reflexivity|]. split; [exact Hall|].
    split; [intros d' _; apply (same_store_permissions w w1 d' Hs)|].
    split; [apply Hs|]. split; [intros H; done|]. intros _.
    split; [rewrite (same_store_permissions w w1 grantee Hs); exact Hold|].
    split; [apply same_store_view; exact Hs|].
    split; [|exact Hlog].
    rewrite (response_eta (res w1)), Hr, (Hsome Hrf). reflexivity.
Qed.

(** X17.  What [grantPermissions] hands out.  On a well-formed heap, when
    the entry of the grantee holds a permissions array and the resolver
    returns for every requested method, a call by [g] returns normally and
    touches the list of the grantee only.  The entries considered are the
    requested ones after the duplicate filter.  When [g] resolves a
    permission for each of them, the grantee receives exactly one record per
    entry, in order: for the entry's method, granted by [g], with a new
    identifier and the caveats of the permission [g] resolved; these records
    replace the earlier records of the grantee with the same natural key and
    follow the others, [res.result] lists them and [end()] is called once.
    (Under the grantee name ["__proto__"] the assignment replaces the
    prototype of the registry and the records are not stored.)  When some
    method does not resolve for [g], nothing is granted, [res.error] is the
    unauthorized error and [end] is called with it once per such entry.  A
    list with pairwise distinct natural keys stays one. *)
Theorem grantPermissionsMiddleware_delegates_held_methods
    (fuel : nat) (g : string) (req : JsonRpcRequest) (grantee : string)
    (reqs : list RpcCapPermission) (w : World) (old : list RpcCapPermission) :
  heap_wf w →
  params req = ParamsGrant grantee reqs →
  permissionsForDomain w grantee = Some old →
  (∀ rp, rp ∈ reqs → ∃ o, (getPermission fuel g (method rp) w).1 = Ret o) →
  let r := grantPermissionsMiddleware fuel g req w in
  let asked := dedupe_by_method Object_prototype_keys reqs in
  let refused := filter (fun rp => grant_lookup fuel g w rp = None) asked in
  let granted := delegated_records fuel g w (uuid_count w) (clock w) asked in
  let kept := filter (fun oldPerm => ¬ Exists (same_key oldPerm) granted) old in
  r.1 = Ret tt ∧
  Forall (delegated fuel g w) granted ∧
  (∀ d', d' ≠ grantee → permissionsForDomain r.2 d' = permissionsForDomain w d') ∧
  state_permissionsRequests r.2 = state_permissionsRequests w ∧
  (refused = [] →
     method <$> granted = method <$> asked ∧
     domains_view r.2
       = object_put grantee {| permissions := Some (kept ++ granted) |}
           (domains_view w) ∧
     (grantee ≠ "__proto__" →
      permissionsForDomain r.2 grantee = Some (kept ++ granted)) ∧
     (NoDup (natural_key <$> old) → NoDup (natural_key <$> (kept ++ granted))) ∧
     res r.2 = {| result := Some (RPermissions granted); error := error (res w) |} ∧
     log r.2 = log w ++ [EvSetResult (RPermissions granted); EvEnd None]) ∧
  (refused ≠ [] →
     permissionsForDomain r.2 grantee = Some old ∧
     domains_view r.2 = domains_view w ∧
     res r.2 = {| result := result (res w);
                  error := Some (unauthorized (Some req)) |} ∧
     log r.2 = log w ++ mjoin (replicate (length refused) (refusal req))).
Proof. apply grantPermissionsMiddleware_spec. Qed.

Lemma grantPermissionsMiddleware_delegates_held_methods_witness :
  let reqs := [method_only "write"; method_only "read"; method_only "write"] in
  let req := make_request "grantPermissions" (ParamsGrant "siteB" reqs) in
  let old := [permission_of "write" (Some "siteA") "id-2"] in
  let r := grantPermissionsMiddleware 3 "siteA" req S4_world in
  let asked := dedupe_by_method Object_prototype_keys reqs in
  let refused := filter (fun rp => grant_lookup 3 "siteA" S4_world rp = None)
                   asked in
  let granted := delegated_records 3 "siteA" S4_world (uuid_count S4_world)
                   (clock S4_world) asked in
  let kept := filter (fun oldPerm => ¬ Exists (same_key oldPerm) granted) old in
  r.1 = Ret tt ∧
  Forall (delegated 3 "siteA" S4_world) granted ∧
  (∀ d', d' ≠ "siteB" →
         permissionsForDomain r.2 d' = permissionsForDomain S4_world d') ∧
  state_permissionsRequests r.2 = state_permissionsRequests S4_world ∧
  (refused = [] →
     method <$> granted = method <$> asked ∧
     domains_view r.2
       = object_put "siteB" {| permissions := Some (kept ++ granted) |}
           (domains_view S4_world) ∧
     ("siteB" ≠ "__proto__" →
      permissionsForDomain r.2 "siteB" = Some (kept ++ granted)) ∧
     (NoDup (natural_key <$> old) → NoDup (natural_key <$> (kept ++ granted))) ∧
     res r.2 = {| result := Some (RPermissions granted);
                  error := error (res S4_world) |} ∧
     log r.2 = log S4_world ++ [EvSetResult (RPermissions granted); EvEnd None]) ∧
  (refused ≠ [] →
     permissionsForDomain r.2 "siteB" = Some old ∧
     domains_view r.2 = domains_view S4_world ∧
     res r.2 = {| result := result (res S4_world);
                  error := Some (unauthorized (Some req)) |} ∧
     log r.2 = log S4_world
               ++ mjoin (replicate (length refused) (refusal req))).
Proof.
  apply (grantPermissionsMiddleware_delegates_held_methods 3 "siteA"
           (make_request "grantPermissions"
              (ParamsGrant "siteB"
                 [method_only "write"; method_only "read"; method_only "write"]))
           "siteB" [method_only "write"; method_only "read"; method_only "write"]
           S4_world [permission_of "write" (Some "siteA") "id-2"]).
  - exact S4_world_wf.
  - reflexivity.
  - vm_compute. reflexivity.
  - intros rp Hrp.
    repeat (apply elem_of_cons in Hrp as [->|Hrp]);
      [eexists; vm_compute; reflexivity..|inversion Hrp].
Defined.

(** * Further properties of the approval flow *)

Lemma root_records_shape root now : ∀ approved n,
  Forall2 (fun kv P => method P = Some kv.1 ∧
                       caveats P = request_caveats kv.2 ∧
                       granter P = Some root ∧ truthy (perm_id P) = true)
          approved (root_records root n now approved).
Proof.
  induction approved as [|[m r] approved IH]; intros n; cbn; constructor; auto.
Qed.

Lemma root_records_keys root now approved n :
  natural_key <$> root_records root n now approved
  = (fun m => (Some m, Some root)) <$> approved.*1.
Proof.
  revert n. induction approved as [|[m r] approved IH]; intros n; [reflexivity|].
  cbn. f_equal. apply IH.
Qed.

Lemma root_records_methods root now approved n :
  method <$> root_records root n now approved = Some <$> approved.*1.
Proof.
  revert n. induction approved as [|[m r] approved IH]; intros n; [reflexivity|].
  cbn. f_equal. apply IH.
Qed.

Lemma root_records_origin root now : ∀ approved n,
  Forall (fun P => granter P = Some root ∧ truthy (perm_id P) = true ∧
                   ∃ m rq, method P = Some m ∧ (m, rq) ∈ approved ∧
                           caveats P = request_caveats rq)
         (root_records root n now approved).
Proof.
  induction approved as [|[m r] approved IH]; intros n; cbn; constructor.
  - split; [reflexivity|]. split; [reflexivity|].
    exists m, r. split; [reflexivity|]. split; [apply list_elem_of_here|reflexivity].
  - eapply Forall_impl; [apply IH|]. intros P (Hg & Hid & m' & rq & Hm & Hin & Hc).
    split; [exact Hg|]. split; [exact Hid|]. exists m', rq.
    split; [exact Hm|]. split; [apply list_elem_of_further; exact Hin|exact Hc].
Qed.

Lemma map_M_root_records g : ∀ approved w,
  map_M (new_root_permission g) approved w
  = (Ret (root_records (if truthy g then default "" g else "user")
            (uuid_count w) (clock w) approved),
     set_uuid_count (uuid_count w + length approved) w).
Proof.
  induction approved as [|[m r] approved IH]; intros w.
  - cbn. unfold ret. rewrite Nat.add_0_r. destruct w; reflexivity.
  - cbn [map_M]. unfold new_root_permission at 1, uuid, Date_now, gets.
    unfold bind at 1 2 3. cbn [ret]. unfold bind at 1. rewrite IH.
    cbn. rewrite Nat.add_succ_r. reflexivity.
Qed.

Lemma heap_wf_ext w w' :
  registries w' = registries w → entries w' = entries w →
  state_domains w' = state_domains w → heap_wf w → heap_wf w'.
Proof.
  intros H1 H2 H3 [Hc Hu]. split.
  - intros l Hl. unfold read_registry. rewrite H1, H2. apply Hc. congruence.
  - intros l d1 d2 e Hl. unfold read_registry. rewrite H1. apply Hu. congruence.
Qed.

Lemma permissionsForDomain_ext w w' d :
  registries w' = registries w → entries w' = entries w →
  state_domains w' = state_domains w →
  permissionsForDomain w' d = permissionsForDomain w d.
Proof.
  intros H1 H2 H3. unfold permissionsForDomain, read_registry, read_entry.
  rewrite H1, H2, H3. reflexivity.
Qed.

(** What [grantNewPermissions] does, with the records in the order in which
    the keys of the approved object are enumerated here. *)
Lemma grantNewPermissions_spec
    (d : string) (approved : IRequestedPermissions) (g : option string)
    (w : World) (old : list RpcCapPermission) :
  heap_wf w →
  permissionsForDomain w d = Some old →
  let root := if truthy g then default "" g else "user" in
  let new := root_records root (uuid_count w) (clock w) (map_to_list approved) in
  let ps' := filter (fun oldPerm => ¬ Exists (same_key oldPerm) new) old ++ new in
  let stored := if decide (assignable w d) then ps' else [] in
  let r := grantNewPermissions d approved g w in
  r.1 = Ret tt ∧
  domains_view r.2
    = object_put d {| permissions := Some ps' |} (domains_view w) ∧
  permissionsForDomain r.2 d = Some stored ∧
  (∀ d', d' ≠ d → permissionsForDomain r.2 d' = permissionsForDomain w d') ∧
  state_permissionsRequests r.2 = state_permissionsRequests w ∧
  res r.2 = {| result := Some (RPermissions stored); error := error (res w) |} ∧
  log r.2 = log w ++ [EvSetResult (RPermissions stored); EvEnd None] ∧
  heap_wf r.2 ∧
  (NoDup (natural_key <$> old) → NoDup (natural_key <$> ps')).
Proof.
  intros Hwf Hold root new ps' stored r. subst r. unfold grantNewPermissions.
  rewrite (bind_ret_eq _ _ _ _ _ (map_M_root_records g (map_to_list approved) w)).
  fold root. fold new.
  set (w1 := set_uuid_count (uuid_count w + length (map_to_list approved)) w).
  assert (heap_wf w1) as Hwf1 by (apply (heap_wf_ext w); done).
  assert (permissionsForDomain w1 d = Some old) as Hold1 by exact Hold.
  pose proof (root_records_shape root (clock w) (map_to_list approved)
                (uuid_count w)) as Hshape. fold new in Hshape.
  destruct (addPermissionsFor_spec_ids d new w1 old Hwf1 Hold1)
    as (R1 & R2 & _ & R3 & R4 & R5 & R6 & R7).
  { clear -Hshape. induction Hshape as [|kv P ? ? (_ & _ & _ & Hid)]; auto. }
  fold ps' in R2.
  change (domains_view w1) with (domains_view w) in R2.
  rewrite (bind_ret_eq _ _ _ _ _ (outcome_eq _ _ R1)).
  set (w2 := (addPermissionsFor d new w1).2) in *.
  assert (permissionsForDomain w2 d = Some stored) as Hps'.
  { rewrite (permissionsForDomain_put w w2 d ps' R2). reflexivity. }
  unfold getPermissionsForDomain. run_M. rewrite !Hps'. cbn [permissions_result].
  split; [reflexivity|]. split; [exact R2|]. split; [exact Hps'|].
  split; [exact R3|]. split; [exact R5|].
  split; [rewrite R6; reflexivity|].
  split; [rewrite R7, <- app_assoc; reflexivity|].
  split; [apply (heap_wf_ext w2); [reflexivity..|exact R4]|].
  intros Hnold. apply upsert_keeps_keys_distinct; [exact Hnold|].
  unfold new. rewrite root_records_keys.
  apply NoDup_fmap_2; [intros m1 m2 Heq; congruence|].
  apply NoDup_fst_map_to_list.
Qed.

Lemma grantNewPermissions_unordered
    (d : string) (approved : IRequestedPermissions) (g : option string)
    (w : World) (old : list RpcCapPermission) :
  heap_wf w →
  permissionsForDomain w d = Some old →
  let root := if truthy g then default "" g else "user" in
  let r := grantNewPermissions d approved g w in
  ∃ new,
    let ps' := filter (fun oldPerm => ¬ Exists (same_key oldPerm) new) old
               ++ new in
    let stored := if decide (assignable w d) then ps' else [] in
    r.1 = Ret tt ∧
    NoDup (method <$> new) ∧
    Forall (fun P => granter P = Some root ∧ truthy (perm_id P) = true ∧
                     ∃ m rq, method P = Some m ∧ approved !! m = Some rq ∧
                             caveats P = request_caveats rq) new ∧
    map_Forall (fun m _ => Some m ∈ method <$> new) approved ∧
    domains_view r.2
      = object_put d {| permissions := Some ps' |} (domains_view w) ∧
    permissionsForDomain r.2 d = Some stored ∧
    (d ≠ "__proto__" → stored = ps') ∧
    (∀ d', d' ≠ d → permissionsForDomain r.2 d' = permissionsForDomain w d') ∧
    state_permissionsRequests r.2 = state_permissionsRequests w ∧
    res r.2 = {| result := Some (RPermissions stored); error := error (res w) |} ∧
    log r.2 = log w ++ [EvSetResult (RPermissions stored); EvEnd None] ∧
    heap_wf r.2 ∧
    (NoDup (natural_key <$> old) → NoDup (natural_key <$> ps')).
Proof.
  intros Hwf Hold root r.
  destruct (grantNewPermissions_spec d approved g w old Hwf Hold)
    as (G1 & G2 & G3 & G4 & G5 & G6 & G7 & G8 & G9).
  fold root r in G1, G2, G3, G4, G5, G6, G7, G8, G9.
  set (new := root_records root (uuid_count w) (clock w) (map_to_list approved))
    in *.
  exists new. cbv zeta.
  split; [exact G1|]. split.
  { unfold new. rewrite root_records_methods.
    apply NoDup_fmap_2; [intros m1 m2 Heq; congruence|].
    apply NoDup_fst_map_to_list. }
  split.
  { eapply Forall_impl; [apply root_records_origin|].
    intros P (Hg & Hid & m & rq & Hm & Hin & Hc).
    split; [exact Hg|]. split; [exact Hid|]. exists m, rq.
    split; [exact Hm|]. split; [apply elem_of_map_to_list; exact Hin|exact Hc]. }
  split.
  { intros m rq Hm. unfold new. cbn beta.
    rewrite root_records_methods. apply list_elem_of_fmap.
    exists m. split; [reflexivity|]. apply list_elem_of_fmap.
    exists (m, rq). split; [reflexivity|]. apply elem_of_map_to_list. exact Hm. }
  split; [exact G2|]. split; [exact G3|]. split.
  { intros Hne. rewrite decide_True; [reflexivity|by left]. }
  done.
Qed.

(** X18.  What an approval grants.  On a well-formed heap, when the entry of
    the domain holds a permissions array, [grantNewPermissions] builds one
    record for every method of the approved object, and only for those: with
    the requested caveats, a new identifier and the granter that was passed
    or ["user"].  For every domain name but ["__proto__"] these records
    replace the earlier records of the domain with the same natural key and
    follow the others; [res.result] is the list the domain then reads as,
    [end()] is called once without error, and no other domain is touched.
    (Under the name ["__proto__"], when the registry has no such key, the
    records are not stored and the list read back is empty.)  A list with
    pairwise distinct natural keys stays one.  The order of the new records
    among themselves is the order in which the keys of the approved object
    are enumerated. *)
Theorem grantNewPermissions_issues_records
    (d : string) (approved : IRequestedPermissions) (g : option string)
    (w : World) (old : list RpcCapPermission) :
  heap_wf w →
  permissionsForDomain w d = Some old →
  let root := if truthy g then default "" g else "user" in
  let r := grantNewPermissions d approved g w in
  ∃ new,
    let ps' := filter (fun oldPerm => ¬ Exists (same_key oldPerm) new) old
               ++ new in
    let stored := if decide (assignable w d) then ps' else [] in
    r.1 = Ret tt ∧
    NoDup (method <$> new) ∧
    Forall (fun P => granter P = Some root ∧ truthy (perm_id P) = true ∧
                     ∃ m rq, method P = Some m ∧ approved !! m = Some rq ∧
                             caveats P = request_caveats rq) new ∧
    map_Forall (fun m _ => Some m ∈ method <$> new) approved ∧
    domains_view r.2
      = object_put d {| permissions := Some ps' |} (domains_view w) ∧
    permissionsForDomain r.2 d = Some stored ∧
    (d ≠ "__proto__" → stored = ps') ∧
    (∀ d', d' ≠ d → permissionsForDomain r.2 d' = permissionsForDomain w d') ∧
    state_permissionsRequests r.2 = state_permissionsRequests w ∧
    res r.2 = {| result := Some (RPermissions stored); error := error (res w) |} ∧
    log r.2 = log w ++ [EvSetResult (RPermissions stored); EvEnd None] ∧
    heap_wf r.2 ∧
    (NoDup (natural_key <$> old) → NoDup (natural_key <$> ps')).
Proof. apply grantNewPermissions_unordered. Qed.

Lemma grantNewPermissions_issues_records_witness :
  let approved : IRequestedPermissions :=
    {[ "write" := {| request_caveats := None |};
       "read" := {| request_caveats := Some [ {| type := "static"; value := JNum 1 |} ] |} ]} in
  let old := [permission_of "write" (Some "siteA") "id-2"] in
  let root := if truthy None then default "" None else "user" in
  let r := grantNewPermissions "siteB" approved None S4_world in
  ∃ new,
    let ps' := filter (fun oldPerm => ¬ Exists (same_key oldPerm) new) old
               ++ new in
    let stored := if decide (assignable S4_world "siteB") then ps' else [] in
    r.1 = Ret tt ∧
    NoDup (method <$> new) ∧
    Forall (fun P => granter P = Some root ∧ truthy (perm_id P) = true ∧
                     ∃ m rq, method P = Some m ∧ approved !! m = Some rq ∧
                             caveats P = request_caveats rq) new ∧
    map_Forall (fun m _ => Some m ∈ method <$> new) approved ∧
    domains_view r.2
      = object_put "siteB" {| permissions := Some ps' |} (domains_view S4_world) ∧
    permissionsForDomain r.2 "siteB" = Some stored ∧
    ("siteB" ≠ "__proto__" → stored = ps') ∧
    (∀ d', d' ≠ "siteB" →
           permissionsForDomain r.2 d' = permissionsForDomain S4_world d') ∧
    state_permissionsRequests r.2 = state_permissionsRequests S4_world ∧
    res r.2 = {| result := Some (RPermissions stored);
                 error := error (res S4_world) |} ∧
    log r.2 = log S4_world ++ [EvSetResult (RPermissions stored); EvEnd None] ∧
    heap_wf r.2 ∧
    (NoDup (natural_key <$> old) → NoDup (natural_key <$> ps')).
Proof.
  apply (grantNewPermissions_issues_records "siteB" _ None S4_world
           [permission_of "write" (Some "siteA") "id-2"]).
  - exact S4_world_wf.
  - vm_compute. reflexivity.
Defined.

(** The identifier under which [requestPermissionsMiddleware] registers a
    request: the one that came with the request, or a new one. *)
Lemma requestPermissions_begin_spec d req w :
  let md := default {| metadata_id := None; origin := d; siteTitle := Some d |}
              (req_metadata req) in
  let rid := if truthy (metadata_id md) then metadata_id md
             else Some (uuid_at (uuid_count w)) in
  ∃ pr w1,
    requestPermissions_begin d req w = (Ret pr, w1) ∧
    request_origin pr = d ∧ metadata_id (metadata pr) = rid ∧
    registries w1 = registries w ∧ entries w1 = entries w ∧
    state_domains w1 = state_domains w ∧
    state_permissionsRequests w1
      = Some (default [] (state_permissionsRequests w) ++ [pr]) ∧
    res w1 = res w ∧ log w1 = log w.
Proof.
  cbn zeta. unfold requestPermissions_begin.
  destruct (truthy (metadata_id _)) eqn:Hid.
  - eexists _, _. split; [reflexivity|]. cbn. done.
  - eexists _, _. split; [reflexivity|]. cbn. done.
Qed.

Lemma Forall2_elem_of_l {A B} (R : A → B → Prop) l k x :
  Forall2 R l k → x ∈ l → ∃ y, y ∈ k ∧ R x y.
Proof.
  induction 1 as [|a b l k Hab _ IH]; intros Hx; [inversion Hx|].
  apply elem_of_cons in Hx as [->|Hx].
  - exists b. split; [apply list_elem_of_here|exact Hab].
  - destruct (IH Hx) as (y & Hy & HR). exists y.
    split; [apply list_elem_of_further; exact Hy|exact HR].
Qed.

(** X19.  An approved request, from registration to grant.  On a
    well-formed heap, for a domain name other than ["__proto__"] whose entry
    holds a permissions array, when the approver resolves with a non-empty
    object, the request is answered once, without error, with the resulting
    list of the domain, which holds a record granted by ["user"] for every
    approved method.  Of the pending requests, those carrying the identifier
    of this request are removed (the request itself, and any earlier one
    registered under the same identifier); the others stay, in order. *)
Theorem approved_request_is_granted_and_cleared
    (config : CapabilitiesConfig) (d : string) (req : JsonRpcRequest)
    (w : World) (old : list RpcCapPermission) (approved : IRequestedPermissions) :
  heap_wf w →
  d ≠ "__proto__" →
  permissionsForDomain w d = Some old →
  (∀ pr, requestUserApproval config pr = Resolved approved) →
  approved ≠ ∅ →
  let md := default {| metadata_id := None; origin := d; siteTitle := Some d |}
              (req_metadata req) in
  let rid := if truthy (metadata_id md) then metadata_id md
             else Some (uuid_at (uuid_count w)) in
  let r := requestPermissionsMiddleware config d req w in
  ∃ ps',
    r.1 = Ret tt ∧
    state_permissionsRequests r.2
      = Some (filter (fun q => metadata_id (metadata q) ≠ rid)
                (default [] (state_permissionsRequests w))) ∧
    permissionsForDomain r.2 d = Some ps' ∧
    (∀ m, is_Some (approved !! m) →
          ∃ P, P ∈ ps' ∧ method P = Some m ∧ granter P = Some "user") ∧
    (∀ d', d' ≠ d → permissionsForDomain r.2 d' = permissionsForDomain w d') ∧
    res r.2 = {| result := Some (RPermissions ps'); error := error (res w) |} ∧
    log r.2 = log w ++ [EvSetResult (RPermissions ps'); EvEnd None].
Proof.
  intros Hwf Hproto Hold Happ Hne md rid r.
  destruct (requestPermissions_begin_spec d req w)
    as (pr & w1 & E & Ho & Hid & H1 & H2 & H3 & H4 & H5 & H6).
  fold md in Hid. fold rid in Hid.
  set (pending := filter (fun q => metadata_id (metadata q) ≠ rid)
                    (default [] (state_permissionsRequests w))).
  set (w2 := set_state_permissionsRequests (Some pending) w1).
  assert (heap_wf w2) as Hwf2 by (apply (heap_wf_ext w); done).
  assert (permissionsForDomain w2 d = Some old) as Hold2
    by (rewrite (permissionsForDomain_ext w w2 d); done).
  destruct (grantNewPermissions_spec d approved None w2 old Hwf2 Hold2)
    as (G1 & _ & G2 & G4 & G5 & G6 & G7 & _).
  cbn [truthy] in G2, G6, G7.
  rewrite decide_True in G2, G6, G7 by (by left).
  pose proof (root_records_shape "user" (clock w2) (map_to_list approved)
                (uuid_count w2)) as G3.
  assert (r = grantNewPermissions d approved None w2) as Hrun.
  { unfold r, requestPermissionsMiddleware.
    rewrite (bind_ret_eq _ _ _ _ _ E), Happ.
    unfold requestPermissions_settle, try_catch.
    rewrite bool_decide_eq_false_2.
    2:{ intros Hlen. apply Hne, map_to_list_empty_iff.
        destruct (map_to_list approved); [reflexivity|discriminate]. }
    assert (removePermissionsRequest (metadata_id (metadata pr)) w1 = (Ret tt, w2))
      as Hrem.
    { unfold removePermissionsRequest, getPermissionsRequests,
        setPermissionsRequests, gets, modify, bind.
      rewrite H4.
      change (default [] (Some ?x)) with x. rewrite filter_app, Hid.
      rewrite (filter_cons_False _ pr) by (intros Hq; apply Hq; exact Hid).
      rewrite filter_nil, app_nil_r. reflexivity. }
    rewrite (bind_ret_eq _ _ _ _ _ Hrem).
    rewrite (outcome_eq _ _ G1). reflexivity. }
  rewrite Hrun. eexists. split; [exact G1|].
  split; [rewrite G5; reflexivity|]. split; [exact G2|].
  split.
  { intros m [mr Hm]. apply elem_of_map_to_list in Hm.
    destruct (Forall2_elem_of_l _ _ _ _ G3 Hm) as (P & HP & Hmeth & _ & Hg & _).
    exists P. split; [|done]. apply elem_of_app. right. exact HP. }
  split.
  { intros d' Hd'. rewrite (G4 d' Hd'). apply permissionsForDomain_ext; done. }
  split; [rewrite G6; cbn; rewrite H5; reflexivity|].
  rewrite G7. cbn. rewrite H6. reflexivity.
Qed.

Lemma approved_request_is_granted_and_cleared_witness :
  let req := make_request "requestPermissions" (ParamsRequest write_request) in
  let md := default {| metadata_id := None; origin := "siteB";
                       siteTitle := Some "siteB" |} (req_metadata req) in
  let rid := if truthy (metadata_id md) then metadata_id md
             else Some (uuid_at (uuid_count S4_world)) in
  let r := requestPermissionsMiddleware S1_config "siteB" req S4_world in
  ∃ ps',
    r.1 = Ret tt ∧
    state_permissionsRequests r.2
      = Some (filter (fun q => metadata_id (metadata q) ≠ rid)
                (default [] (state_permissionsRequests S4_world))) ∧
    permissionsForDomain r.2 "siteB" = Some ps' ∧
    (∀ m, is_Some (write_request !! m) →
          ∃ P, P ∈ ps' ∧ method P = Some m ∧ granter P = Some "user") ∧
    (∀ d', d' ≠ "siteB" →
           permissionsForDomain r.2 d' = permissionsForDomain S4_world d') ∧
    res r.2 = {| result := Some (RPermissions ps');
                 error := error (res S4_world) |} ∧
    log r.2 = log S4_world ++ [EvSetResult (RPermissions ps'); EvEnd None].
Proof.
  apply (approved_request_is_granted_and_cleared S1_config "siteB"
           (make_request "requestPermissions" (ParamsRequest write_request))
           S4_world [permission_of "write" (Some "siteA") "id-2"] write_request).
  - exact S4_world_wf.
  - discriminate.
  - vm_compute. reflexivity.
  - reflexivity.
  - intros H. apply (f_equal (fun m => m !! "write")) in H.
    vm_compute in H. discriminate.
Defined.

(** * Further properties: delegation takes effect, and failures *)

Lemma methodPermissions_frame w w' m d :
  permissionsForDomain w' d = permissionsForDomain w d →
  ∃ o, methodPermissions m d w' = (o, w') ∧ methodPermissions m d w = (o, w).
Proof.
  intros H. unfold methodPermissions, getPermissionsForDomain, gets, bind.
  rewrite H. destruct (permissionsForDomain w d); cbn; eauto.
Qed.

Lemma methodPermissions_nothing w m d ps :
  permissionsForDomain w d = Some ps → filter (methodFilter m) ps = [] →
  methodPermissions m d w = (Ret [], w).
Proof.
  intros H Hnone. unfold methodPermissions, getPermissionsForDomain, gets, bind.
  rewrite H. cbn. rewrite Hnone. reflexivity.
Qed.

(** Changing the list of a domain that held nothing for the method does not
    change what the resolver found. *)
Lemma getPermission_loop_frame w w' m grantee old root :
  permissionsForDomain w grantee = Some old →
  filter (methodFilter m) old = [] →
  (∀ d', d' ≠ grantee → permissionsForDomain w' d' = permissionsForDomain w d') →
  ∀ n perms,
    (getPermission_loop n m perms w).1 = Ret (Some root) →
    (getPermission_loop n m perms w').1 = Ret (Some root).
Proof.
  intros Hold Hnone Hframe.
  induction n as [|n IH]; intros [|perm perms]; try discriminate.
  cbn [getPermission_loop]. destruct (truthy (granter perm)); [|done].
  set (g1 := default "" (granter perm)). unfold bind.
  destruct (decide (g1 = grantee)) as [Heq|Hne].
  - rewrite Heq, (methodPermissions_nothing w m grantee old Hold Hnone).
    rewrite getPermission_loop_nil. discriminate.
  - destruct (methodPermissions_frame w w' m g1 (Hframe g1 Hne)) as (o & -> & ->).
    destruct o; [apply IH|discriminate..].
Qed.

Lemma getPermission_frame w w' fuel g m grantee old root :
  permissionsForDomain w grantee = Some old →
  filter (methodFilter m) old = [] →
  (∀ d', d' ≠ grantee → permissionsForDomain w' d' = permissionsForDomain w d') →
  (getPermission fuel g m w).1 = Ret (Some root) →
  (getPermission fuel g m w').1 = Ret (Some root).
Proof.
  intros Hold Hnone Hframe. unfold getPermission, bind.
  destruct (decide (g = grantee)) as [->|Hne].
  - rewrite (methodPermissions_nothing w m grantee old Hold Hnone).
    rewrite getPermission_loop_nil. discriminate.
  - destruct (methodPermissions_frame w w' m g (Hframe g Hne)) as (o & -> & ->).
    destruct o; [|discriminate..].
    apply (getPermission_loop_frame w w' m grantee old root Hold Hnone Hframe).
Qed.

Lemma filter_and_nil {A} (P Q : A → Prop)
    `{!∀ x, Decision (P x), !∀ x, Decision (Q x)} (l : list A) :
  filter P l = [] → filter (fun a => P a ∧ Q a) l = [].
Proof.
  intros Hnone. destruct (filter (fun a => P a ∧ Q a) l) as [|x xs] eqn:Hf;
    [reflexivity|].
  assert (x ∈ filter (fun a => P a ∧ Q a) l) as Hx
    by (rewrite Hf; apply list_elem_of_here).
  apply list_elem_of_filter in Hx as [[HP _] Hin].
  exfalso. exact (filter_nil_not_elem_of _ _ x Hnone HP Hin).
Qed.

(** X20.  Delegation takes effect.  On a well-formed heap, when a
    [grantPermissions] call by [g] succeeds for a grantee, named otherwise
    than ["__proto__"], that held nothing for the requested methods, the
    grantee resolves each granted method to the permission [g] resolves for
    it: the resolver goes from the new record to [g] and on as it does for
    [g].  (When the call is refused, [res.error] is the unauthorized
    error.) *)
Theorem granted_method_resolves_for_grantee
    (fuel : nat) (g : string) (req : JsonRpcRequest) (grantee : string)
    (reqs : list RpcCapPermission) (w : World) (old : list RpcCapPermission) :
  heap_wf w →
  grantee ≠ "__proto__" →
  params req = ParamsGrant grantee reqs →
  permissionsForDomain w grantee = Some old →
  (∀ rp, rp ∈ reqs → ∃ o, (getPermission fuel g (method rp) w).1 = Ret o) →
  (∀ rp, rp ∈ reqs → filter (methodFilter (method rp)) old = []) →
  g ≠ "" →
  let r := grantPermissionsMiddleware fuel g req w in
  let asked := dedupe_by_method Object_prototype_keys reqs in
  let refused := filter (fun rp => grant_lookup fuel g w rp = None) asked in
  let granted := delegated_records fuel g w (uuid_count w) (clock w) asked in
  (refused = [] →
     result (res r.2) = Some (RPermissions granted) ∧
     method <$> granted = method <$> asked ∧
     Forall (fun P =>
               ∃ root,
                 (getPermission fuel g (method P) w).1 = Ret (Some root) ∧
                 (getPermission (S fuel) grantee (method P) r.2).1
                   = Ret (Some root)) granted) ∧
  (refused ≠ [] →
     error (res r.2) = Some (unauthorized (Some req)) ∧
     permissionsForDomain r.2 grantee = Some old).
Proof.
  intros Hwf Hproto Hparams Hold Hres Hnone Hg r asked refused granted.
  destruct (grantPermissionsMiddleware_spec fuel g req grantee reqs w old
              Hwf Hparams Hold Hres)
    as (_ & Hall & Hframe & _ & Hok & Hrefused).
  fold r asked refused granted in Hall, Hframe, Hok, Hrefused.
  split.
  2:{ intros Hrf. destruct (Hrefused Hrf) as (H1 & _ & H3 & _).
      split; [rewrite H3; reflexivity|exact H1]. }
  intros Hrf. destruct (Hok Hrf) as (Hmeth & _ & Hps' & _ & Hresult & _).
  specialize (Hps' Hproto).
  split; [rewrite Hresult; reflexivity|]. split; [exact Hmeth|].
  pose proof (dedupe_by_method_sublist reqs Object_prototype_keys) as Hsub.
  fold asked in Hsub.
  rewrite Forall_forall in Hall. apply Forall_forall. intros P HP.
  destruct (Hall P HP) as (HgP & _ & root & Hroot & _).
  exists root. split; [exact Hroot|].
  (* the old list of the grantee holds nothing for the method *)
  assert (filter (methodFilter (method P)) old = []) as Hnone_old.
  { assert (method P ∈ method <$> reqs) as Hin.
    { eapply elem_of_sublist; [|apply fmap_sublist; exact Hsub].
      rewrite <- Hmeth. apply list_elem_of_fmap. eauto. }
    apply list_elem_of_fmap in Hin as (rp & Hm & Hrp). rewrite Hm.
    exact (Hnone rp Hrp). }
  (* so the first record for the method is one of the new ones *)
  assert (∃ P' rest,
            filter (methodFilter (method P))
              (filter (fun oldPerm => ¬ Exists (same_key oldPerm) granted) old
               ++ granted) = P' :: rest ∧ granter P' = Some g)
    as (P' & rest & Hfilter & HgP').
  { rewrite filter_app, list_filter_filter.
    assert (filter (fun a => methodFilter (method P) a ∧
                             ¬ Exists (same_key a) granted) old = []) as ->.
    { apply filter_and_nil. exact Hnone_old. }
    cbn [app].
    destruct (filter (methodFilter (method P)) granted) as [|P' rest] eqn:Hf.
    - exfalso. apply (filter_nil_not_elem_of _ _ P Hf); [reflexivity|exact HP].
    - exists P', rest. split; [reflexivity|].
      assert (P' ∈ filter (methodFilter (method P)) granted) as Hin'
        by (rewrite Hf; apply list_elem_of_here).
      apply list_elem_of_filter in Hin' as [_ Hin'].
      destruct (Hall P' Hin') as (Hg' & _). exact Hg'. }
  rewrite (getPermission_step fuel grantee (method P) r.2 _ rest P' Hps' Hfilter).
  rewrite HgP', (truthy_nonempty g Hg). change (default "" (Some g)) with g.
  exact (getPermission_frame w r.2 fuel g (method P) grantee old root
           Hold Hnone_old Hframe Hroot).
Qed.

Lemma granted_method_resolves_for_grantee_witness :
  let reqs := [method_only "write"] in
  let req := make_request "grantPermissions" (ParamsGrant "siteC" reqs) in
  let r := grantPermissionsMiddleware 3 "siteA" req S4_world in
  let asked := dedupe_by_method Object_prototype_keys reqs in
  let refused := filter (fun rp => grant_lookup 3 "siteA" S4_world rp = None)
                   asked in
  let granted := delegated_records 3 "siteA" S4_world (uuid_count S4_world)
                   (clock S4_world) asked in
  (refused = [] →
     result (res r.2) = Some (RPermissions granted) ∧
     method <$> granted = method <$> asked ∧
     Forall (fun P =>
               ∃ root,
                 (getPermission 3 "siteA" (method P) S4_world).1
                   = Ret (Some root) ∧
                 (getPermission 4 "siteC" (method P) r.2).1 = Ret (Some root))
            granted) ∧
  (refused ≠ [] →
     error (res r.2) = Some (unauthorized (Some req)) ∧
     permissionsForDomain r.2 "siteC" = Some []).
Proof.
  apply (granted_method_resolves_for_grantee 3 "siteA"
           (make_request "grantPermissions"
              (ParamsGrant "siteC" [method_only "write"]))
           "siteC" [method_only "write"] S4_world []).
  - exact S4_world_wf.
  - discriminate.
  - reflexivity.
  - vm_compute. reflexivity.
  - intros rp Hrp. apply list_elem_of_singleton in Hrp as ->.
    eexists. vm_compute. reflexivity.
  - intros rp _. reflexivity.
  - discriminate.
Defined.

Lemma store_update_lemma
    (d : string) (ps : list RpcCapPermission) (w : World) :
  permissionsForDomain w d = None →
  addPermissionsFor d ps w = (Throw (TypeError "filter"), w) ∧
  removePermissionsFor d ps w = (Throw (TypeError "reduce"), w).
Proof.
  intros Hnone.
  destruct (getDomainSettings_view d w) as (e & w0 & E & Hperm & _).
  assert (w0 = w) as ->.
  { revert E. unfold permissionsForDomain in Hnone.
    destruct (state_domains w) as [l|] eqn:Hl; [|discriminate].
    destruct (read_registry l w !! d) as [e0|] eqn:Hd; [|discriminate].
    rewrite (getDomainSettings_present d w l e0 Hl Hd). congruence. }
  rewrite Hnone in Hperm.
  unfold addPermissionsFor, removePermissionsFor.
  rewrite !(bind_ret_eq _ _ _ _ _ E).
  split; unfold gets; unfold bind at 1; rewrite Hperm; reflexivity.
Qed.

Lemma bind_ret_eq_throw {A B} (m : M A) (k : A → M B) w e w1 :
  m w = (Throw e, w1) → bind m k w = (Throw e, w1).
Proof. unfold bind. intros ->. reflexivity. Qed.

(** X21.  A domain entry without a [permissions] array makes
    [addPermissionsFor] and [removePermissionsFor] throw a [TypeError]; the
    state is left exactly as it was. *)
Theorem store_update_without_permissions_array
    (d : string) (ps : list RpcCapPermission) (w : World) :
  permissionsForDomain w d = None →
  addPermissionsFor d ps w = (Throw (TypeError "filter"), w) ∧
  removePermissionsFor d ps w = (Throw (TypeError "reduce"), w).
Proof. apply store_update_lemma. Qed.

Lemma store_update_without_permissions_array_witness :
  addPermissionsFor "siteA" [user_write_1] undefined_permissions_world
    = (Throw (TypeError "filter"), undefined_permissions_world) ∧
  removePermissionsFor "siteA" [user_write_1] undefined_permissions_world
    = (Throw (TypeError "reduce"), undefined_permissions_world).
Proof.
  apply (store_update_without_permissions_array "siteA" [user_write_1]
           undefined_permissions_world).
  vm_compute. reflexivity.
Defined.

(** X22.  The grant and revoke handlers do not catch: when the list they
    read has no [permissions] array, the [TypeError] of the lookup leaves
    the handler, [res] is not written and [end] is not called.  (The router
    catches resolver errors for restricted methods only.) *)
Theorem meta_handlers_let_errors_escape
    (fuel : nat) (domain other : string) (greq rreq : JsonRpcRequest)
    (reqPerm : RpcCapPermission) (reqs : list RpcCapPermission)
    (entry : string + RpcCapPermission)
    (entries : list (string + RpcCapPermission)) (w : World) :
  params greq = ParamsGrant other (reqPerm :: reqs) →
  property_key (method reqPerm) ∉ Object_prototype_keys →
  params rreq = ParamsRevoke domain (entry :: entries) →
  permissionsForDomain w domain = None →
  grantPermissionsMiddleware fuel domain greq w = (Throw (TypeError "filter"), w) ∧
  revokePermissionsMiddleware other rreq w = (Throw (TypeError "filter"), w).
Proof.
  intros Hgrant Hkey Hrevoke Hnone. split.
  - unfold grantPermissionsMiddleware. rewrite Hgrant.
    cbn [dedupe_by_method]. rewrite bool_decide_eq_false_2 by exact Hkey.
    cbn [fold_M]. unfold grant_step at 1, getPermission, methodPermissions,
      getPermissionsForDomain, gets.
    unfold bind at 1 2 3 4 5 6. rewrite Hnone. reflexivity.
  - unfold revokePermissionsMiddleware. rewrite Hrevoke.
    cbn [fold_M]. unfold revoke_step at 1, getPermissionUnTraversed,
      getPermissionsForDomain, gets.
    unfold bind at 1 2 3 4 5. rewrite Hnone. reflexivity.
Qed.

Lemma meta_handlers_let_errors_escape_witness :
  grantPermissionsMiddleware 3 "siteA"
    (make_request "grantPermissions" (ParamsGrant "siteB" [method_only "write"]))
    undefined_permissions_world
    = (Throw (TypeError "filter"), undefined_permissions_world) ∧
  revokePermissionsMiddleware "siteB"
    (make_request "revokePermissions" (ParamsRevoke "siteA" [inl "write"]))
    undefined_permissions_world
    = (Throw (TypeError "filter"), undefined_permissions_world).
Proof.
  apply (meta_handlers_let_errors_escape 3 "siteA" "siteB"
           (make_request "grantPermissions"
              (ParamsGrant "siteB" [method_only "write"]))
           (make_request "revokePermissions" (ParamsRevoke "siteA" [inl "write"]))
           (method_only "write") [] (inl "write") [] undefined_permissions_world).
  - reflexivity.
  - intros H. apply (bool_decide_pack _) in H. vm_compute in H. exact H.
  - reflexivity.
  - vm_compute. reflexivity.
Defined.

(** X23.  When the approver resolves with a non-empty map but the grant
    fails because the entry of the domain has no [permissions] array, the
    [catch] callback reports the thrown error: [res.error] is that error,
    [end] is called once with it, no permission is stored, and the pending
    request has already been removed. *)
Theorem failed_grant_is_reported
    (config : CapabilitiesConfig) (d : string) (req : JsonRpcRequest)
    (w : World) (approved : IRequestedPermissions) :
  permissionsForDomain w d = None →
  (∀ pr, requestUserApproval config pr = Resolved approved) →
  approved ≠ ∅ →
  let md := default {| metadata_id := None; origin := d; siteTitle := Some d |}
              (req_metadata req) in
  let rid := if truthy (metadata_id md) then metadata_id md
             else Some (uuid_at (uuid_count w)) in
  let r := requestPermissionsMiddleware config d req w in
  r.1 = Ret tt ∧
  res r.2 = {| result := result (res w); error := Some (TypeError "filter") |} ∧
  log r.2 = log w ++ [EvSetError (TypeError "filter");
                      EvEnd (Some (TypeError "filter"))] ∧
  (∀ d', permissionsForDomain r.2 d' = permissionsForDomain w d') ∧
  state_permissionsRequests r.2
    = Some (filter (fun q => metadata_id (metadata q) ≠ rid)
              (default [] (state_permissionsRequests w))).
Proof.
  intros Hnone Happ Hne md rid r.
  destruct (requestPermissions_begin_spec d req w)
    as (pr & w1 & E & Ho & Hid & H1 & H2 & H3 & H4 & H5 & H6).
  fold md in Hid. fold rid in Hid.
  set (pending := filter (fun q => metadata_id (metadata q) ≠ rid)
                    (default [] (state_permissionsRequests w))).
  set (w2 := set_state_permissionsRequests (Some pending) w1).
  set (w3 := set_uuid_count (uuid_count w2 + length (map_to_list approved)) w2).
  assert (permissionsForDomain w3 d = None) as Hnone3
    by (rewrite (permissionsForDomain_ext w w3 d); done).
  assert (r = (set_error (TypeError "filter") ;;;
               end_ (Some (TypeError "filter"))) w3) as Hrun.
  { unfold r, requestPermissionsMiddleware.
    rewrite (bind_ret_eq _ _ _ _ _ E), Happ.
    unfold requestPermissions_settle, try_catch.
    rewrite bool_decide_eq_false_2.
    2:{ intros Hlen. apply Hne, map_to_list_empty_iff.
        destruct (map_to_list approved); [reflexivity|discriminate]. }
    assert (removePermissionsRequest (metadata_id (metadata pr)) w1 = (Ret tt, w2))
      as Hrem.
    { unfold removePermissionsRequest, getPermissionsRequests,
        setPermissionsRequests, gets, modify, bind.
      rewrite H4.
      change (default [] (Some ?x)) with x. rewrite filter_app, Hid.
      rewrite (filter_cons_False _ pr) by (intros Hq; apply Hq; exact Hid).
      rewrite filter_nil, app_nil_r. reflexivity. }
    rewrite (bind_ret_eq _ _ _ _ _ Hrem).
    unfold grantNewPermissions.
    rewrite (bind_ret_eq _ _ _ _ _ (map_M_root_records None (map_to_list approved) w2)).
    fold w3.
    rewrite (bind_ret_eq_throw _ _ _ _ _
               (proj1 (store_update_lemma d _ w3 Hnone3))).
    reflexivity. }
  rewrite Hrun. run_M.
  split; [reflexivity|]. split; [rewrite H5; reflexivity|].
  split; [rewrite H6, <- app_assoc; reflexivity|].
  split; [intros d'; apply permissionsForDomain_ext; done|]. reflexivity.
Qed.

Lemma failed_grant_is_reported_witness :
  let req := make_request "requestPermissions" (ParamsRequest write_request) in
  let md := default {| metadata_id := None; origin := "siteA";
                       siteTitle := Some "siteA" |} (req_metadata req) in
  let rid := if truthy (metadata_id md) then metadata_id md
             else Some (uuid_at (uuid_count undefined_permissions_world)) in
  let r := requestPermissionsMiddleware S1_config "siteA" req
             undefined_permissions_world in
  r.1 = Ret tt ∧
  res r.2 = {| result := result (res undefined_permissions_world);
               error := Some (TypeError "filter") |} ∧
  log r.2 = log undefined_permissions_world
            ++ [EvSetError (TypeError "filter");
                EvEnd (Some (TypeError "filter"))] ∧
  (∀ d', permissionsForDomain r.2 d'
         = permissionsForDomain undefined_permissions_world d') ∧
  state_permissionsRequests r.2
    = Some (filter (fun q => metadata_id (metadata q) ≠ rid)
              (default [] (state_permissionsRequests undefined_permissions_world))).
Proof.
  apply (failed_grant_is_reported S1_config "siteA"
           (make_request "requestPermissions" (ParamsRequest write_request))
           undefined_permissions_world write_request).
  - vm_compute. reflexivity.
  - reflexivity.
  - intros H. apply (f_equal (fun m => m !! "write")) in H.
    vm_compute in H. discriminate.
Defined.
